(** * Sheets_edit: the rename registry and the transcript aligner

    A shallow embedding of the matching core of the repository:
    - [scripts/4_Change_name.py]: [slugify_filename], [ensure_target_filename],
      [FileRegistry] ([_register], [_unregister], [_remove_from_map], [take],
      [add], [_take_fuzzy]), [get_rows] and the row loop of [main];
    - [scripts/1.3_xml_placeholders.py]: [remove_links_from_text],
      [clean_text], [parse_timestamp_str], [load_transcript_json],
      [best_match] and the alignment loop of [main], [read_sheet_rows],
      [calculate_font_size];
    - [scripts/sheet_cache.py]: [sanitize_fs_name], [_unique_csv_name],
      [_looks_like_sheet_id], [parse_spreadsheet_id], [_column_label],
      [_is_http_url], [_detect_category].

    Python [str] values are modelled as lists of characters whose code
    points are below 256; on that range the operations below ([strip],
    [lower], the regular expressions) agree with Python's.  Python dicts
    are insertion ordered and [_take_fuzzy] iterates over their keys, so a
    dict is an association list with unique keys.  The [rapidfuzz] scorers
    are an external library: they are parameters of the functions that call
    them.  Scores are floats that are only compared and truncated; they
    are rationals here.  The times of a transcript are floats that can be
    NaN or infinite ([pyfloat]); a finite one holds a rational.  What the
    operating system and the interpreter decide is a parameter as well:
    the failures of [rename] and of [exists], the conversions [str] and
    [float], the digits [int] converts, and the order [list.sort] leaves on
    keys with a NaN.  [pathlib] is the one of Python 3.8 to 3.13. *)

From Stdlib Require Import List Ascii String ZArith QArith Bool Arith Lia.
From Stdlib Require Import Permutation Sorted.
Import ListNotations.

Open Scope nat_scope.

(* ===================================================================== *)
(** ** Python strings *)
(* ===================================================================== *)

Module PyStr.

Definition str := list ascii.

(** A literal. *)
Definition py (s : string) : str := list_ascii_of_string s.

Definition code (c : ascii) : nat := nat_of_ascii c.

Definition between (lo hi n : nat) : bool := (lo <=? n) && (n <=? hi).

(** [str.isspace] on one character, which is also the class [\s] of [re]
    for [str] patterns. *)
Definition isspace (c : ascii) : bool :=
  let n := code c in
  between 9 13 n || between 28 32 n || (n =? 133) || (n =? 160).

(** One character of [str.lower]. *)
Definition lower_char (c : ascii) : ascii :=
  let n := code c in
  if between 65 90 n || between 192 214 n || between 216 222 n
  then ascii_of_nat (n + 32) else c.

Definition lower (s : str) : str := map lower_char s.

(** [string.punctuation]. *)
Definition ispunct (c : ascii) : bool :=
  let n := code c in
  between 33 47 n || between 58 64 n || between 91 96 n || between 123 126 n.

Definition isdigit (c : ascii) : bool := between 48 57 (code c).

Fixpoint str_eqb (a b : str) : bool :=
  match a, b with
  | [], [] => true
  | x :: a', y :: b' => Ascii.eqb x y && str_eqb a' b'
  | _, _ => false
  end.

(** [a < b] on sequences: the first position where they differ decides,
    and a proper prefix is smaller. *)
Fixpoint lex_ltb {A : Type} (lt : A -> A -> bool) (a b : list A) : bool :=
  match a, b with
  | _, [] => false
  | [], _ :: _ => true
  | x :: a', y :: b' =>
      if lt x y then true
      else if lt y x then false
      else lex_ltb lt a' b'
  end.

Definition char_ltb (x y : ascii) : bool := code x <? code y.

(** [a < b] on strings: lexicographic on code points. *)
Definition str_ltb (a b : str) : bool := lex_ltb char_ltb a b.

(** [s.lstrip(chars)], [s.rstrip(chars)] and [s.strip(chars)] for a set of
    characters given as a predicate. *)
Fixpoint lstrip_by (p : ascii -> bool) (s : str) : str :=
  match s with
  | [] => []
  | c :: t => if p c then lstrip_by p t else s
  end.

Definition rstrip_by (p : ascii -> bool) (s : str) : str :=
  rev (lstrip_by p (rev s)).

Definition strip_by (p : ascii -> bool) (s : str) : str :=
  rstrip_by p (lstrip_by p s).

(** [s.strip()]. *)
Definition strip (s : str) : str := strip_by isspace s.

(** [s.split(sep)] for a one-character separator. *)
Fixpoint split_on (sep : ascii) (s : str) : list str :=
  match s with
  | [] => [[]]
  | c :: t =>
      if Ascii.eqb c sep then [] :: split_on sep t
      else match split_on sep t with
           | h :: r => (c :: h) :: r
           | [] => [[c]]
           end
  end.

(** [s.rfind(c)]: the index of the last occurrence. *)
Fixpoint rfind (c : ascii) (s : str) : option nat :=
  match s with
  | [] => None
  | x :: t =>
      match rfind c t with
      | Some i => Some (S i)
      | None => if Ascii.eqb x c then Some 0 else None
      end
  end.

(** [s.replace(a, b)] for single characters. *)
Definition replace_char (a b : ascii) (s : str) : str :=
  map (fun c => if Ascii.eqb c a then b else c) s.

(** [re.sub(r"X+", " ", s)] for a character class [X] and a one-character
    replacement: every maximal run of the class becomes one [r]. *)
Fixpoint collapse_run (p : ascii -> bool) (r : ascii) (in_run : bool) (s : str)
  : str :=
  match s with
  | [] => []
  | c :: t =>
      if p c
      then if in_run then collapse_run p r true t
           else r :: collapse_run p r true t
      else c :: collapse_run p r false t
  end.

End PyStr.

(* ===================================================================== *)
(** ** pathlib (POSIX flavour, as the scripts run on macOS) *)
(* ===================================================================== *)

Module PyPath.
Import PyStr.

(** The parts of [Path(s)] below the root: empty components and ["."] are
    dropped by the parser. *)
Definition path_parts (s : str) : list str :=
  filter (fun p => negb (str_eqb p [] || str_eqb p (py "."))) (split_on "/" s).

(** [Path(s).name]. *)
Definition path_name (s : str) : str := last (path_parts s) [].

(** [suffix] and [stem] of a final component: the last dot counts when it
    is neither the first nor the last character. *)
Definition has_suffix (name : str) : option nat :=
  match rfind "." name with
  | Some i => if (0 <? i) && (i <? List.length name - 1) then Some i else None
  | None => None
  end.

Definition name_suffix (name : str) : str :=
  match has_suffix name with
  | Some i => skipn i name
  | None => []
  end.

Definition name_stem (name : str) : str :=
  match has_suffix name with
  | Some i => firstn i name
  | None => name
  end.

(** [Path(s).stem] and [Path(s).suffix] of a string. *)
Definition path_stem (s : str) : str := name_stem (path_name s).
Definition path_suffix (s : str) : str := name_suffix (path_name s).

(** A [Path] object of the registry: the directory parts and the name. *)
Record Path := mkPath { parent : list str; name : str }.

Definition stem (p : Path) : str := name_stem (name p).
Definition suffix (p : Path) : str := name_suffix (name p).

Definition parts (p : Path) : list str := parent p ++ [name p].

Fixpoint parts_eqb (a b : list str) : bool :=
  match a, b with
  | [], [] => true
  | x :: a', y :: b' => str_eqb x y && parts_eqb a' b'
  | _, _ => false
  end.

(** [p == q]. *)
Definition Path_eqb (p q : Path) : bool :=
  parts_eqb (parent p) (parent q) && str_eqb (name p) (name q).

(** [p < q] compares the lists of parts. *)
Definition parts_ltb (a b : list str) : bool := lex_ltb str_ltb a b.

Definition Path_ltb (p q : Path) : bool := parts_ltb (parts p) (parts q).
Definition Path_leb (p q : Path) : bool := negb (Path_ltb q p).

(** The names [with_name] accepts. *)
Definition valid_name (n : str) : bool :=
  negb (str_eqb n []) && negb (existsb (Ascii.eqb "/") n)
  && negb (str_eqb n (py ".")).

(** [p.with_name(n)]: [ValueError] ([None]) on an invalid name. *)
Definition with_name (p : Path) (n : str) : option Path :=
  if valid_name (name p) && valid_name n then Some (mkPath (parent p) n)
  else None.

(** [sorted(l)]: a stable sort. *)
Fixpoint insert_sorted (p : Path) (l : list Path) : list Path :=
  match l with
  | [] => [p]
  | q :: t => if Path_ltb q p then q :: insert_sorted p t else p :: l
  end.

Definition sorted (l : list Path) : list Path :=
  fold_right insert_sorted [] l.

End PyPath.

(* ===================================================================== *)
(** ** scripts/4_Change_name.py *)
(* ===================================================================== *)

Module ChangeName.
Import PyStr PyPath.

Definition DEFAULT_MATCH_THRESHOLD : Z := 90%Z.

(** [a or b] on strings. *)
Definition or_str (a b : str) : str :=
  match a with
  | [] => b
  | _ :: _ => a
  end.

(** The class [[A-Za-z0-9_.-]]. *)
Definition slug_ok (c : ascii) : bool :=
  let n := code c in
  between 65 90 n || between 97 122 n || between 48 57 n
  || (n =? 95) || (n =? 46) || (n =? 45).

Definition is_underscore (c : ascii) : bool := Ascii.eqb c "_".
Definition is_dot_or_underscore (c : ascii) : bool :=
  Ascii.eqb c "." || Ascii.eqb c "_".

Definition slugify_filename (name : str) : str :=
  let value := strip name in
  let value := replace_char " " "_" value in
  let value := map (fun c => if slug_ok c then c else "_"%char) value in
  let value := collapse_run is_underscore "_" false value in
  strip_by is_dot_or_underscore value.

Definition ensure_target_filename (new_name : str) (source_path : Path) : str :=
  let candidate := strip new_name in
  match candidate with
  | [] =>
      let base := stem source_path in
      let ext := suffix source_path in
      let safe_base := or_str (slugify_filename base) (py "file") in
      safe_base ++ ext
  | _ :: _ =>
      let ext := or_str (path_suffix candidate) (suffix source_path) in
      let stem_ :=
        match path_suffix candidate with
        | [] => candidate
        | _ :: _ => path_stem candidate
        end in
      let safe_stem :=
        or_str (slugify_filename stem_)
               (or_str (slugify_filename (stem source_path)) (py "file")) in
      let ext :=
        match ext with
        | c :: _ => if Ascii.eqb c "." then ext else "."%char :: ext
        | [] => ext
        end in
      safe_stem ++ ext
  end.

(** *** Dicts of [str -> List[Path]], in insertion order *)

Definition Dict := list (str * list Path).

Fixpoint dget (m : Dict) (k : str) : option (list Path) :=
  match m with
  | [] => None
  | (k', v) :: r => if str_eqb k k' then Some v else dget r k
  end.

(** [m[k] = v]: an existing key keeps its place, a new key goes last. *)
Fixpoint dset (m : Dict) (k : str) (v : list Path) : Dict :=
  match m with
  | [] => [(k, v)]
  | (k', v') :: r =>
      if str_eqb k k' then (k', v) :: r else (k', v') :: dset r k v
  end.

(** [del m[k]]. *)
Fixpoint ddel (m : Dict) (k : str) : Dict :=
  match m with
  | [] => []
  | (k', v') :: r => if str_eqb k k' then r else (k', v') :: ddel r k
  end.

Definition keys (m : Dict) : list str := map fst m.

(** [l.remove(p)]: drops the first occurrence, [ValueError] ([None]) when
    there is none. *)
Fixpoint list_remove (p : Path) (l : list Path) : option (list Path) :=
  match l with
  | [] => None
  | x :: t =>
      if Path_eqb x p then Some t
      else match list_remove p t with
           | Some t' => Some (x :: t')
           | None => None
           end
  end.

(** [sorted(l)[0]]. *)
Definition first_sorted (l : list Path) : option Path := hd_error (sorted l).

(** *** FileRegistry *)

Record FileRegistry := mkReg { by_name : Dict; by_stem : Dict }.

Definition name_key (path : Path) : str := lower (name path).
Definition stem_key (path : Path) : str := lower (stem path).

(** [mapping.setdefault(key, []).append(path)]. *)
Definition setdefault_append (m : Dict) (key : str) (path : Path) : Dict :=
  match dget m key with
  | Some items => dset m key (items ++ [path])
  | None => dset m key [path]
  end.

Definition _register (reg : FileRegistry) (path : Path) : FileRegistry :=
  mkReg (setdefault_append (by_name reg) (name_key path) path)
        (setdefault_append (by_stem reg) (stem_key path) path).

Definition _remove_from_map (mapping : Dict) (key : str) (path : Path) : Dict :=
  match dget mapping key with
  | None | Some [] => mapping
  | Some items =>
      match list_remove path items with
      | None => mapping
      | Some [] => ddel mapping key
      | Some items' => dset mapping key items'
      end
  end.

Definition _unregister (reg : FileRegistry) (path : Path) : FileRegistry :=
  mkReg (_remove_from_map (by_name reg) (name_key path) path)
        (_remove_from_map (by_stem reg) (stem_key path) path).

(** [FileRegistry(root)]: [pool] is the list of files under the root in the
    order [rglob] yields them. *)
Definition init (pool : list Path) : FileRegistry :=
  fold_left _register pool (mkReg [] []).

Definition add (reg : FileRegistry) (path : Path) : FileRegistry :=
  _register reg path.

(** [key in d and d[key]], giving the list. *)
Definition nonempty_at (d : Dict) (key : str) : option (list Path) :=
  match dget d key with
  | Some (p :: l) => Some (p :: l)
  | _ => None
  end.

(** Unregister and return the first path, in sorted order, of a list. *)
Definition take_first (reg : FileRegistry) (l : list Path)
  : option Path * FileRegistry :=
  match first_sorted l with
  | Some path => (Some path, _unregister reg path)
  | None => (None, reg)
  end.

Section Fuzzy.

(** [rapidfuzz.fuzz.token_set_ratio]. *)
Variable token_set_ratio : str -> str -> Q.

(** [process.extractOne(query, choices, scorer=...)] without a cutoff: the
    first choice with the highest score, provided the score is not below
    the worst score 0. *)
Fixpoint extractOne_from (query : str) (choices : list str)
  (best : option (str * Q)) : option (str * Q) :=
  match choices with
  | [] => best
  | c :: cs =>
      let score := token_set_ratio query c in
      let best' :=
        match best with
        | None => if Qle_bool 0 score then Some (c, score) else None
        | Some (_, b) =>
            if Qle_bool score b then best else Some (c, score)
        end in
      extractOne_from query cs best'
  end.

Definition extractOne (query : str) (choices : list str) : option (str * Q) :=
  extractOne_from query choices None.

(** [match and match[1] >= min_score and d.get(match[0])]. *)
Definition fuzzy_hit (d : Dict) (m : option (str * Q)) (min_score : Z)
  : option (list Path) :=
  match m with
  | Some (k, score) =>
      if Qle_bool (inject_Z min_score) score then nonempty_at d k else None
  | None => None
  end.

Definition _take_fuzzy (reg : FileRegistry) (candidate : str) (min_score : Z)
  : option Path * FileRegistry :=
  match by_name reg with
  | [] => (None, reg)
  | _ :: _ =>
      let names := keys (by_name reg) in
      match fuzzy_hit (by_name reg) (extractOne candidate names) min_score with
      | Some l => take_first reg l
      | None =>
          let stems := keys (by_stem reg) in
          match fuzzy_hit (by_stem reg)
                  (extractOne (path_stem candidate) stems) min_score with
          | Some l => take_first reg l
          | None => (None, reg)
          end
      end
  end.

Definition take (reg : FileRegistry) (lookup_name : str) (min_score : Z)
  : option Path * FileRegistry :=
  let candidate := strip (path_name lookup_name) in
  match candidate with
  | [] => (None, reg)
  | _ :: _ =>
      let key := lower candidate in
      match nonempty_at (by_name reg) key with
      | Some l => take_first reg l
      | None =>
          let stem_key := lower (path_stem candidate) in
          match nonempty_at (by_stem reg) stem_key with
          | Some l => take_first reg l
          | None => _take_fuzzy reg (lower candidate) min_score
          end
      end
  end.

End Fuzzy.

(** *** get_rows *)

Definition Row := (nat * str * str)%type.

Definition is_header (row : list str) : bool :=
  match row with
  | c :: _ => str_eqb (lower (strip c)) (py "cell")
  | [] => false
  end.

Definition cell_or_empty (row : list str) (i : nat) : str :=
  match nth_error row i with
  | Some c => strip c
  | None => []
  end.

(** The loop of [get_rows] over [enumerate(values, start=idx)]. *)
Fixpoint get_rows_from (idx : nat) (values : list (list str)) : list Row :=
  match values with
  | [] => []
  | row :: rest =>
      if (idx =? 1) && is_header row then get_rows_from (S idx) rest
      else
        let new_name := cell_or_empty row 0 in
        let match_title := cell_or_empty row 2 in
        match match_title with
        | [] => get_rows_from (S idx) rest
        | _ :: _ => (idx, new_name, match_title) :: get_rows_from (S idx) rest
        end
  end.

Definition get_rows (values : list (list str)) : list Row :=
  get_rows_from 1 values.

(** *** The row loop of [main] *)

(** What the loop does with one row: the branch taken, with the candidate
    and the target path. *)
Inductive Outcome :=
| Renamed (source target : Path)
| Unchanged (source : Path)
| NotFound
| Conflict (source target : Path)
| Error (source target : Path).

(** The lines appended to [errors]. *)
Inductive ErrLine :=
| ErrMissing (row_idx : nat) (label : str)
| ErrConflict (row_idx : nat) (target_name : str)
| ErrRename (row_idx : nat) (source_name target_name : str).

(** The state the loop threads: the registry, the directory tree (the
    paths that exist), the counters and the log. *)
Record State := mkState {
  registry : FileRegistry;
  fs : list Path;
  renamed : nat;
  skipped_same : nat;
  not_found : nat;
  conflicts : nat;
  errors : list ErrLine
}.

(** The paths of the directory tree: whether [p] is one of them. *)
Definition in_tree (tree : list Path) (p : Path) : bool :=
  existsb (Path_eqb p) tree.

Section Main.

Variable token_set_ratio : str -> str -> Q.

(** The failures of the operating system on [rename] (permissions, a busy
    file, ...), beyond a missing source. *)
Variable rename_fails : list Path -> Path -> Path -> bool.

(** The errors of [stat] that [Path.exists] does not swallow (a name too
    long for the file system, a refused access, ...): it answers [False]
    only for a path that is not there. *)
Variable exists_fails : list Path -> Path -> bool.

(** [p.exists()]: [None] when it raises [OSError]. *)
Definition exists_ (tree : list Path) (p : Path) : option bool :=
  if exists_fails tree p then None else Some (in_tree tree p).

(** [source.rename(target)]: [None] when it raises. *)
Definition rename (tree : list Path) (source target : Path)
  : option (list Path) :=
  if rename_fails tree source target || negb (in_tree tree source) then None
  else Some (target ::
             filter (fun q => negb (Path_eqb q source || Path_eqb q target))
                    tree).

(** The body of [for row_idx, new_name, match_title in rows].  [None] is an
    exception that leaves the loop and ends [main]: [with_name] on an
    invalid name, or [exists], which is called outside the [try]; the
    exception of [rename] is caught inside. *)
Definition process_row (match_threshold : Z) (st : State) (row : Row)
  : option (State * Outcome) :=
  let '(row_idx, new_name, match_title) := row in
  match take token_set_ratio (registry st) match_title match_threshold with
  | (None, reg) =>
      let label := or_str match_title (py "<unknown>") in
      Some (mkState reg (fs st) (renamed st) (skipped_same st)
              (S (not_found st)) (conflicts st)
              (errors st ++ [ErrMissing row_idx label]),
            NotFound)
  | (Some source, reg) =>
      let base_title := or_str new_name (stem source) in
      let target_name := ensure_target_filename base_title source in
      match with_name source target_name with
      | None => None
      | Some target_path =>
          if Path_eqb target_path source then
            Some (mkState (add reg source) (fs st) (renamed st)
                    (S (skipped_same st)) (not_found st) (conflicts st)
                    (errors st),
                  Unchanged source)
          else
            match exists_ (fs st) target_path with
            | None => None
            | Some true =>
                Some (mkState (add reg source) (fs st) (renamed st)
                        (skipped_same st) (not_found st) (S (conflicts st))
                        (errors st ++
                         [ErrConflict row_idx (name target_path)]),
                      Conflict source target_path)
            | Some false =>
                match rename (fs st) source target_path with
                | Some tree' =>
                    Some (mkState (add reg target_path) tree' (S (renamed st))
                            (skipped_same st) (not_found st) (conflicts st)
                            (errors st),
                          Renamed source target_path)
                | None =>
                    Some (mkState (add reg source) (fs st) (renamed st)
                            (skipped_same st) (not_found st) (conflicts st)
                            (errors st ++
                             [ErrRename row_idx (name source) target_name]),
                          Error source target_path)
                end
            end
      end
  end.

(** The whole loop: the final state and the outcome of every row. *)
Fixpoint run_rows (match_threshold : Z) (st : State) (rows : list Row)
  : option (State * list Outcome) :=
  match rows with
  | [] => Some (st, [])
  | row :: rest =>
      match process_row match_threshold st row with
      | None => None
      | Some (st', o) =>
          match run_rows match_threshold st' rest with
          | None => None
          | Some (st'', os) => Some (st'', o :: os)
          end
      end
  end.

(** The state [main] enters the loop with. *)
Definition initial_state (pool tree : list Path) : State :=
  mkState (init pool) tree 0 0 0 0 [].

End Main.

(** *** Sequences of registry operations *)

Inductive Op :=
| Take (lookup_name : str) (min_score : Z)
| Add (path : Path).

(** Runs the operations in order; the results of the [take] calls are
    collected in call order. *)
Fixpoint run_ops (token_set_ratio : str -> str -> Q) (reg : FileRegistry)
  (ops : list Op) : FileRegistry * list (option Path) :=
  match ops with
  | [] => (reg, [])
  | Take lookup_name min_score :: rest =>
      let '(r, reg') := take token_set_ratio reg lookup_name min_score in
      let '(reg'', rs) := run_ops token_set_ratio reg' rest in
      (reg'', r :: rs)
  | Add path :: rest => run_ops token_set_ratio (add reg path) rest
  end.

(** The candidates a dict holds, and how many the registry holds. *)
Definition candidates (d : Dict) : list Path := flat_map snd d.
Definition size (reg : FileRegistry) : nat := List.length (candidates (by_name reg)).

Definition successes (rs : list (option Path)) : list Path :=
  flat_map (fun r => match r with Some p => [p] | None => [] end) rs.

Definition adds (ops : list Op) : list Path :=
  flat_map (fun o => match o with Add p => [p] | Take _ _ => [] end) ops.

(** *** Invariants of the registry *)

(** Every key is there once, no list is empty, and a path sits under the
    key computed from it. *)
Definition keyed (f : Path -> str) (d : Dict) : Prop :=
  NoDup (keys d) /\
  forall k l, In (k, l) d -> l <> [] /\ forall p, In p l -> f p = k.

(** The two indices are keyed and hold the same candidates. *)
Definition wf (reg : FileRegistry) : Prop :=
  keyed name_key (by_name reg) /\
  keyed stem_key (by_stem reg) /\
  Permutation (candidates (by_name reg)) (candidates (by_stem reg)).

(** Every candidate has a name a file can have. *)
Definition names_valid (reg : FileRegistry) : Prop :=
  forall p,
    In p (candidates (by_name reg)) \/ In p (candidates (by_stem reg)) ->
    valid_name (name p) = true.

(** Two dicts with the same keys and, under each key, the same paths up
    to their order. *)
Definition same_entries (d d' : Dict) : Prop :=
  forall k,
    match dget d k, dget d' k with
    | Some l, Some l' => Permutation l l'
    | None, None => True
    | _, _ => False
    end.

Definition same_candidates (reg reg' : FileRegistry) : Prop :=
  same_entries (by_name reg) (by_name reg') /\
  same_entries (by_stem reg) (by_stem reg').

(** The result of a tier: nothing and the registry untouched, or the
    sorted-first path of a list of one of the indices, unregistered. *)
Definition tier_result (reg : FileRegistry)
  (res : option Path * FileRegistry) : Prop :=
  res = (None, reg) \/
  exists p k l,
    res = (Some p, _unregister reg p) /\ first_sorted l = Some p /\
    (dget (by_name reg) k = Some l \/ dget (by_stem reg) k = Some l).


(** The path a row wants for its candidate: [source.with_name(target_name)]
    of the loop, when the name is valid. *)
Definition target_of (new_name : str) (source : Path) : Path :=
  mkPath (parent source)
         (ensure_target_filename (or_str new_name (stem source)) source).

(** A non-empty slug that does not start with a dot. *)
Definition good_slug (s : str) : Prop :=
  s <> [] /\ (forall c, In c s -> slug_ok c = true) /\
  (forall c t, s = c :: t -> c <> "."%char).

(** No separator in a name. *)
Definition no_slash (s : str) : Prop := existsb (Ascii.eqb "/") s = false.

(** The candidates the rows of a pass received from their [take] calls. *)
Definition received (os : list Outcome) : list Path :=
  flat_map (fun o => match o with
                     | Renamed s _ | Unchanged s | Conflict s _ | Error s _ => [s]
                     | NotFound => []
                     end) os.

End ChangeName.

(* ===================================================================== *)
(** ** scripts/1.3_xml_placeholders.py *)
(* ===================================================================== *)

Module XmlPlaceholders.
Import PyStr.

(** *** Text *)

(** [s] without the prefix [pre], when it starts with it. *)
Fixpoint strip_prefix (pre s : str) : option str :=
  match pre, s with
  | [], _ => Some s
  | a :: pre', b :: s' => if Ascii.eqb a b then strip_prefix pre' s' else None
  | _ :: _, [] => None
  end.

Definition nonspace (c : ascii) : bool := negb (isspace c).

(** A match of [https?://[^\s]+] at the start of [s]: what follows it. *)
Definition url_at (s : str) : option str :=
  match strip_prefix (py "http") s with
  | None => None
  | Some r =>
      let r' := match r with
                | c :: t => if Ascii.eqb c "s" then t else r
                | [] => r
                end in
      match strip_prefix (py "://") r' with
      | Some (c :: t) => if isspace c then None else Some (lstrip_by nonspace t)
      | _ => None
      end
  end.

(** [re.sub(url_pattern, "", s)], scanning from the left; [fuel] bounds the
    number of positions. *)
Fixpoint sub_urls (fuel : nat) (s : str) : str :=
  match fuel with
  | 0 => s
  | S fuel' =>
      match s with
      | [] => []
      | c :: t =>
          match url_at s with
          | Some rest => sub_urls fuel' rest
          | None => c :: sub_urls fuel' t
          end
      end
  end.

(** [s.split()]: the maximal runs without whitespace. *)
Fixpoint words_from (cur : str) (s : str) : list str :=
  match s with
  | [] => match cur with [] => [] | _ :: _ => [rev cur] end
  | c :: t =>
      if isspace c
      then match cur with
           | [] => words_from [] t
           | _ :: _ => rev cur :: words_from [] t
           end
      else words_from (c :: cur) t
  end.

Definition split_ws (s : str) : list str := words_from [] s.

(** [sep.join(l)]. *)
Definition join (sep : str) (l : list str) : str :=
  match l with
  | [] => []
  | w :: r => w ++ flat_map (fun x => sep ++ x) r
  end.

Definition remove_links_from_text (text : str) : str :=
  match text with
  | [] => text
  | _ :: _ =>
      let text_without_links := sub_urls (List.length text) text in
      join (py " ") (split_ws text_without_links)
  end.

Definition punct_to_space (s : str) : str :=
  map (fun c => if ispunct c then " "%char else c) s.

Definition clean_text (s : str) : str :=
  let s := lower s in
  let s := punct_to_space s in
  strip (collapse_run isspace " " false s).

(** The normalizer as the specification words it: lowercase, remove the
    embedded URLs, replace punctuation by spaces, collapse whitespace,
    trim. *)
Definition normalize_spec (s : str) : str :=
  let s := lower s in
  let s := sub_urls (List.length s) s in
  let s := punct_to_space s in
  strip (collapse_run isspace " " false s).

(** An occurrence of the URL pattern somewhere in [s]. *)
Fixpoint has_url (s : str) : bool :=
  match s with
  | [] => false
  | _ :: t => match url_at s with Some _ => true | None => has_url t end
  end.

(** Two whitespace characters in a row. *)
Fixpoint has_double_space (s : str) : bool :=
  match s with
  | a :: ((b :: _) as t) => isspace a && isspace b || has_double_space t
  | _ => false
  end.

(** Every whitespace character is a space, and none follows another;
    [prev] tells whether the character before was one. *)
Fixpoint tidy (prev : bool) (s : str) : bool :=
  match s with
  | [] => true
  | c :: t =>
      if isspace c then Ascii.eqb c " " && negb prev && tidy true t
      else tidy false t
  end.

(** *** Timestamps *)

Definition digit_val (c : ascii) : nat := code c - 48.

(** [int(ds)] for a string of digits. *)
Definition int_of_digits (ds : str) : nat :=
  fold_left (fun a c => 10 * a + digit_val c) ds 0.

(** [\d{0,max}], greedy. *)
Fixpoint take_digits (max : nat) (s : str) : str * str :=
  match max with
  | 0 => ([], s)
  | S m =>
      match s with
      | c :: t =>
          if isdigit c
          then let '(d, r) := take_digits m t in (c :: d, r)
          else ([], s)
      | [] => ([], [])
      end
  end.

Definition expect (c : ascii) (s : str) : option str :=
  match s with
  | x :: t => if Ascii.eqb x c then Some t else None
  | [] => None
  end.

(** [\d{lo,hi}] with [lo = hi = 2] or [lo = 1, hi = 2]. *)
Definition digits_between (lo hi : nat) (s : str) : option (str * str) :=
  let '(d, r) := take_digits hi s in
  if lo <=? List.length d then Some (d, r) else None.

(** [(\d{1,2}:\d{2})]: the two numbers and the rest. *)
Definition group_mmss (s : str) : option (nat * nat * str) :=
  match digits_between 1 2 s with
  | None => None
  | Some (mm, s) =>
      match expect ":" s with
      | None => None
      | Some s =>
          match digits_between 2 2 s with
          | None => None
          | Some (ss, s) => Some (int_of_digits mm, int_of_digits ss, s)
          end
      end
  end.

(** [(\d{1,2}:\d{2}:\d{2})]. *)
Definition group_hhmmss (s : str) : option (nat * nat * nat * str) :=
  match digits_between 1 2 s with
  | None => None
  | Some (hh, s) =>
      match expect ":" s with
      | None => None
      | Some s =>
          match digits_between 2 2 s with
          | None => None
          | Some (mm, s) =>
              match expect ":" s with
              | None => None
              | Some s =>
                  match digits_between 2 2 s with
                  | None => None
                  | Some (ss, s) =>
                      Some (int_of_digits hh, int_of_digits mm,
                            int_of_digits ss, s)
                  end
              end
          end
      end
  end.

(** [(?:\.(\d{1,3}))?]: the digits when the group matches. *)
Definition group_ms (s : str) : option str * str :=
  match s with
  | c :: t =>
      if Ascii.eqb c "."
      then let '(d, r) := take_digits 3 t in
           match d with
           | [] => (None, s)
           | _ :: _ => (Some d, r)
           end
      else (None, s)
  | [] => (None, s)
  end.

(** [float(f"0.{ms}")]. *)
Definition frac_of (ms : option str) : Q :=
  match ms with
  | Some d => Z.of_nat (int_of_digits d) # Pos.of_nat (10 ^ List.length d)
  | None => 0%Q
  end.

Definition skip_ws (s : str) : str := lstrip_by isspace s.

(** The seconds of [h:mm:ss] plus the fraction. *)
Definition to_sec (h mm ss : nat) (ms : option str) : Q :=
  inject_Z (Z.of_nat (h * 3600 + mm * 60 + ss)) + frac_of ms.

(** The first pattern, [MM:SS(.mmm) - MM:SS(.mmm)]. *)
Definition match_mmss (ts : str) : option (Q * Q) :=
  match group_mmss (skip_ws ts) with
  | None => None
  | Some (am, as_, s) =>
      let '(a_ms, s) := group_ms s in
      match expect "-" (skip_ws s) with
      | None => None
      | Some s =>
          match group_mmss (skip_ws s) with
          | None => None
          | Some (bm, bs, s) =>
              let '(b_ms, s) := group_ms s in
              match skip_ws s with
              | [] => Some (to_sec 0 am as_ a_ms, to_sec 0 bm bs b_ms)
              | _ :: _ => None
              end
          end
      end
  end.

(** The second pattern, [HH:MM:SS(.mmm) - HH:MM:SS(.mmm)]. *)
Definition match_hhmmss (ts : str) : option (Q * Q) :=
  match group_hhmmss (skip_ws ts) with
  | None => None
  | Some (ah, am, as_, s) =>
      let '(a_ms, s) := group_ms s in
      match expect "-" (skip_ws s) with
      | None => None
      | Some s =>
          match group_hhmmss (skip_ws s) with
          | None => None
          | Some (bh, bm, bs, s) =>
              let '(b_ms, s) := group_ms s in
              match skip_ws s with
              | [] => Some (to_sec ah am as_ a_ms, to_sec bh bm bs b_ms)
              | _ :: _ => None
              end
          end
      end
  end.

(** [parse_timestamp_str] on a non-empty string: [None] is the pair
    [(None, None)]. *)
Definition parse_timestamp_text (ts : str) : option (Q * Q) :=
  match match_mmss ts with
  | Some r => Some r
  | None => match_hhmmss ts
  end.

(** *** JSON values and exceptions *)

(** What a [float] holds: a finite number, an infinity or NaN. *)
Inductive pyfloat :=
| Fin (q : Q)
| Inf (negative : bool)
| NaN.

Definition is_nan (f : pyfloat) : bool :=
  match f with
  | NaN => true
  | _ => false
  end.

(** [a < b] and [a <= b] on floats: false as soon as one is NaN. *)
Definition flt (a b : pyfloat) : bool :=
  match a, b with
  | NaN, _ | _, NaN => false
  | Fin x, Fin y => negb (Qle_bool y x)
  | Inf true, Inf true => false
  | Inf true, _ => true
  | _, Inf true => false
  | Inf false, _ => false
  | Fin _, Inf false => true
  end.

Definition fle (a b : pyfloat) : bool :=
  match a, b with
  | NaN, _ | _, NaN => false
  | Fin x, Fin y => Qle_bool x y
  | Inf true, _ => true
  | _, Inf false => true
  | _, _ => false
  end.

(** What [json.loads] returns.  A number is an [int] of any size or a
    [float], which can be NaN or an infinity: [json.loads] reads the
    literals [NaN], [Infinity] and [-Infinity].  [JObj] lists the items of
    the dict, one per key. *)

#[warnings="-register-all"]
Inductive json :=
| JNull
| JBool (b : bool)
| JInt (z : Z)
| JFloat (f : pyfloat)
| JStr (s : str)
| JArr (items : list json)
| JObj (fields : list (str * json)).

Inductive exn := TypeError | ValueError | IndexError | OverflowError.

Inductive result (A : Type) :=
| Ok (a : A)
| Raise (e : exn).
Arguments Ok {A} a.
Arguments Raise {A} e.

Definition bind {A B : Type} (r : result A) (k : A -> result B) : result B :=
  match r with
  | Ok a => k a
  | Raise e => Raise e
  end.

(** [bool(v)]. *)
Definition truthy (v : json) : bool :=
  match v with
  | JNull => false
  | JBool b => b
  | JInt z => negb (z =? 0)%Z
  | JFloat f => match f with
                | Fin q => negb (Qeq_bool q 0)
                | _ => true
                end
  | JStr s => match s with [] => false | _ :: _ => true end
  | JArr l => match l with [] => false | _ :: _ => true end
  | JObj l => match l with [] => false | _ :: _ => true end
  end.

Definition is_none (v : json) : bool :=
  match v with
  | JNull => true
  | _ => false
  end.

(** [it.get(k)]: [None] when the key is absent. *)
Fixpoint obj_get (fields : list (str * json)) (k : str) : json :=
  match fields with
  | [] => JNull
  | (k', v) :: r => if str_eqb k k' then v else obj_get r k
  end.

(** [parse_timestamp_str(ts)] on what [it.get("timestamp")] gives:
    [re.match] raises [TypeError] on a value that is not a string. *)
Definition parse_timestamp_str (ts : json) : result (option (Q * Q)) :=
  if negb (truthy ts) then Ok None
  else match ts with
       | JStr s => Ok (parse_timestamp_text s)
       | _ => Raise TypeError
       end.

Record Segment := mkSeg { text : str; start : pyfloat; end_ : pyfloat }.

(** The stable ascending order by start, built with [<] alone as
    [list.sort] does: an element goes behind those before it that are
    smaller, and stays before the others. *)
Fixpoint insert_by_start (x : Segment) (l : list Segment) : list Segment :=
  match l with
  | [] => [x]
  | y :: t =>
      if flt (start y) (start x) then y :: insert_by_start x t
      else x :: l
  end.

Definition stable_by_start (l : list Segment) : list Segment :=
  fold_right insert_by_start [] l.

Definition has_nan_start (l : list Segment) : bool :=
  existsb (fun seg => is_nan (start seg)) l.

Section Load.

(** [str(v)] of a value that is not a string, [float(s)] of a string
    ([None] is [ValueError]; the result can be NaN or an infinity) and
    [float(n)] of an [int] ([None] is [OverflowError], otherwise the float
    next to [n]): all three are the interpreter's. *)
Variable str_of : json -> str.
Variable float_of_str : str -> option pyfloat.
Variable float_of_int : Z -> option Q.

(** The order [list.sort] leaves when a key is NaN: [<] is then no order on
    the keys and the result is what the interpreter's algorithm makes of
    it. *)
Variable sort_with_nan : list Segment -> list Segment.

(** [out.sort(key=lambda x: x["start"])]: stable, and ascending where [<]
    orders the keys. *)
Definition sort_by_start (l : list Segment) : list Segment :=
  if has_nan_start l then sort_with_nan l else stable_by_start l.

(** [float(v)]. *)
Definition py_float (v : json) : result pyfloat :=
  match v with
  | JFloat f => Ok f
  | JInt z => match float_of_int z with
              | Some q => Ok (Fin q)
              | None => Raise OverflowError
              end
  | JBool b => Ok (Fin (if b then 1%Q else 0%Q))
  | JStr s => match float_of_str s with
              | Some f => Ok f
              | None => Raise ValueError
              end
  | _ => Raise TypeError
  end.

(** [str(it.get("text", "") or "")]. *)
Definition text_of (v : json) : str :=
  if truthy v
  then match v with JStr s => s | _ => str_of v end
  else [].

(** One turn of the loop of [load_transcript_json]: the segment appended,
    if any. *)
Definition load_item (it : json) : result (option Segment) :=
  match it with
  | JObj fields =>
      let text := text_of (obj_get fields (py "text")) in
      let start := obj_get fields (py "start") in
      let end_ := obj_get fields (py "end") in
      let ts := obj_get fields (py "timestamp") in
      bind (if truthy ts && (is_none start || is_none end_)
            then bind (parse_timestamp_str ts) (fun r =>
                   match r with
                   | Some (s, e) => Ok (JFloat (Fin s), JFloat (Fin e))
                   | None => Ok (JNull, JNull)
                   end)
            else Ok (start, end_))
           (fun se =>
              let '(start, end_) := se in
              if is_none start || is_none end_ then Ok None
              else bind (py_float start) (fun s =>
                   bind (py_float end_) (fun e =>
                   Ok (Some (mkSeg text s e)))))
  | _ => Ok None
  end.

Fixpoint load_items (items : list json) (out : list Segment)
  : result (list Segment) :=
  match items with
  | [] => Ok out
  | it :: rest =>
      match load_item it with
      | Raise e => Raise e
      | Ok None => load_items rest out
      | Ok (Some seg) => load_items rest (out ++ [seg])
      end
  end.

(** [for it in data]. *)
Definition iterate (data : json) : result (list json) :=
  match data with
  | JArr l => Ok l
  | JObj fields => Ok (map (fun kv => JStr (fst kv)) fields)
  | JStr s => Ok (map (fun c => JStr [c]) s)
  | _ => Raise TypeError
  end.

(** [load_transcript_json] on the value [json.loads] returned. *)
Definition load_transcript_json (data : json) : result (list Segment) :=
  bind (iterate data) (fun items =>
  bind (load_items items []) (fun out =>
  Ok (sort_by_start out))).

End Load.

(** An element with no resolvable start or end: a value that is not an
    object, or an object without one of [start] and [end] whose timestamp
    is absent, empty, or a string that neither pattern matches. *)
Definition is_object (it : json) : bool :=
  match it with
  | JObj _ => true
  | _ => false
  end.

Definition unresolvable (it : json) : Prop :=
  is_object it = false \/
  exists fields,
    it = JObj fields /\
    (is_none (obj_get fields (py "start"))
     || is_none (obj_get fields (py "end")) = true) /\
    (truthy (obj_get fields (py "timestamp")) = false \/
     exists s, obj_get fields (py "timestamp") = JStr s /\
               parse_timestamp_text s = None).

(** The segments of the elements that resolve, in the order of the
    elements. *)
Definition kept (load_item : json -> result (option Segment))
  (items : list json) : list Segment :=
  flat_map (fun it => match load_item it with
                      | Ok (Some seg) => [seg]
                      | _ => []
                      end) items.

(** [a["start"] <= b["start"]]. *)
Definition by_start (a b : Segment) : Prop := fle (start a) (start b) = true.

(** The elements of the documented shape: the timestamp is absent or a
    string, [start] and [end] are absent or finite numbers that [float]
    takes (an [int] can be too large for it). *)
Definition str_or_none (v : json) : bool :=
  match v with
  | JNull | JStr _ => true
  | _ => false
  end.

Definition num_or_none (float_of_int : Z -> option Q) (v : json) : bool :=
  match v with
  | JNull | JFloat (Fin _) => true
  | JInt z => match float_of_int z with
              | Some _ => true
              | None => false
              end
  | _ => false
  end.

Definition documented (float_of_int : Z -> option Q) (it : json) : bool :=
  match it with
  | JObj fields =>
      str_or_none (obj_get fields (py "timestamp"))
      && num_or_none float_of_int (obj_get fields (py "start"))
      && num_or_none float_of_int (obj_get fields (py "end"))
  | _ => true
  end.

(** The elements on which the loop raises: an object without [start] or
    [end] whose timestamp is truthy and no string ([re.match] raises
    [TypeError]), or an object with both of which [float] rejects one. *)
Definition is_str (v : json) : bool :=
  match v with
  | JStr _ => true
  | _ => false
  end.

Definition is_raise {A : Type} (r : result A) : bool :=
  match r with
  | Raise _ => true
  | Ok _ => false
  end.

Definition raising (float_of_str : str -> option pyfloat)
  (float_of_int : Z -> option Q) (it : json) : bool :=
  match it with
  | JObj fields =>
      let start := obj_get fields (py "start") in
      let end_ := obj_get fields (py "end") in
      let ts := obj_get fields (py "timestamp") in
      if is_none start || is_none end_
      then truthy ts && negb (is_str ts)
      else is_raise (py_float float_of_str float_of_int start)
           || is_raise (py_float float_of_str float_of_int end_)
  | _ => false
  end.

(** *** best_match and the alignment loop of [main] *)

(** [int(x)]: truncation toward zero. *)
Definition py_int (x : Q) : Z := Z.quot (Qnum x) (Zpos (Qden x)).

Definition Qlt_bool (a b : Q) : bool := negb (Qle_bool b a).

Record SheetRow := mkRow {
  row_number : nat;
  col_a : str;
  col_b : str;
  col_c : str;
  col_d : str
}.

(** One entry of [aligns] (its [path] is the placeholder of the row). *)
Record Align := mkAlign {
  a_row_number : nat;
  a_text : str;
  a_start : pyfloat;
  a_end : pyfloat;
  a_score : Z
}.

(** The lines appended to [warns]. *)
Inductive Warn :=
| NoMatch (row : nat) (phrase : str)
| LowScore (row : nat) (score : Z) (phrase : str).

(** [col_map.get(col_letter, "col_a")] followed by [r.get(key, "") or ""]. *)
Definition phrase_of (col_letter : str) (r : SheetRow) : str :=
  if str_eqb col_letter (py "B") || str_eqb col_letter (py "2") then col_b r
  else if str_eqb col_letter (py "C") || str_eqb col_letter (py "3")
       then col_c r
       else col_a r.

(** What a row adds to [aligns], and to [warns] on a low score. *)
Definition placement (col_letter : str) (r : SheetRow) (seg : Segment)
  (score : Z) : Align :=
  mkAlign (row_number r) (phrase_of col_letter r) (start seg) (end_ seg) score.

Definition low_score (col_letter : str) (threshold : Z) (r : SheetRow)
  (score : Z) : list Warn :=
  if (score <? threshold)%Z
  then [LowScore (row_number r) score (firstn 100 (phrase_of col_letter r))]
  else [].

Section Align.

(** [rapidfuzz.fuzz.partial_ratio]. *)
Variable partial_ratio : str -> str -> Q.

(** The loop of [best_match] from index [i]. *)
Fixpoint best_match_from (q : str) (segments : list Segment) (i : nat)
  (best_i : option nat) (best_s : Q) : option nat * Q :=
  match segments with
  | [] => (best_i, best_s)
  | seg :: rest =>
      let s_text := clean_text (text seg) in
      let score := partial_ratio q s_text in
      if Qlt_bool best_s score
      then best_match_from q rest (S i) (Some i) score
      else best_match_from q rest (S i) best_i best_s
  end.

Definition best_match (phrase : str) (segments : list Segment)
  : option nat * Z :=
  let q := clean_text phrase in
  match q with
  | [] => (None, 0%Z)
  | _ :: _ =>
      let '(best_i, best_s) :=
        best_match_from q segments 0 None (inject_Z (-1)) in
      (best_i, py_int best_s)
  end.

(** The score of a segment for a normalized phrase. *)
Definition score_of (q : str) (seg : Segment) : Q :=
  partial_ratio q (clean_text (text seg)).

(** The body of [for r in rows]: [aligns] and [warns] after the row. *)
Definition align_row (col_letter : str) (threshold : Z)
  (segments : list Segment) (acc : list Align * list Warn) (r : SheetRow)
  : result (list Align * list Warn) :=
  let '(aligns, warns) := acc in
  let phrase := phrase_of col_letter r in
  let '(idx, score) := best_match phrase segments in
  match idx with
  | None => Ok (aligns, warns ++ [NoMatch (row_number r) (firstn 100 phrase)])
  | Some i =>
      let warns :=
        if (score <? threshold)%Z
        then warns ++ [LowScore (row_number r) score (firstn 100 phrase)]
        else warns in
      match nth_error segments i with
      | None => Raise IndexError
      | Some seg =>
          Ok (aligns ++ [mkAlign (row_number r) phrase (start seg) (end_ seg)
                           score],
              warns)
      end
  end.

Fixpoint align_rows (col_letter : str) (threshold : Z)
  (segments : list Segment) (acc : list Align * list Warn)
  (rows : list SheetRow) : result (list Align * list Warn) :=
  match rows with
  | [] => Ok acc
  | r :: rest =>
      bind (align_row col_letter threshold segments acc r) (fun acc' =>
      align_rows col_letter threshold segments acc' rest)
  end.

(** Steps 2 and 3 of [main]: [None] is the early return on an empty
    transcript. *)
Definition align_flow (col_letter : str) (threshold : Z)
  (segments : list Segment) (rows : list SheetRow)
  : option (result (list Align * list Warn)) :=
  match segments with
  | [] => None
  | _ :: _ => Some (align_rows col_letter threshold segments ([], []) rows)
  end.

End Align.

End XmlPlaceholders.

(* ===================================================================== *)
(** ** scripts/4_Change_name.py: the rest of the script *)
(* ===================================================================== *)

Module ChangeNameMore.
Import PyStr PyPath ChangeName XmlPlaceholders.

(** *** parse_spreadsheet_id *)

(** The class [[a-zA-Z0-9-_]]. *)
Definition id_char (c : ascii) : bool :=
  let n := code c in
  between 97 122 n || between 65 90 n || between 48 57 n
  || (n =? 45) || (n =? 95).

Fixpoint take_while (p : ascii -> bool) (s : str) : str :=
  match s with
  | [] => []
  | c :: t => if p c then c :: take_while p t else []
  end.

Definition id_marker : str := py "/spreadsheets/d/".

(** [re.search(r"/spreadsheets/d/([a-zA-Z0-9-_]+)", s)]: the group of the
    leftmost match. *)
Fixpoint search_id (s : str) : option str :=
  match s with
  | [] => None
  | _ :: t =>
      match strip_prefix id_marker s with
      | Some r =>
          match take_while id_char r with
          | [] => search_id t
          | c :: g => Some (c :: g)
          end
      | None => search_id t
      end
  end.

(** [re.fullmatch(r"[a-zA-Z0-9-_]{20,}", s)]. *)
Definition is_bare_id (s : str) : bool :=
  forallb id_char s && (20 <=? List.length s).

(** [None] is the exit through [die]. *)
Definition parse_spreadsheet_id (value : str) : option str :=
  let value := strip value in
  match search_id value with
  | Some g => Some g
  | None => if is_bare_id value then Some value else None
  end.

(** *** The threshold read by [main] *)

(** The characters of the model that [str.isdigit] accepts and [int]
    rejects: the superscripts 1, 2 and 3. *)
Definition is_superscript (c : ascii) : bool :=
  let n := code c in (n =? 178) || (n =? 179) || (n =? 185).

(** [s.isdigit()]. *)
Definition str_isdigit (s : str) : bool :=
  match s with
  | [] => false
  | _ :: _ => forallb (fun c => isdigit c || is_superscript c) s
  end.

(** [int(s)] on a string [isdigit] accepts: [ValueError] unless every
    character is a decimal digit, and also when there are more digits than
    the interpreter converts.  [max_str_digits] is
    [sys.get_int_max_str_digits()]: 4300 unless it was changed, 0 for no
    limit (as before Python 3.11); the interpreter looks at it only for
    more than 640 digits. *)
Definition int_of_str (max_str_digits : nat) (s : str) : result Z :=
  if forallb isdigit s
  then if (0 <? max_str_digits) && (640 <? List.length s)
          && (max_str_digits <? List.length s)
       then Raise ValueError
       else Ok (Z.of_nat (int_of_digits s))
  else Raise ValueError.

(** Lines 204-211 of [main], on the line the user typed. *)
Definition read_threshold (max_str_digits : nat) (line : str) : result Z :=
  let threshold_input := strip line in
  if str_isdigit threshold_input
  then bind (int_of_str max_str_digits threshold_input) (fun n =>
       Ok (Z.max 0 (Z.min 100 n)))
  else Ok DEFAULT_MATCH_THRESHOLD.

(** *** Counting outcomes *)

Definition is_renamed (o : Outcome) : bool :=
  match o with Renamed _ _ => true | _ => false end.
Definition is_unchanged (o : Outcome) : bool :=
  match o with Unchanged _ => true | _ => false end.
Definition is_not_found (o : Outcome) : bool :=
  match o with NotFound => true | _ => false end.
Definition is_conflict (o : Outcome) : bool :=
  match o with Conflict _ _ => true | _ => false end.
Definition is_error (o : Outcome) : bool :=
  match o with Error _ _ => true | _ => false end.

Definition count (f : Outcome -> bool) (os : list Outcome) : nat :=
  List.length (filter f os).

(** Two characters of the class [p] in a row. *)
Fixpoint has_repeat (p : ascii -> bool) (s : str) : bool :=
  match s with
  | a :: t =>
      match t with
      | b :: _ => p a && p b || has_repeat p t
      | [] => false
      end
  | [] => false
  end.

(** The character [a] followed by the character [b] somewhere in [s]. *)
Fixpoint has_pair (a b : ascii) (s : str) : bool :=
  match s with
  | x :: t =>
      match t with
      | y :: _ => Ascii.eqb x a && Ascii.eqb y b || has_pair a b t
      | [] => false
      end
  | [] => false
  end.

(** The first index of a row of [get_rows]. *)
Definition row_index (r : Row) : nat := fst (fst r).

End ChangeNameMore.

(* ===================================================================== *)
(** ** Numbers as text *)
(* ===================================================================== *)

Module PyNum.
Import PyStr.

(** The character of the digit [d]. *)
Definition digit_char (d : nat) : ascii := ascii_of_nat (48 + d).

(** [str(n)] for a natural number; [fuel] bounds the number of digits. *)
Fixpoint digits_of (fuel n : nat) (acc : str) : str :=
  match fuel with
  | 0 => acc
  | S f =>
      let acc' := digit_char (n mod 10) :: acc in
      if n <? 10 then acc' else digits_of f (n / 10) acc'
  end.

Definition str_of_nat (n : nat) : str := digits_of (S n) n [].

(** [f"{n:02d}"] for [n < 100]. *)
Definition two_digits (n : nat) : str :=
  [digit_char (n / 10); digit_char (n mod 10)].

End PyNum.

(* ===================================================================== *)
(** ** scripts/1.3_xml_placeholders.py: the rest of the script *)
(* ===================================================================== *)

Module XmlPlaceholdersMore.
Import PyStr PyPath PyNum XmlPlaceholders.

(** *** read_sheet_rows *)

(** [row[i] if len(row) > i else ""]. *)
Definition cell (row : list str) (i : nat) : str := nth i row [].

Definition nonblank (s : str) : bool :=
  match strip s with
  | [] => false
  | _ :: _ => true
  end.

(** The loop of [read_sheet_rows] over [enumerate(values, start=i)]. *)
Fixpoint read_sheet_rows_from (i : nat) (values : list (list str))
  : list SheetRow :=
  match values with
  | [] => []
  | row :: rest =>
      let a := cell row 0 in
      let b := cell row 1 in
      let c := cell row 2 in
      let d := cell row 3 in
      if nonblank a || nonblank b || nonblank c || nonblank d
      then mkRow i (strip a) (strip b) (strip c) (strip d)
           :: read_sheet_rows_from (S i) rest
      else read_sheet_rows_from (S i) rest
  end.

Definition read_sheet_rows (values : list (list str)) : list SheetRow :=
  read_sheet_rows_from 1 values.

(** *** calculate_font_size *)

Definition font_size_for (total_chars : nat) : nat :=
  if total_chars <=? 100 then 60
  else if total_chars <=? 300 then 50
  else if total_chars <=? 600 then 40
  else if total_chars <=? 1000 then 35
  else if total_chars <=? 1500 then 30
  else if total_chars <=? 2500 then 25
  else 20.

Definition calculate_font_size (t1 t2 t3 t4 : str) : nat :=
  let total_chars :=
    List.length (strip (t1 ++ py " " ++ t2 ++ py " " ++ t3 ++ py " " ++ t4)) in
  font_size_for total_chars.

(** The row [read_sheet_rows] builds from the table row number [i]. *)
Definition row_shape (row : list str) (i : nat) : SheetRow :=
  mkRow i (strip (cell row 0)) (strip (cell row 1)) (strip (cell row 2))
        (strip (cell row 3)).

Definition has_content (row : list str) : bool :=
  nonblank (cell row 0) || nonblank (cell row 1) || nonblank (cell row 2)
  || nonblank (cell row 3).

(** *** wrap_text *)

(** [chars_per_line] of [wrap_text] in [create_text_image]. *)
Definition chars_per_line (font_size max_width : nat) : nat :=
  Nat.max 10 (max_width / Nat.max 1 (font_size / 2)).

(** *** Timestamps as they are written *)

Definition all_space (w : str) : bool := forallb isspace w.

(** [MM:SS] and [HH:MM:SS], two digits each. *)
Definition write_mmss (m s : nat) : str :=
  two_digits m ++ ":"%char :: two_digits s.

Definition write_hhmmss (h m s : nat) : str :=
  two_digits h ++ ":"%char :: two_digits m ++ ":"%char :: two_digits s.

(** The optional fraction: a dot and one to three digits. *)
Definition ms_ok (ms : option str) : bool :=
  match ms with
  | None => true
  | Some d => (1 <=? List.length d) && (List.length d <=? 3) && forallb isdigit d
  end.

Definition write_ms (ms : option str) : str :=
  match ms with
  | None => []
  | Some d => "."%char :: d
  end.

(** A range [a-b] with whitespace [w0 .. w3] around its parts. *)
Definition write_range (w0 a w1 w2 b w3 : str) : str :=
  w0 ++ a ++ w1 ++ "-"%char :: w2 ++ b ++ w3.

(** *** What [remove_links_from_text] leaves *)

(** A match of the URL pattern at the start of [s]. *)
Definition url_here (s : str) : bool :=
  match url_at s with
  | Some _ => true
  | None => false
  end.

(** A word: not empty, no whitespace. *)
Definition is_word (w : str) : bool :=
  match w with
  | [] => false
  | _ :: _ => forallb nonspace w
  end.

(** What may follow a group of the timestamp patterns: nothing,
    whitespace or the dash. *)
Definition after_group (r : str) : Prop :=
  match r with
  | [] => True
  | c :: _ => isspace c = true \/ c = "-"%char
  end.

(** What follows a removed URL: nothing or whitespace. *)
Definition at_space (r : str) : Prop :=
  match r with
  | [] => True
  | sp :: _ => isspace sp = true
  end.

End XmlPlaceholdersMore.

(* ===================================================================== *)
(** ** sheet_cache.py *)
(* ===================================================================== *)

Module SheetCache.
Import PyStr PyNum ChangeName ChangeNameMore XmlPlaceholders.

(** *** sanitize_fs_name *)

(** The class of the first [re.sub]: backslash, slash, colon, star,
    question mark, double quote, angle brackets, bar, newline, carriage
    return and tab. *)
Definition fs_forbidden (c : ascii) : bool :=
  let n := code c in
  (n =? 92) || (n =? 47) || (n =? 58) || (n =? 42) || (n =? 63) || (n =? 34)
  || (n =? 60) || (n =? 62) || (n =? 124) || (n =? 10) || (n =? 13)
  || (n =? 9).

Definition sanitize_fs_name (value : str) : str :=
  let cleaned :=
    strip (map (fun c => if fs_forbidden c then "_"%char else c) value) in
  let cleaned := collapse_run is_underscore "_" false cleaned in
  or_str (strip_by is_dot_or_underscore cleaned) (py "untitled_sheet").

(** *** _unique_csv_name *)

Definition str_in (s : str) (l : list str) : bool := existsb (str_eqb s) l.

(** [existing.values()]. *)
Definition values (existing : list (str * str)) : list str :=
  map snd existing.

(** [f"{base}_{i}.csv"]. *)
Definition numbered (base : str) (i : nat) : str :=
  base ++ py "_" ++ str_of_nat i ++ py ".csv".

(** The loop over [range(2, 200)]: the first candidate that is free. *)
Fixpoint first_free (base : str) (taken : list str) (range : list nat)
  : option str :=
  match range with
  | [] => None
  | i :: r =>
      let candidate := numbered base i in
      if negb (str_in candidate taken) then Some candidate
      else first_free base taken r
  end.

(** [stamp] is [int(datetime.now().timestamp())] as text. *)
Definition _unique_csv_name (existing : list (str * str)) (sheet_title : str)
  (stamp : str) : str :=
  let base := or_str (sanitize_fs_name sheet_title) (py "sheet") in
  let filename := base ++ py ".csv" in
  if negb (str_in filename (values existing)) then filename
  else match first_free base (values existing) (seq 2 198) with
       | Some candidate => candidate
       | None => base ++ py "_" ++ stamp ++ py ".csv"
       end.

(** *** _column_label *)

(** The [while current > 0] loop; [fuel] bounds its rounds. *)
Fixpoint column_label_loop (fuel : nat) (current : Z) (label : str) : str :=
  match fuel with
  | 0 => label
  | S f =>
      if (0 <? current)%Z
      then let remainder := ((current - 1) mod 26)%Z in
           let current := ((current - 1) / 26)%Z in
           column_label_loop f current
             (ascii_of_nat (65 + Z.to_nat remainder) :: label)
      else label
  end.

Definition _column_label (index : Z) : str :=
  or_str (column_label_loop (Z.to_nat index) index []) (py "A").

(** The column a label names: [A] is 1, [Z] is 26, [AA] is 27. *)
Fixpoint column_of (label : str) : nat :=
  match label with
  | [] => 0
  | c :: t => (code c - 64) * 26 ^ List.length t + column_of t
  end.

Definition is_upper (c : ascii) : bool := between 65 90 (code c).

(** *** _is_http_url *)

(** One character against a letter of the pattern under [re.I]. *)
Definition eq_nocase (c x : ascii) : bool :=
  Ascii.eqb (lower_char c) (lower_char x).

Fixpoint strip_prefix_nocase (pre s : str) : option str :=
  match pre, s with
  | [], _ => Some s
  | a :: pre', b :: s' =>
      if eq_nocase b a then strip_prefix_nocase pre' s' else None
  | _ :: _, [] => None
  end.

(** [^https?://] under [re.I]: what follows it. *)
Definition scheme_at (s : str) : option str :=
  match strip_prefix_nocase (py "http") s with
  | None => None
  | Some r =>
      let r' := match r with
                | c :: t => if eq_nocase c "s" then t else r
                | [] => r
                end in
      strip_prefix (py "://") r'
  end.

Definition backslash : ascii := "\"%char.
Definition newline : ascii := "010"%char.

(** The class [[^/\\s]] of the source, whose raw string doubles the
    backslash: no slash, no backslash, no letter s. *)
Definition host_char (c : ascii) : bool :=
  negb (Ascii.eqb c "/" || Ascii.eqb c backslash || eq_nocase c "s").

(** The class [[^\\s]]. *)
Definition tail_char (c : ascii) : bool :=
  negb (Ascii.eqb c backslash || eq_nocase c "s").

(** [.]: any character but a newline. *)
Definition any_char (c : ascii) : bool := negb (Ascii.eqb c newline).

(** [bool(re.match(r"^https?://[^/\\s]+\\.[^\\s]+", url, flags=re.I))]. *)
Definition _is_http_url (url : str) : bool :=
  match scheme_at url with
  | None => false
  | Some r =>
      match take_while host_char r with
      | [] => false
      | _ :: _ =>
          match lstrip_by host_char r with
          | b :: d :: c :: _ =>
              Ascii.eqb b backslash && any_char d && tail_char c
          | _ => false
          end
      end
  end.

(** *** _detect_category *)

Inductive Category := pulltube | image | footage | other.

Definition not_slash (c : ascii) : bool := negb (Ascii.eqb c "/").

(** The [re.match] of [_detect_category], under [re.I]: the scheme, then
    group 1, one or more characters that are no slash, then the optional
    group 2, a slash and the rest of the line. *)
Definition host_match (url : str) : option (str * option str) :=
  match scheme_at url with
  | None => None
  | Some r =>
      match take_while not_slash r with
      | [] => None
      | (_ :: _) as host =>
          match lstrip_by not_slash r with
          | [] => Some (host, None)
          | c :: t => Some (host, Some (c :: take_while any_char t))
          end
      end
  end.

Fixpoint is_prefix (p s : str) : bool :=
  match p, s with
  | [], _ => true
  | a :: p', b :: s' => Ascii.eqb a b && is_prefix p' s'
  | _ :: _, [] => false
  end.

(** [sub in s]. *)
Fixpoint contains (sub s : str) : bool :=
  is_prefix sub s ||
  match s with
  | [] => false
  | _ :: t => contains sub t
  end.

Definition image_exts : list str :=
  map py ["jpg"; "jpeg"; "png"; "gif"; "webp"; "svg"; "bmp"; "tif";
          "tiff"]%string.

(** A match of [\\.(jpg|...|tiff)(\\?|#|$)] at the start of [s]: a
    backslash, any character, one of the words; the last group matches the
    empty string. *)
Definition image_at (s : str) : bool :=
  match s with
  | b :: d :: t =>
      Ascii.eqb b backslash && any_char d
      && existsb (fun e => match strip_prefix_nocase e t with
                           | Some _ => true
                           | None => false
                           end) image_exts
  | _ => false
  end.

Fixpoint search_image (s : str) : bool :=
  image_at s ||
  match s with
  | [] => false
  | _ :: t => search_image t
  end.

Definition _detect_category (url : str) : Category :=
  let host_match := host_match url in
  let host := lower (match host_match with
                     | Some (h, _) => h
                     | None => []
                     end) in
  let path := lower (match host_match with
                     | Some (_, Some p) => p
                     | _ => []
                     end) in
  let is_youtube :=
    contains (py "youtube.com") host || str_eqb host (py "youtu.be") in
  let is_instagram :=
    contains (py "instagram.com") host || str_eqb host (py "instagr.am") in
  if is_youtube || is_instagram then pulltube
  else if search_image path then image
  else if contains (py "motionarray.com") host then footage
  else other.

(** No name twice in a list. *)
Fixpoint nodupb (l : list str) : bool :=
  match l with
  | [] => true
  | x :: t => negb (str_in x t) && nodupb t
  end.

(** *** _looks_like_sheet_id and parse_spreadsheet_id *)

Definition _looks_like_sheet_id (value : str) : bool :=
  match value with
  | [] => false
  | _ :: _ =>
      if contains id_marker value then true
      else is_bare_id (strip value)
  end.

(** The [parse_spreadsheet_id] of this file: [ValueError] where the one
    of [4_Change_name.py] exits. *)
Definition parse_spreadsheet_id (value : str) : result str :=
  let value := strip value in
  match search_id value with
  | Some g => Ok g
  | None => if is_bare_id value then Ok value else Raise ValueError
  end.

End SheetCache.


(* ===================================================================== *)
(** ** Sample data *)
(* ===================================================================== *)

Module Sample.
Import PyStr PyPath ChangeName XmlPlaceholders.

(** A stand-in for the scorers of [rapidfuzz]: 100 on equal strings, 0 on
    different ones. *)
Definition exact_ratio (a b : str) : Q := if str_eqb a b then 100%Q else 0%Q.

(** An operating system on which [rename] fails only for a missing
    source, and one on which it always fails. *)
Definition os_ok (tree : list Path) (source target : Path) : bool := false.

(** A file system on which [exists] raises for no path, and one on which
    it raises for a name of more than 255 characters. *)
Definition stat_ok (tree : list Path) (p : Path) : bool := false.
Definition stat_long (tree : list Path) (p : Path) : bool :=
  255 <? List.length (name p).

Definition clip_a : Path := mkPath [py "clips"] (py "a.mp4").
Definition clip_b : Path := mkPath [py "clips"] (py "b.mp4").
Definition day1_a : Path := mkPath [py "clips"; py "day1"] (py "a.mp4").
Definition day2_a : Path := mkPath [py "clips"; py "day2"] (py "a.mp4").

(** Stand-ins for [str] on values that are not strings and for [float] on
    strings: the first prints nothing, the second rejects every string. *)
Definition str_blank (v : json) : str := [].
Definition float_rejects (s : str) : option pyfloat := None.

(** A stand-in for [float] on an [int]: the number itself below [2 ^ 1024]
    (the rounding is left out), [OverflowError] from there on. *)
Definition float_near (z : Z) : option Q :=
  if (Z.abs z <? 2 ^ 1024)%Z then Some (inject_Z z) else None.

(** A stand-in for the sort on keys with a NaN: the list as it is. *)
Definition sort_kept (l : list Segment) : list Segment := l.

Definition seg_hello : Segment :=
  mkSeg (py "hello world") (Fin 0) (Fin 2).
Definition seg_bye : Segment :=
  mkSeg (py "goodbye now") (Fin 2) (Fin 4).

Definition row_of (n : nat) (a : str) : SheetRow := mkRow n a [] [] [].

(** A file whose stem has a dot, a folder of two files, and a table. *)
Definition dotted : Path := mkPath [py "clips"] (py "a.b.mp4").
Definition two_clips : list Path := [clip_a; clip_b].
Definition table_rows : list Row :=
  [(2, py "b", py "a.mp4"); (3, py "c", py "b.mp4"); (4, py "d", py "zzz");
   (5, py "c", py "c.mp4")].

End Sample.

(* ===================================================================== *)
(** ** Facts about strings and paths *)
(* ===================================================================== *)

Import PyStr PyPath ChangeName XmlPlaceholders.

Lemma str_eqb_eq (a b : str) : str_eqb a b = true <-> a = b.
Proof.
  revert b; induction a as [|x a IH]; intros [|y b]; simpl; split;
    try congruence; try reflexivity.
  - intros H. apply andb_true_iff in H as [Hx Hr].
    apply Ascii.eqb_eq in Hx. apply IH in Hr. congruence.
  - intros H. injection H as -> ->. rewrite Ascii.eqb_refl. simpl.
    now apply IH.
Qed.

Lemma str_eqb_refl (a : str) : str_eqb a a = true.
Proof. now apply str_eqb_eq. Qed.

Lemma str_eqb_neq (a b : str) : str_eqb a b = false <-> a <> b.
Proof.
  split.
  - intros H E. apply str_eqb_eq in E. congruence.
  - intros H. destruct (str_eqb a b) eqn:E; [|reflexivity].
    apply str_eqb_eq in E. contradiction.
Qed.

Lemma str_eqb_sym (a b : str) : str_eqb a b = str_eqb b a.
Proof.
  destruct (str_eqb a b) eqn:E.
  - apply str_eqb_eq in E. subst. now rewrite str_eqb_refl.
  - symmetry. apply str_eqb_neq. apply str_eqb_neq in E. congruence.
Qed.

Lemma parts_eqb_eq (a b : list str) : parts_eqb a b = true <-> a = b.
Proof.
  revert b; induction a as [|x a IH]; intros [|y b]; simpl; split;
    try congruence; try reflexivity.
  - intros H. apply andb_true_iff in H as [Hx Hr].
    apply str_eqb_eq in Hx. apply IH in Hr. congruence.
  - intros H. injection H as -> ->. rewrite str_eqb_refl. simpl.
    now apply IH.
Qed.

Lemma Path_eqb_eq (p q : Path) : Path_eqb p q = true <-> p = q.
Proof.
  destruct p as [pp pn], q as [qp qn]. unfold Path_eqb. simpl.
  rewrite andb_true_iff, parts_eqb_eq, str_eqb_eq.
  split; [intros [-> ->]; reflexivity | intros H; injection H; auto].
Qed.

Lemma Path_eqb_refl (p : Path) : Path_eqb p p = true.
Proof. now apply Path_eqb_eq. Qed.

Lemma Path_eqb_neq (p q : Path) : Path_eqb p q = false <-> p <> q.
Proof.
  split.
  - intros H E. apply Path_eqb_eq in E. congruence.
  - intros H. destruct (Path_eqb p q) eqn:E; [|reflexivity].
    apply Path_eqb_eq in E. contradiction.
Qed.

Lemma Path_eq_dec (p q : Path) : {p = q} + {p <> q}.
Proof.
  destruct (Path_eqb p q) eqn:E.
  - left. now apply Path_eqb_eq.
  - right. now apply Path_eqb_neq.
Defined.

(** *** Stripping *)

Section Strip.

Variable p : ascii -> bool.

Lemma lstrip_by_all (s : str) : forallb p s = true -> lstrip_by p s = [].
Proof.
  induction s as [|c t IH]; simpl; [reflexivity|].
  intros H. apply andb_true_iff in H as [Hc Ht]. rewrite Hc. auto.
Qed.

Lemma lstrip_by_idem (s : str) : lstrip_by p (lstrip_by p s) = lstrip_by p s.
Proof.
  induction s as [|c t IH]; simpl; [reflexivity|].
  destruct (p c) eqn:E; [exact IH|]. simpl. now rewrite E.
Qed.

Lemma lstrip_by_snoc (s : str) (c : ascii) :
  lstrip_by p (s ++ [c]) =
  match lstrip_by p s with
  | [] => if p c then [] else [c]
  | x :: r => (x :: r) ++ [c]
  end.
Proof.
  induction s as [|x t IH]; simpl; [reflexivity|].
  destruct (p x); [exact IH | reflexivity].
Qed.

Lemma rstrip_by_cons (c : ascii) (s : str) :
  rstrip_by p (c :: s) =
  match rstrip_by p s with
  | [] => if p c then [] else [c]
  | x :: r => c :: x :: r
  end.
Proof.
  unfold rstrip_by. simpl. rewrite lstrip_by_snoc.
  destruct (lstrip_by p (rev s)) as [|x r] eqn:E; simpl.
  - destruct (p c); reflexivity.
  - rewrite rev_app_distr. simpl.
    destruct (rev r ++ [x]) eqn:E2; [now destruct (rev r)|reflexivity].
Qed.

Lemma rstrip_by_idem (s : str) : rstrip_by p (rstrip_by p s) = rstrip_by p s.
Proof.
  unfold rstrip_by. rewrite rev_involutive, lstrip_by_idem. reflexivity.
Qed.

Lemma lstrip_by_incl (s : str) : incl (lstrip_by p s) s.
Proof.
  induction s as [|c t IH]; simpl; [apply incl_refl|].
  destruct (p c); [now apply incl_tl | apply incl_refl].
Qed.

Lemma rstrip_by_incl (s : str) : incl (rstrip_by p s) s.
Proof.
  unfold rstrip_by. intros x H. apply in_rev in H.
  apply lstrip_by_incl in H. now apply in_rev in H.
Qed.

Lemma strip_by_incl (s : str) : incl (strip_by p s) s.
Proof.
  unfold strip_by. intros x H. apply rstrip_by_incl in H.
  now apply lstrip_by_incl in H.
Qed.

(** The first character left by a strip is not in the set. *)
Lemma lstrip_by_head (s : str) (c : ascii) (t : str) :
  lstrip_by p s = c :: t -> p c = false.
Proof.
  induction s as [|x r IH]; simpl; [discriminate|].
  destruct (p x) eqn:E; [exact IH|]. intros H. injection H as <- _. exact E.
Qed.

Lemma rstrip_by_head (s : str) (c : ascii) (t : str) :
  rstrip_by p s = c :: t -> exists t', s = c :: t'.
Proof.
  destruct s as [|x r]; [discriminate|]. rewrite rstrip_by_cons.
  destruct (rstrip_by p r); [destruct (p x)|]; intros H; try discriminate;
    injection H as <- _; eauto.
Qed.

Lemma strip_by_head (s : str) (c : ascii) (t : str) :
  strip_by p s = c :: t -> p c = false.
Proof.
  unfold strip_by. intros H. apply rstrip_by_head in H as [t' H].
  now apply lstrip_by_head in H.
Qed.

Lemma strip_by_all (s : str) : forallb p s = true -> strip_by p s = [].
Proof. intros H. unfold strip_by. now rewrite lstrip_by_all. Qed.

(** A stripped string is left alone by both strips. *)
Lemma lstrip_rstrip_fixed (s : str) :
  lstrip_by p s = s -> lstrip_by p (rstrip_by p s) = rstrip_by p s.
Proof.
  intros H. destruct (rstrip_by p s) as [|c t] eqn:E; [reflexivity|].
  destruct (rstrip_by_head _ _ _ E) as [t' ->].
  simpl. destruct (p c) eqn:Ec; [|reflexivity].
  rewrite <- H in E. exfalso.
  assert (Hh : p c = false).
  { apply (lstrip_by_head (c :: t') c t'). exact H. }
  congruence.
Qed.

Lemma strip_by_lstrip (s : str) :
  lstrip_by p (strip_by p s) = strip_by p s.
Proof. unfold strip_by. apply lstrip_rstrip_fixed, lstrip_by_idem. Qed.

Lemma strip_by_rstrip (s : str) :
  rstrip_by p (strip_by p s) = strip_by p s.
Proof. unfold strip_by. apply rstrip_by_idem. Qed.

Lemma strip_by_idem (s : str) : strip_by p (strip_by p s) = strip_by p s.
Proof.
  unfold strip_by at 1. now rewrite strip_by_lstrip, strip_by_rstrip.
Qed.

End Strip.


(** *** The order on strings and paths *)

Section Lex.

Variable A : Type.
Variable lt : A -> A -> bool.
Hypothesis lt_irrefl : forall x, lt x x = false.
Hypothesis lt_trans : forall x y z, lt x y = true -> lt y z = true -> lt x z = true.
Hypothesis lt_tri : forall x y, lt x y = false -> lt y x = false -> x = y.

Lemma lex_ltb_irrefl (a : list A) : lex_ltb lt a a = false.
Proof.
  induction a as [|x a IH]; simpl; [reflexivity|]. now rewrite lt_irrefl.
Qed.

Lemma lex_ltb_tri (a : list A) :
  forall b, lex_ltb lt a b = false -> lex_ltb lt b a = false -> a = b.
Proof.
  induction a as [|x a IH]; intros [|y b]; simpl; try congruence.
  destruct (lt x y) eqn:Exy; [discriminate|].
  destruct (lt y x) eqn:Eyx; [discriminate|].
  intros H1 H2. rewrite (lt_tri _ _ Exy Eyx). f_equal. now apply IH.
Qed.

Lemma lex_ltb_trans (a : list A) :
  forall b c, lex_ltb lt a b = true -> lex_ltb lt b c = true ->
              lex_ltb lt a c = true.
Proof.
  induction a as [|x a IH]; intros [|y b] [|z c]; simpl; try congruence.
  destruct (lt x y) eqn:Exy.
  - intros _. destruct (lt y z) eqn:Eyz.
    + intros _. now rewrite (lt_trans _ _ _ Exy Eyz).
    + destruct (lt z y) eqn:Ezy; [discriminate|]. intros _.
      rewrite <- (lt_tri _ _ Eyz Ezy). now rewrite Exy.
  - destruct (lt y x) eqn:Eyx; [discriminate|].
    rewrite (lt_tri _ _ Exy Eyx). intros Hab.
    destruct (lt y z) eqn:Eyz; [reflexivity|].
    destruct (lt z y) eqn:Ezy; [discriminate|]. now apply IH.
Qed.

End Lex.

Lemma code_inj (x y : ascii) : code x = code y -> x = y.
Proof.
  unfold code. intros H.
  rewrite <- (ascii_nat_embedding x), <- (ascii_nat_embedding y).
  now rewrite H.
Qed.

Lemma char_ltb_irrefl (x : ascii) : char_ltb x x = false.
Proof. apply Nat.ltb_irrefl. Qed.

Lemma char_ltb_trans (x y z : ascii) :
  char_ltb x y = true -> char_ltb y z = true -> char_ltb x z = true.
Proof. unfold char_ltb. rewrite !Nat.ltb_lt. lia. Qed.

Lemma char_ltb_tri (x y : ascii) :
  char_ltb x y = false -> char_ltb y x = false -> x = y.
Proof.
  unfold char_ltb. rewrite !Nat.ltb_ge. intros. apply code_inj. lia.
Qed.

Lemma str_ltb_irrefl (a : str) : str_ltb a a = false.
Proof. exact (lex_ltb_irrefl _ _ char_ltb_irrefl a). Qed.

Lemma str_ltb_trans (a b c : str) :
  str_ltb a b = true -> str_ltb b c = true -> str_ltb a c = true.
Proof.
  exact (lex_ltb_trans _ _ char_ltb_trans char_ltb_tri a b c).
Qed.

Lemma str_ltb_tri (a b : str) :
  str_ltb a b = false -> str_ltb b a = false -> a = b.
Proof. exact (lex_ltb_tri _ _ char_ltb_tri a b). Qed.

Lemma parts_ltb_irrefl (a : list str) : parts_ltb a a = false.
Proof. exact (lex_ltb_irrefl _ _ str_ltb_irrefl a). Qed.

Lemma parts_ltb_trans (a b c : list str) :
  parts_ltb a b = true -> parts_ltb b c = true -> parts_ltb a c = true.
Proof.
  exact (lex_ltb_trans _ _ str_ltb_trans str_ltb_tri a b c).
Qed.

Lemma parts_ltb_tri (a b : list str) :
  parts_ltb a b = false -> parts_ltb b a = false -> a = b.
Proof. exact (lex_ltb_tri _ _ str_ltb_tri a b). Qed.

(** [x < p] gives [x < q] or [q < p]. *)
Lemma Path_ltb_cut (x p q : Path) :
  Path_ltb x p = true -> Path_ltb x q = false -> Path_ltb q p = true.
Proof.
  unfold Path_ltb. intros Hxp Hxq.
  destruct (parts_ltb (parts q) (parts p)) eqn:Hqp; [reflexivity|].
  destruct (parts_ltb (parts p) (parts q)) eqn:Hpq.
  - rewrite (parts_ltb_trans _ _ _ Hxp Hpq) in Hxq. discriminate.
  - rewrite (parts_ltb_tri _ _ Hpq Hqp) in Hxp. congruence.
Qed.

Lemma Path_ltb_asym (p q : Path) :
  Path_ltb p q = true -> Path_ltb q p = false.
Proof.
  unfold Path_ltb. intros H.
  destruct (parts_ltb (parts q) (parts p)) eqn:E; [|reflexivity].
  pose proof (parts_ltb_trans _ _ _ H E) as T.
  now rewrite parts_ltb_irrefl in T.
Qed.

Lemma Path_ltb_irrefl (p : Path) : Path_ltb p p = false.
Proof. apply parts_ltb_irrefl. Qed.

(** *** sorted *)

Lemma insert_sorted_In (p x : Path) (l : list Path) :
  In x (insert_sorted p l) <-> x = p \/ In x l.
Proof.
  induction l as [|q t IH]; simpl.
  - split; [intros [H|[]]; auto | intros [H|[]]; auto].
  - destruct (Path_ltb q p); simpl; rewrite ?IH; intuition congruence.
Qed.

Lemma sorted_In (x : Path) (l : list Path) : In x (sorted l) <-> In x l.
Proof.
  induction l as [|p t IH]; simpl; [tauto|].
  rewrite insert_sorted_In, IH. intuition congruence.
Qed.

(** [sorted(l)[0]] is an element of [l] that no element precedes. *)
Lemma first_sorted_min (l : list Path) (p : Path) :
  first_sorted l = Some p ->
  In p l /\ forall q, In q l -> Path_ltb q p = false.
Proof.
  unfold first_sorted. revert p.
  induction l as [|a t IH]; intros p; simpl; [discriminate|].
  destruct (sorted t) as [|q s] eqn:Es; simpl.
  - intros H. injection H as <-. split; [now left|].
    intros x [<-|Hx]; [apply Path_ltb_irrefl|].
    apply sorted_In in Hx. rewrite Es in Hx. destruct Hx.
  - destruct (IH q eq_refl) as [Hq Hmin].
    destruct (Path_ltb q a) eqn:Eqa; simpl; intros H; injection H as <-.
    + split; [now right|].
      intros x [<-|Hx]; [now apply Path_ltb_asym | now apply Hmin].
    + split; [now left|].
      intros x [<-|Hx]; [apply Path_ltb_irrefl|].
      destruct (Path_ltb x a) eqn:Exa; [|reflexivity].
      rewrite (Path_ltb_cut x a q Exa (Hmin x Hx)) in Eqa. discriminate.
Qed.

Lemma first_sorted_some (l : list Path) :
  l <> [] -> exists p, first_sorted l = Some p.
Proof.
  destruct l as [|a t]; [congruence|]. intros _.
  unfold first_sorted. destruct (sorted (a :: t)) as [|p s] eqn:E.
  - assert (H : In a (sorted (a :: t))) by (apply sorted_In; now left).
    rewrite E in H. destruct H.
  - now exists p.
Qed.


(** *** Dicts *)

Lemma dget_In (d : Dict) (k : str) (l : list Path) :
  dget d k = Some l -> In (k, l) d.
Proof.
  induction d as [|[k' v] r IH]; simpl; [discriminate|].
  destruct (str_eqb k k') eqn:E.
  - apply str_eqb_eq in E. intros H. injection H as ->. left. congruence.
  - intros H. right. now apply IH.
Qed.

Lemma dget_None (d : Dict) (k : str) : dget d k = None -> ~ In k (keys d).
Proof.
  induction d as [|[k' v] r IH]; simpl; [tauto|].
  destruct (str_eqb k k') eqn:E; [discriminate|].
  apply str_eqb_neq in E. intros H [H'|H']; [congruence | now apply IH].
Qed.

Lemma In_dget (d : Dict) (k : str) (l : list Path) :
  NoDup (keys d) -> In (k, l) d -> dget d k = Some l.
Proof.
  induction d as [|[k' v] r IH]; simpl; [tauto|].
  intros Hnd [H|H].
  - injection H as -> ->. now rewrite str_eqb_refl.
  - inversion Hnd as [|? ? Hni Hnd']; subst.
    destruct (str_eqb k k') eqn:E.
    + apply str_eqb_eq in E. subst. exfalso. apply Hni.
      change k' with (fst (k', l)). now apply in_map.
    + now apply IH.
Qed.

(** Where a key sits, and what [m[k] = v] and [del m[k]] do there. *)
Lemma dget_split (d : Dict) (k : str) (l : list Path) :
  dget d k = Some l ->
  exists a b,
    d = a ++ (k, l) :: b /\
    (forall v, dset d k v = a ++ (k, v) :: b) /\
    ddel d k = a ++ b.
Proof.
  induction d as [|[k' v'] r IH]; simpl; [discriminate|].
  destruct (str_eqb k k') eqn:E.
  - apply str_eqb_eq in E. subst. intros H. injection H as ->.
    exists [], r. simpl. auto.
  - intros H. destruct (IH H) as (a & b & -> & Hs & Hd).
    exists ((k', v') :: a), b. simpl. repeat split.
    + intros v. now rewrite Hs.
    + now rewrite Hd.
Qed.

Lemma dset_fresh (d : Dict) (k : str) (v : list Path) :
  dget d k = None -> dset d k v = d ++ [(k, v)].
Proof.
  induction d as [|[k' v'] r IH]; simpl; [reflexivity|].
  destruct (str_eqb k k'); [discriminate|]. intros H. now rewrite IH.
Qed.

Lemma candidates_app (a b : Dict) :
  candidates (a ++ b) = candidates a ++ candidates b.
Proof. apply flat_map_app. Qed.

Lemma candidates_cons (k : str) (l : list Path) (b : Dict) :
  candidates ((k, l) :: b) = l ++ candidates b.
Proof. reflexivity. Qed.

Lemma In_candidates (d : Dict) (p : Path) :
  In p (candidates d) <-> exists k l, In (k, l) d /\ In p l.
Proof.
  unfold candidates. rewrite in_flat_map. split.
  - intros ([k l] & H1 & H2). now exists k, l.
  - intros (k & l & H1 & H2). now exists (k, l).
Qed.

Lemma keys_app (a b : Dict) : keys (a ++ b) = keys a ++ keys b.
Proof. apply map_app. Qed.

(** *** list.remove *)

Lemma list_remove_perm (p : Path) (l l' : list Path) :
  list_remove p l = Some l' -> Permutation l (p :: l').
Proof.
  revert l'. induction l as [|x t IH]; intros l'; simpl; [discriminate|].
  destruct (Path_eqb x p) eqn:E.
  - apply Path_eqb_eq in E. subst. intros H. injection H as ->. reflexivity.
  - destruct (list_remove p t) as [t'|]; [|discriminate].
    intros H. injection H as <-. rewrite (IH t' eq_refl). apply perm_swap.
Qed.

Lemma list_remove_some (p : Path) (l : list Path) :
  In p l -> exists l', list_remove p l = Some l'.
Proof.
  induction l as [|x t IH]; simpl; [tauto|].
  destruct (Path_eqb x p) eqn:E; [eauto|].
  intros [H|H]; [subst; rewrite Path_eqb_refl in E; discriminate|].
  destruct (IH H) as [l' ->]. eauto.
Qed.

(** *** _register and _remove_from_map keep a dict keyed *)

Section Keyed.

Variable f : Path -> str.

Lemma keyed_nil : keyed f [].
Proof. split; [constructor | intros k l []]. Qed.

Lemma setdefault_append_perm (d : Dict) (k : str) (p : Path) :
  Permutation (candidates (setdefault_append d k p)) (p :: candidates d).
Proof.
  unfold setdefault_append. destruct (dget d k) as [l|] eqn:E.
  - destruct (dget_split _ _ _ E) as (a & b & -> & Hs & _). rewrite Hs.
    rewrite !candidates_app, !candidates_cons.
    transitivity (candidates a ++ (p :: l) ++ candidates b).
    + apply Permutation_app_head, Permutation_app_tail.
      symmetry. apply Permutation_cons_append.
    + simpl. symmetry. apply Permutation_middle.
  - rewrite (dset_fresh _ _ _ E), candidates_app. simpl.
    symmetry. apply Permutation_cons_append.
Qed.

Lemma setdefault_append_keyed (d : Dict) (p : Path) :
  keyed f d -> keyed f (setdefault_append d (f p) p).
Proof.
  intros [Hnd Hk]. unfold setdefault_append.
  destruct (dget d (f p)) as [l|] eqn:E.
  - destruct (dget_split _ _ _ E) as (a & b & -> & Hs & _). rewrite Hs.
    split.
    + rewrite keys_app in *. exact Hnd.
    + intros k' l' H. apply in_app_or in H as [H|[H|H]].
      * apply Hk. apply in_or_app. now left.
      * injection H as <- <-. split; [now destruct l|].
        intros q Hq. apply in_app_or in Hq as [Hq|[<-|[]]]; [|reflexivity].
        apply (Hk (f p) l); [|exact Hq]. apply in_or_app. right. now left.
      * apply Hk. apply in_or_app. right. now right.
  - rewrite (dset_fresh _ _ _ E). split.
    + rewrite keys_app. simpl. apply NoDup_app; [exact Hnd| |].
      * constructor; [tauto | constructor].
      * intros x Hx [<-|[]]. now apply dget_None in E.
    + intros k' l' H. apply in_app_or in H as [H|[H|[]]]; [now apply Hk|].
      injection H as <- <-. split; [discriminate|].
      intros q [<-|[]]. reflexivity.
Qed.

Lemma keyed_NoDup_middle (a b : Dict) (x : str * list Path) :
  NoDup (keys (a ++ x :: b)) -> NoDup (keys (a ++ b)).
Proof.
  rewrite !keys_app. simpl. apply NoDup_remove_1.
Qed.

Lemma remove_from_map_keyed (d : Dict) (k : str) (p : Path) :
  keyed f d -> keyed f (_remove_from_map d k p).
Proof.
  intros [Hnd Hk]. unfold _remove_from_map.
  destruct (dget d k) as [[|x l]|] eqn:E; try (now split).
  destruct (list_remove p (x :: l)) as [[|y l']|] eqn:Er; try (now split).
  - destruct (dget_split _ _ _ E) as (a & b & -> & _ & ->). split.
    + now apply keyed_NoDup_middle in Hnd.
    + intros k' l0 H. apply Hk. apply in_app_or in H as [H|H];
        apply in_or_app; [now left | right; now right].
  - destruct (dget_split _ _ _ E) as (a & b & -> & Hs & _). rewrite Hs. split.
    + rewrite keys_app in *. exact Hnd.
    + intros k' l0 H. apply in_app_or in H as [H|[H|H]].
      * apply Hk. apply in_or_app. now left.
      * injection H as <- <-. split; [discriminate|].
        intros q Hq. apply (Hk k (x :: l)).
        -- apply in_or_app. right. now left.
        -- apply list_remove_perm in Er.
           apply (Permutation_in q (Permutation_sym Er)). now right.
      * apply Hk. apply in_or_app. right. now right.
Qed.

(** Removing a candidate that is there takes exactly one occurrence out. *)
Lemma remove_from_map_perm (d : Dict) (p : Path) :
  keyed f d -> In p (candidates d) ->
  Permutation (candidates d) (p :: candidates (_remove_from_map d (f p) p)).
Proof.
  intros [Hnd Hk] Hin. apply In_candidates in Hin as (k & l & Hkl & Hp).
  destruct (Hk k l Hkl) as [Hne Hf]. rewrite (Hf p Hp).
  pose proof (In_dget _ _ _ Hnd Hkl) as E.
  unfold _remove_from_map. rewrite E.
  destruct l as [|x l]; [destruct Hp|].
  destruct (list_remove_some _ _ Hp) as [l' Er]. rewrite Er.
  pose proof (list_remove_perm _ _ _ Er) as Hperm.
  destruct (dget_split _ _ _ E) as (a & b & Hd & Hs & Hdel).
  assert (Hc : Permutation (candidates d) (p :: candidates (a ++ (k, l') :: b))).
  { rewrite Hd, !candidates_app, !candidates_cons.
    transitivity (candidates a ++ (p :: l') ++ candidates b).
    + apply Permutation_app_head, Permutation_app_tail. exact Hperm.
    + simpl. symmetry. apply Permutation_middle. }
  destruct l' as [|y l'].
  - rewrite Hdel. rewrite Hc, !candidates_app. reflexivity.
  - rewrite Hs. exact Hc.
Qed.

Lemma remove_from_map_incl (d : Dict) (k : str) (p : Path) :
  incl (candidates (_remove_from_map d k p)) (candidates d).
Proof.
  unfold _remove_from_map.
  destruct (dget d k) as [[|x l]|] eqn:E; try apply incl_refl.
  destruct (list_remove p (x :: l)) as [[|y l']|] eqn:Er; try apply incl_refl.
  - destruct (dget_split _ _ _ E) as (a & b & -> & _ & ->).
    rewrite !candidates_app, candidates_cons.
    intros q Hq. apply in_app_or in Hq as [Hq|Hq]; apply in_or_app;
      [now left | right; apply in_or_app; now right].
  - destruct (dget_split _ _ _ E) as (a & b & -> & Hs & _). rewrite Hs.
    rewrite !candidates_app, !candidates_cons.
    apply list_remove_perm in Er.
    intros q Hq. apply in_app_or in Hq as [Hq|Hq]; apply in_or_app;
      [now left | right].
    apply in_app_or in Hq as [Hq|Hq]; apply in_or_app; [left | now right].
    apply (Permutation_in q (Permutation_sym Er)). now right.
Qed.

End Keyed.

(** *** The registry invariant *)

Lemma wf_register (reg : FileRegistry) (p : Path) : wf reg -> wf (_register reg p).
Proof.
  intros (Hn & Hs & Hp). unfold _register. split; [|split]; simpl.
  - apply (setdefault_append_keyed name_key _ p Hn).
  - apply (setdefault_append_keyed stem_key _ p Hs).
  - rewrite !setdefault_append_perm. now constructor.
Qed.

Lemma register_perm (reg : FileRegistry) (p : Path) :
  Permutation (candidates (by_name (_register reg p)))
              (p :: candidates (by_name reg)).
Proof. apply setdefault_append_perm. Qed.

Lemma wf_unregister (reg : FileRegistry) (p : Path) :
  wf reg -> In p (candidates (by_name reg)) ->
  wf (_unregister reg p) /\
  Permutation (candidates (by_name reg))
              (p :: candidates (by_name (_unregister reg p))).
Proof.
  intros (Hn & Hs & Hp) Hin.
  assert (Hin' : In p (candidates (by_stem reg)))
    by (now apply (Permutation_in p Hp)).
  pose proof (remove_from_map_perm name_key _ p Hn Hin) as P1.
  pose proof (remove_from_map_perm stem_key _ p Hs Hin') as P2.
  split; [|exact P1].
  unfold _unregister. split; [|split]; simpl.
  - now apply remove_from_map_keyed.
  - now apply remove_from_map_keyed.
  - apply (Permutation_cons_inv (a := p)).
    now rewrite <- P1, <- P2.
Qed.

Lemma wf_empty : wf (mkReg [] []).
Proof. split; [apply keyed_nil | split; [apply keyed_nil | constructor]]. Qed.

Lemma init_from (pool : list Path) :
  forall reg, wf reg ->
    wf (fold_left _register pool reg) /\
    Permutation (candidates (by_name (fold_left _register pool reg)))
                (candidates (by_name reg) ++ pool).
Proof.
  induction pool as [|p t IH]; intros reg Hwf; simpl.
  - split; [exact Hwf | now rewrite app_nil_r].
  - destruct (IH (_register reg p) (wf_register _ p Hwf)) as [H1 H2].
    split; [exact H1|]. rewrite H2, register_perm.
    simpl. apply Permutation_middle.
Qed.

Lemma wf_init (pool : list Path) : wf (init pool).
Proof. apply init_from, wf_empty. Qed.

Lemma init_perm (pool : list Path) :
  Permutation (candidates (by_name (init pool))) pool.
Proof. apply (init_from pool _ wf_empty). Qed.

(** *** What take returns *)

Lemma nonempty_at_some (d : Dict) (k : str) (l : list Path) :
  nonempty_at d k = Some l <-> dget d k = Some l /\ l <> [].
Proof.
  unfold nonempty_at. destruct (dget d k) as [[|x t]|]; split;
    try discriminate; try (intros [H _]; discriminate).
  - intros [H H']. injection H as <-. congruence.
  - intros H. injection H as <-. split; [reflexivity | discriminate].
  - intros [H _]. exact H.
Qed.

Lemma take_first_some (reg : FileRegistry) (l : list Path) :
  l <> [] ->
  exists p, first_sorted l = Some p /\
            take_first reg l = (Some p, _unregister reg p).
Proof.
  intros H. destruct (first_sorted_some l H) as [p Hp].
  exists p. unfold take_first. now rewrite Hp.
Qed.

Lemma take_first_tier (reg : FileRegistry) (d : Dict) (k : str) (l : list Path) :
  d = by_name reg \/ d = by_stem reg ->
  nonempty_at d k = Some l -> tier_result reg (take_first reg l).
Proof.
  intros Hd H. apply nonempty_at_some in H as [Hg Hne].
  destruct (take_first_some reg l Hne) as (p & Hp & ->).
  right. exists p, k, l. repeat split; auto.
  destruct Hd as [-> | ->]; auto.
Qed.

Lemma fuzzy_hit_tier (sc : str -> str -> Q) (reg : FileRegistry) (d : Dict)
  (m : option (str * Q)) (min_score : Z) (l : list Path) :
  d = by_name reg \/ d = by_stem reg ->
  fuzzy_hit d m min_score = Some l -> tier_result reg (take_first reg l).
Proof.
  intros Hd. unfold fuzzy_hit. destruct m as [[k s]|]; [|discriminate].
  destruct (Qle_bool (inject_Z min_score) s); [|discriminate].
  now apply take_first_tier.
Qed.

Lemma take_fuzzy_tier (sc : str -> str -> Q) (reg : FileRegistry)
  (candidate : str) (min_score : Z) :
  tier_result reg (_take_fuzzy sc reg candidate min_score).
Proof.
  unfold _take_fuzzy. destruct (by_name reg) as [|e r] eqn:Eb; [now left|].
  rewrite <- Eb.
  destruct (fuzzy_hit (by_name reg) _ min_score) as [l|] eqn:E1.
  - eapply (fuzzy_hit_tier sc reg (by_name reg)); [now left | exact E1].
  - destruct (fuzzy_hit (by_stem reg) _ min_score) as [l|] eqn:E2.
    + eapply (fuzzy_hit_tier sc reg (by_stem reg)); [now right | exact E2].
    + now left.
Qed.

Lemma take_tier (sc : str -> str -> Q) (reg : FileRegistry)
  (lookup_name : str) (min_score : Z) :
  tier_result reg (take sc reg lookup_name min_score).
Proof.
  unfold take. destruct (strip (path_name lookup_name)) as [|c t]; [now left|].
  destruct (nonempty_at (by_name reg) _) as [l|] eqn:E1.
  - eapply (take_first_tier reg (by_name reg)); [now left | exact E1].
  - destruct (nonempty_at (by_stem reg) _) as [l|] eqn:E2.
    + eapply (take_first_tier reg (by_stem reg)); [now right | exact E2].
    + apply take_fuzzy_tier.
Qed.

(** A successful take returns a candidate of the registry and unregisters
    it; a failed one leaves the registry as it was. *)
Lemma take_some (sc : str -> str -> Q) (reg reg' : FileRegistry)
  (lookup_name : str) (min_score : Z) (p : Path) :
  wf reg ->
  take sc reg lookup_name min_score = (Some p, reg') ->
  reg' = _unregister reg p /\ In p (candidates (by_name reg)).
Proof.
  intros Hwf H. destruct (take_tier sc reg lookup_name min_score) as [E|E].
  - rewrite H in E. discriminate.
  - destruct E as (q & k & l & E & Hq & Hd). rewrite H in E.
    injection E as -> ->. split; [reflexivity|].
    apply first_sorted_min in Hq as [Hq _].
    destruct Hd as [Hd|Hd]; apply dget_In in Hd.
    + apply In_candidates. eauto.
    + destruct Hwf as (_ & _ & Hp).
      apply (Permutation_in q (Permutation_sym Hp)).
      apply In_candidates. eauto.
Qed.

Lemma take_none (sc : str -> str -> Q) (reg reg' : FileRegistry)
  (lookup_name : str) (min_score : Z) :
  take sc reg lookup_name min_score = (None, reg') -> reg' = reg.
Proof.
  intros H. destruct (take_tier sc reg lookup_name min_score) as [E|E].
  - rewrite H in E. now injection E.
  - destruct E as (q & k & l & E & _). rewrite H in E. discriminate.
Qed.


(* ===================================================================== *)
(** ** The registry: accounting, precedence, blank lookups *)
(* ===================================================================== *)

Lemma successes_cons_some (p : Path) (rs : list (option Path)) :
  successes (Some p :: rs) = p :: successes rs.
Proof. reflexivity. Qed.

Lemma run_ops_perm (sc : str -> str -> Q) (ops : list Op) :
  forall reg reg' rs,
    wf reg -> run_ops sc reg ops = (reg', rs) ->
    wf reg' /\
    Permutation (candidates (by_name reg') ++ successes rs)
                (candidates (by_name reg) ++ adds ops).
Proof.
  induction ops as [|[lookup_name min_score|path] rest IH];
    intros reg reg' rs Hwf; simpl.
  - intros H. injection H as <- <-. simpl. split; [exact Hwf | reflexivity].
  - destruct (take sc reg lookup_name min_score) as [r reg1] eqn:Et.
    destruct (run_ops sc reg1 rest) as [reg2 rs2] eqn:Er.
    intros H. injection H as <- <-.
    destruct r as [p|].
    + destruct (take_some _ _ _ _ _ _ Hwf Et) as [-> Hin].
      destruct (wf_unregister _ _ Hwf Hin) as [Hwf1 Hp].
      destruct (IH _ _ _ Hwf1 Er) as [Hwf2 Hq].
      split; [exact Hwf2|].
      rewrite successes_cons_some, <- Permutation_middle, Hq, Hp.
      reflexivity.
    + apply take_none in Et. subst reg1.
      destruct (IH _ _ _ Hwf Er) as [Hwf2 Hq]. split; [exact Hwf2 | exact Hq].
  - intros H. destruct (IH _ _ _ (wf_register _ path Hwf) H) as [Hwf2 Hq].
    split; [exact Hwf2|]. unfold add in Hq.
    rewrite Hq, register_perm. simpl. apply Permutation_middle.
Qed.

(** C1, as the code has it: starting from a registry built from a pool of
    M files, after any sequence of [take] and [add] calls with N successful
    takes and K adds the registry holds exactly M - N + K candidates (in
    each of its two indices), and a candidate is handed out by successful
    takes at most as often as it was put in, once by the pool if it is
    there and once per [add] of it.  Hence, as long as nothing is added
    back, no two takes return the same candidate. *)
Theorem registry_accounting (sc : str -> str -> Q) (pool : list Path)
  (ops : list Op) :
  let reg := fst (run_ops sc (init pool) ops) in
  let taken := successes (snd (run_ops sc (init pool) ops)) in
  (Z.of_nat (size reg) =
   Z.of_nat (List.length pool) - Z.of_nat (List.length taken)
   + Z.of_nat (List.length (adds ops)))%Z /\
  List.length (candidates (by_stem reg)) = size reg /\
  (forall p, count_occ Path_eq_dec taken p <=
             count_occ Path_eq_dec pool p
             + count_occ Path_eq_dec (adds ops) p) /\
  (NoDup pool -> adds ops = [] -> NoDup taken).
Proof.
  intros reg taken. subst reg taken.
  destruct (run_ops sc (init pool) ops) as [reg rs] eqn:E. simpl.
  destruct (run_ops_perm sc ops _ _ _ (wf_init pool) E) as [Hwf Hp].
  rewrite init_perm in Hp.
  assert (Hcount : forall p,
             count_occ Path_eq_dec (candidates (by_name reg)) p
             + count_occ Path_eq_dec (successes rs) p =
             count_occ Path_eq_dec pool p
             + count_occ Path_eq_dec (adds ops) p).
  { intros p. rewrite <- !count_occ_app.
    now apply (Permutation_count_occ Path_eq_dec). }
  split; [|split; [|split]].
  - apply Permutation_length in Hp. rewrite !length_app in Hp.
    unfold size. lia.
  - destruct Hwf as (_ & _ & Hns). unfold size.
    symmetry. now apply Permutation_length.
  - intros p. specialize (Hcount p). lia.
  - intros Hnd Hadds. apply (NoDup_count_occ Path_eq_dec). intros p.
    specialize (Hcount p). rewrite Hadds in Hcount. simpl in Hcount.
    apply (NoDup_count_occ Path_eq_dec) with (x := p) in Hnd. lia.
Qed.

(** C2: when the lowered, stripped basename of the lookup string is a key
    of [by_name] with a non-empty list, [take] returns the first path, in
    sorted order, of that very list and unregisters it; the path is stored
    under exactly that key and no path of the list precedes it.  The result
    does not depend on the scorer: the stem and fuzzy tiers are not
    consulted. *)
Theorem take_exact_precedence (sc : str -> str -> Q) (reg : FileRegistry)
  (lookup_name : str) (min_score : Z) (l : list Path) :
  wf reg -> names_valid reg ->
  dget (by_name reg) (lower (strip (path_name lookup_name))) = Some l ->
  l <> [] ->
  exists path,
    take sc reg lookup_name min_score = (Some path, _unregister reg path) /\
    first_sorted l = Some path /\
    In path l /\
    name_key path = lower (strip (path_name lookup_name)) /\
    (forall q, In q l -> Path_ltb q path = false) /\
    (forall sc', take sc' reg lookup_name min_score =
                 take sc reg lookup_name min_score).
Proof.
  intros Hwf Hval Hget Hne.
  pose proof (dget_In _ _ _ Hget) as Hin.
  destruct Hwf as ([_ Hk] & _ & _). destruct (Hk _ _ Hin) as [_ Hkey].
  destruct (take_first_some reg l Hne) as (path & Hfirst & Htf).
  destruct (first_sorted_min _ _ Hfirst) as [Hpl Hmin].
  assert (Hcand : exists c t, strip (path_name lookup_name) = c :: t).
  { destruct (strip (path_name lookup_name)) as [|c t] eqn:Es; [|eauto].
    exfalso. specialize (Hkey path Hpl). unfold name_key in Hkey.
    assert (Hv : valid_name (name path) = true).
    { apply Hval. left. apply In_candidates. eauto. }
    destruct (name path); [discriminate Hv | discriminate Hkey]. }
  destruct Hcand as (c & t & Es).
  assert (Htake : forall s, take s reg lookup_name min_score =
                            (Some path, _unregister reg path)).
  { intros s. unfold take. rewrite Es in *. cbv beta iota zeta.
    assert (Hn : nonempty_at (by_name reg) (lower (c :: t)) = Some l)
      by (now apply nonempty_at_some).
    rewrite Hn. exact Htf. }
  exists path. repeat split; auto.
  intros sc'. now rewrite !Htake.
Qed.

(** C9: a lookup string whose basename is empty or made of whitespace only
    makes [take] return [None] and hand back the registry as it was,
    whatever the registry, the scorer and the threshold are. *)
Theorem take_blank_lookup (sc : str -> str -> Q) (reg : FileRegistry)
  (lookup_name : str) (min_score : Z) :
  forallb isspace (path_name lookup_name) = true ->
  take sc reg lookup_name min_score = (None, reg).
Proof.
  intros H. unfold take, strip. now rewrite (strip_by_all _ _ H).
Qed.

(** *** get_rows *)


Lemma get_rows_from_spec (values : list (list str)) :
  forall first idx new_name key,
    In (idx, new_name, key) (get_rows_from first values) <->
    exists row,
      first <= idx /\
      nth_error values (idx - first) = Some row /\
      (idx =? 1) && is_header row = false /\
      new_name = cell_or_empty row 0 /\
      key = cell_or_empty row 2 /\
      key <> [].
Proof.
  induction values as [|row rest IH]; intros first idx new_name key; simpl.
  - split; [tauto|]. intros (row & _ & H & _). destruct (idx - first); discriminate.
  - assert (Tail : In (idx, new_name, key) (get_rows_from (S first) rest) ->
                   exists row0, first <= idx /\
                     nth_error (row :: rest) (idx - first) = Some row0 /\
                     (idx =? 1) && is_header row0 = false /\
                     new_name = cell_or_empty row0 0 /\
                     key = cell_or_empty row0 2 /\ key <> []).
    { intros H. apply IH in H as (row0 & Hle & Hn & Hrest).
      exists row0. split; [lia|]. split; [|exact Hrest].
      replace (idx - first) with (S (idx - S first)) by lia. exact Hn. }
    assert (Back : forall row0, first < idx ->
                   nth_error (row :: rest) (idx - first) = Some row0 ->
                   (idx =? 1) && is_header row0 = false /\
                   new_name = cell_or_empty row0 0 /\
                   key = cell_or_empty row0 2 /\ key <> [] ->
                   In (idx, new_name, key) (get_rows_from (S first) rest)).
    { intros row0 Hlt Hn Hrest. apply IH. exists row0.
      split; [lia|]. split; [|exact Hrest].
      replace (idx - first) with (S (idx - S first)) in Hn by lia. exact Hn. }
    destruct ((first =? 1) && is_header row) eqn:Hh.
    + split; [exact Tail|].
      intros (row0 & Hle & Hn & Hrest).
      destruct (Nat.eq_dec idx first) as [->|Hne].
      * rewrite Nat.sub_diag in Hn. simpl in Hn. injection Hn as <-.
        destruct Hrest as [Hc _]. congruence.
      * apply (Back row0); [lia | exact Hn | exact Hrest].
    + destruct (cell_or_empty row 2) as [|c t] eqn:Hk.
      * split; [exact Tail|].
        intros (row0 & Hle & Hn & Hrest).
        destruct (Nat.eq_dec idx first) as [->|Hne].
        -- rewrite Nat.sub_diag in Hn. simpl in Hn. injection Hn as <-.
           destruct Hrest as (_ & _ & Hkey & Hnz). congruence.
        -- apply (Back row0); [lia | exact Hn | exact Hrest].
      * split.
        -- intros [H|H]; [|now apply Tail].
           injection H as <- <- <-. exists row.
           rewrite Nat.sub_diag. simpl. rewrite Hk.
           repeat split; auto. discriminate.
        -- intros (row0 & Hle & Hn & Hrest).
           destruct (Nat.eq_dec idx first) as [->|Hne].
           ++ rewrite Nat.sub_diag in Hn. simpl in Hn. injection Hn as <-.
              destruct Hrest as (_ & -> & -> & _). left. now rewrite Hk.
           ++ right. apply (Back row0); [lia | exact Hn | exact Hrest].
Qed.




(** *** On sample data *)

Import Sample.

Lemma NoDup_two (p q : Path) : Path_eqb p q = false -> NoDup [p; q].
Proof.
  intros H. apply Path_eqb_neq in H.
  constructor; [intros [E|[]]; congruence|].
  constructor; [intros [] | constructor].
Qed.

(** Two rows ask for [a.mp4] and want it named [a]: the first leaves the
    file as it is and returns it, and the second receives it again. *)
Lemma two_rows_receive_same_candidate :
  exists st os,
    run_rows exact_ratio os_ok stat_ok 90 (initial_state [clip_a] [clip_a])
      [(1, py "a", py "a.mp4"); (2, py "a", py "a.mp4")] = Some (st, os) /\
    os = [Unchanged clip_a; Unchanged clip_a] /\
    received os = [clip_a; clip_a] /\
    ~ NoDup (received os).
Proof.
  eexists. eexists. split; [vm_compute; reflexivity|].
  split; [reflexivity|]. split; [reflexivity|].
  intros H. inversion H as [|? ? Hn _]. apply Hn. now left.
Qed.

(** Two takes and no add on a pool of two files: two different files. *)
Lemma registry_accounting_witness :
  NoDup [clip_a; clip_b] /\
  adds [Take (py "a.mp4") 90; Take (py "B") 90] = [] /\
  NoDup (successes (snd (run_ops exact_ratio (init [clip_a; clip_b])
                           [Take (py "a.mp4") 90; Take (py "B") 90]))).
Proof.
  assert (H : NoDup [clip_a; clip_b]) by (apply NoDup_two; reflexivity).
  split; [exact H|]. split; [reflexivity|].
  apply (registry_accounting exact_ratio [clip_a; clip_b]
           [Take (py "a.mp4") 90; Take (py "B") 90]);
    [exact H | reflexivity].
Defined.

(** The registry of a folder holds files, whose names are valid. *)
Lemma wf_names_init (pool : list Path) :
  forallb (fun p => valid_name (name p)) pool = true -> names_valid (init pool).
Proof.
  intros H p Hp. rewrite forallb_forall in H. apply H.
  destruct Hp as [Hp|Hp].
  - now apply (Permutation_in p (init_perm pool)).
  - destruct (wf_init pool) as (_ & _ & Hs).
    apply (Permutation_in p (init_perm pool)).
    now apply (Permutation_in p (Permutation_sym Hs)).
Qed.

(** Two files named [a.mp4]: the lookup [incoming/A.MP4 ] gets the one
    whose path comes first, although it was registered last. *)
Lemma take_exact_precedence_witness :
  exists path,
    take exact_ratio (init [day2_a; clip_b; day1_a]) (py "incoming/A.MP4 ") 90
    = (Some path, _unregister (init [day2_a; clip_b; day1_a]) path) /\
    path = day1_a.
Proof.
  destruct (take_exact_precedence exact_ratio (init [day2_a; clip_b; day1_a])
              (py "incoming/A.MP4 ") 90 [day2_a; day1_a])
    as (path & Ht & Hf & _).
  - apply wf_init.
  - apply wf_names_init. reflexivity.
  - reflexivity.
  - discriminate.
  - exists path. split; [exact Ht|].
    vm_compute in Hf. now injection Hf.
Defined.

(** A lookup that ends in a component of two spaces. *)
Lemma take_blank_lookup_witness :
  forallb isspace (path_name (py "incoming/  ")) = true /\
  take exact_ratio (init [clip_a; clip_b]) (py "incoming/  ") 0
  = (None, init [clip_a; clip_b]).
Proof.
  split; [reflexivity|]. apply take_blank_lookup. reflexivity.
Defined.


(* ===================================================================== *)
(** ** Target names are valid *)
(* ===================================================================== *)

Lemma collapse_run_In (p : ascii -> bool) (r : ascii) (s : str) :
  forall b c, In c (collapse_run p r b s) -> c = r \/ In c s.
Proof.
  induction s as [|x t IH]; intros b c; simpl; [tauto|].
  destruct (p x).
  - destruct b; simpl; intros H.
    + apply IH in H. tauto.
    + destruct H as [H|H]; [auto|]. apply IH in H. tauto.
  - simpl. intros [H|H]; [auto|]. apply IH in H. tauto.
Qed.

Lemma slugify_chars (s : str) (c : ascii) :
  In c (slugify_filename s) -> slug_ok c = true.
Proof.
  unfold slugify_filename. intros H.
  apply strip_by_incl in H. apply collapse_run_In in H as [->|H];
    [reflexivity|].
  apply in_map_iff in H as (x & Hx & _).
  destruct (slug_ok x) eqn:E; subst; [exact E | reflexivity].
Qed.

Lemma slugify_good (s : str) : slugify_filename s = [] \/ good_slug (slugify_filename s).
Proof.
  destruct (slugify_filename s) as [|c t] eqn:E; [now left|]. right.
  split; [discriminate|]. split.
  - intros x Hx. apply (slugify_chars s). now rewrite E.
  - intros c' t' H. injection H as <- <-.
    unfold slugify_filename in E. apply strip_by_head in E.
    intros ->. discriminate E.
Qed.

Lemma file_good : good_slug (py "file").
Proof.
  split; [discriminate|]. split.
  - intros c H. simpl in H.
    repeat (destruct H as [<-|H]; [reflexivity|]). destruct H.
  - intros c t H. injection H as <- _. discriminate.
Qed.

Lemma or_str_good (s : str) (d : str) :
  good_slug d -> good_slug (or_str (slugify_filename s) d).
Proof.
  intros Hd. destruct (slugify_good s) as [E|H].
  - now rewrite E.
  - destruct (slugify_filename s); [now destruct H | exact H].
Qed.

Lemma no_slash_incl (a b : str) : incl a b -> no_slash b -> no_slash a.
Proof.
  unfold no_slash. intros Hincl Hb.
  destruct (existsb (Ascii.eqb "/") a) eqn:E; [|reflexivity].
  apply existsb_exists in E as (x & Hx & Ex).
  assert (T : existsb (Ascii.eqb "/") b = true)
    by (apply existsb_exists; exists x; auto).
  congruence.
Qed.

Lemma good_slug_valid (safe ext : str) :
  good_slug safe -> no_slash ext -> valid_name (safe ++ ext) = true.
Proof.
  intros (Hne & Hch & Hhd) Hext. destruct safe as [|c t]; [congruence|].
  unfold valid_name. simpl.
  assert (Hs : existsb (Ascii.eqb "/") ((c :: t) ++ ext) = false).
  { rewrite existsb_app. unfold no_slash in Hext. rewrite Hext.
    rewrite orb_false_r.
    destruct (existsb (Ascii.eqb "/") (c :: t)) eqn:E; [|reflexivity].
    apply existsb_exists in E as (x & Hx & Ex).
    apply Ascii.eqb_eq in Ex. subst x. apply Hch in Hx. discriminate. }
  simpl in Hs. rewrite Hs. simpl.
  destruct (Ascii.eqb c ".") eqn:E; [|reflexivity].
  apply Ascii.eqb_eq in E. now elim (Hhd c t eq_refl).
Qed.

Lemma split_on_no_sep (sep : ascii) (s : str) :
  forall part, In part (split_on sep s) -> ~ In sep part.
Proof.
  induction s as [|c t IH]; simpl.
  - intros part [<-|[]]. tauto.
  - destruct (Ascii.eqb c sep) eqn:E.
    + intros part [<-|H]; [tauto | now apply IH].
    + apply Ascii.eqb_neq in E.
      destruct (split_on sep t) as [|h r].
      * intros part [<-|[]]. intros [H|[]]. congruence.
      * intros part [<-|H].
        -- intros [H|H]; [congruence|]. apply (IH h); [now left | exact H].
        -- apply IH. now right.
Qed.

Lemma last_In_or_default {A : Type} (l : list A) (d : A) :
  last l d = d \/ In (last l d) l.
Proof.
  induction l as [|x t IH]; [now left|].
  destruct t as [|y t']; [right; now left|].
  change (last (x :: y :: t') d) with (last (y :: t') d).
  destruct IH as [IH|IH]; [now left | right; now right].
Qed.

Lemma not_In_no_slash (s : str) : ~ In "/"%char s -> no_slash s.
Proof.
  intros H. unfold no_slash.
  destruct (existsb (Ascii.eqb "/") s) eqn:E; [|reflexivity].
  apply existsb_exists in E as (x & Hx & Ex).
  apply Ascii.eqb_eq in Ex. subst. contradiction.
Qed.

Lemma path_name_no_slash (s : str) : no_slash (path_name s).
Proof.
  unfold path_name. destruct (last_In_or_default (path_parts s) []) as [->|H].
  - reflexivity.
  - unfold path_parts in H. apply filter_In in H as [H _].
    apply not_In_no_slash. now apply (split_on_no_sep "/" s).
Qed.

Lemma name_suffix_incl (n : str) : incl (name_suffix n) n.
Proof.
  unfold name_suffix. destruct (has_suffix n) as [i|].
  - intros x H. rewrite <- (firstn_skipn i n). apply in_or_app. now right.
  - intros x [].
Qed.

Lemma valid_name_no_slash (n : str) : valid_name n = true -> no_slash n.
Proof.
  unfold valid_name, no_slash. intros H.
  apply andb_true_iff in H as [H _]. apply andb_true_iff in H as [_ H].
  now apply negb_true_iff in H.
Qed.

Lemma dot_ext_no_slash (ext : str) :
  no_slash ext ->
  no_slash match ext with
           | c :: _ => if Ascii.eqb c "." then ext else "."%char :: ext
           | [] => ext
           end.
Proof.
  intros H. destruct ext as [|c t]; [exact H|].
  destruct (Ascii.eqb c "."); [exact H|].
  unfold no_slash in *. simpl in *. exact H.
Qed.

(** The name [ensure_target_filename] builds is one [with_name] accepts. *)
Lemma ensure_target_filename_valid (new_name : str) (source : Path) :
  valid_name (name source) = true ->
  valid_name (ensure_target_filename new_name source) = true.
Proof.
  intros Hsrc. apply valid_name_no_slash in Hsrc.
  assert (Hsuf : no_slash (suffix source))
    by (apply (no_slash_incl _ _ (name_suffix_incl _) Hsrc)).
  unfold ensure_target_filename.
  destruct (strip new_name) as [|c t].
  - apply good_slug_valid; [apply or_str_good, file_good | exact Hsuf].
  - apply good_slug_valid.
    + apply or_str_good, or_str_good, file_good.
    + apply dot_ext_no_slash.
      destruct (path_suffix (c :: t)) as [|x r] eqn:E; simpl; [exact Hsuf|].
      rewrite <- E. unfold path_suffix.
      apply (no_slash_incl _ _ (name_suffix_incl _)), path_name_no_slash.
Qed.

Lemma with_name_target (new_name : str) (source : Path) :
  valid_name (name source) = true ->
  with_name source
    (ensure_target_filename (or_str new_name (stem source)) source)
  = Some (target_of new_name source).
Proof.
  intros H. unfold with_name.
  now rewrite H, (ensure_target_filename_valid _ _ H).
Qed.

(* ===================================================================== *)
(** ** The row loop *)
(* ===================================================================== *)

Lemma names_valid_unregister (reg : FileRegistry) (p : Path) :
  names_valid reg -> names_valid (_unregister reg p).
Proof.
  intros H q [Hq|Hq]; apply H; [left | right];
    now apply (remove_from_map_incl _ _ _ _ Hq).
Qed.

Lemma names_valid_add (reg : FileRegistry) (p : Path) :
  names_valid reg -> valid_name (name p) = true -> names_valid (add reg p).
Proof.
  intros H Hp q Hq. unfold add, _register in Hq. simpl in Hq.
  destruct Hq as [Hq|Hq];
    apply (Permutation_in q (setdefault_append_perm _ _ _)) in Hq;
    (destruct Hq as [<-|Hq]; [exact Hp | apply H; auto]).
Qed.

Lemma In_add (reg : FileRegistry) (p : Path) :
  In p (candidates (by_name (add reg p))) /\
  In p (candidates (by_stem (add reg p))).
Proof.
  unfold add, _register. simpl. split;
    apply (Permutation_in p (Permutation_sym (setdefault_append_perm _ _ _)));
    now left.
Qed.

Lemma take_valid (sc : str -> str -> Q) (reg reg' : FileRegistry)
  (lookup_name : str) (min_score : Z) (r : option Path) :
  names_valid reg ->
  take sc reg lookup_name min_score = (r, reg') ->
  names_valid reg' /\ forall p, r = Some p -> valid_name (name p) = true.
Proof.
  intros Hv H. destruct (take_tier sc reg lookup_name min_score) as [E|E].
  - rewrite H in E. injection E as -> ->. split; [exact Hv | discriminate].
  - destruct E as (q & k & l & E & Hq & Hd). rewrite H in E.
    injection E as -> ->. split; [now apply names_valid_unregister|].
    intros p Hp. injection Hp as <-.
    apply first_sorted_min in Hq as [Hq _]. apply Hv.
    destruct Hd as [Hd|Hd]; apply dget_In in Hd; [left | right];
      apply In_candidates; eauto.
Qed.

Section Loop.

Variable token_set_ratio : str -> str -> Q.
Variable rename_fails : list Path -> Path -> Path -> bool.
Variable exists_fails : list Path -> Path -> bool.
Variable match_threshold : Z.

Let process := process_row token_set_ratio rename_fails exists_fails match_threshold.
Let run := run_rows token_set_ratio rename_fails exists_fails match_threshold.

(** The branches of the loop body, once [take] has returned a candidate. *)
Lemma process_row_taken (st : State) (row_idx : nat) (new_name title : str)
  (source : Path) (reg : FileRegistry) :
  names_valid (registry st) ->
  take token_set_ratio (registry st) title match_threshold = (Some source, reg) ->
  let target := target_of new_name source in
  process st (row_idx, new_name, title) =
  if Path_eqb target source then
    Some (mkState (add reg source) (fs st) (renamed st) (S (skipped_same st))
            (not_found st) (conflicts st) (errors st),
          Unchanged source)
  else
    match exists_ exists_fails (fs st) target with
    | None => None
    | Some true =>
        Some (mkState (add reg source) (fs st) (renamed st) (skipped_same st)
                (not_found st) (S (conflicts st))
                (errors st ++ [ErrConflict row_idx (name target)]),
              Conflict source target)
    | Some false =>
        match rename rename_fails (fs st) source target with
        | Some tree' =>
            Some (mkState (add reg target) tree' (S (renamed st))
                    (skipped_same st) (not_found st) (conflicts st)
                    (errors st),
                  Renamed source target)
        | None =>
            Some (mkState (add reg source) (fs st) (renamed st)
                    (skipped_same st) (not_found st) (conflicts st)
                    (errors st ++
                     [ErrRename row_idx (name source) (name target)]),
                  Error source target)
        end
    end.
Proof.
  intros Hv Ht target. subst process. unfold process_row. rewrite Ht.
  destruct (take_valid _ _ _ _ _ _ Hv Ht) as [_ Hs].
  rewrite (with_name_target new_name source (Hs source eq_refl)).
  reflexivity.
Qed.

(** Where [exists] raises for no path. *)
Hypothesis exists_total : forall tree p, exists_fails tree p = false.

(** The loop body keeps the names of the registry valid and, [exists]
    apart, lets no exception out. *)
Lemma process_row_total (st : State) (row : Row) :
  names_valid (registry st) ->
  exists st' o, process st row = Some (st', o) /\ names_valid (registry st').
Proof.
  intros Hv. destruct row as [[row_idx new_name] title].
  destruct (take token_set_ratio (registry st) title match_threshold)
    as [[source|] reg] eqn:Et.
  - destruct (take_valid _ _ _ _ _ _ Hv Et) as [Hv' Hs].
    specialize (Hs source eq_refl).
    rewrite (process_row_taken st row_idx new_name title source reg Hv Et).
    assert (Ht : valid_name (name (target_of new_name source)) = true)
      by (now apply ensure_target_filename_valid).
    cbv zeta. unfold exists_. rewrite exists_total.
    destruct (Path_eqb _ source);
      [|destruct (in_tree _ _); [|destruct (rename _ _ _ _)]];
      eexists; eexists; (split; [reflexivity|]); simpl;
      now apply names_valid_add.
  - subst process. unfold process_row. rewrite Et.
    destruct (take_valid _ _ _ _ _ _ Hv Et) as [Hv' _].
    eexists; eexists; split; [reflexivity | exact Hv'].
Qed.

(** The pass then visits every row: one outcome per row. *)
Lemma run_rows_total (rows : list Row) :
  forall st, names_valid (registry st) ->
    exists st' os, run st rows = Some (st', os) /\
                   List.length os = List.length rows /\
                   names_valid (registry st').
Proof.
  induction rows as [|row rest IH]; intros st Hv.
  - exists st, []. simpl. auto.
  - destruct (process_row_total st row Hv) as (st1 & o & Hp & Hv1).
    destruct (IH st1 Hv1) as (st2 & os & Hr & Hl & Hv2).
    exists st2, (o :: os). subst run process. simpl in *.
    rewrite Hp, Hr. simpl. auto.
Qed.

End Loop.


(** *** Returning a candidate *)

Lemma dget_dset (d : Dict) (k k' : str) (v : list Path) :
  dget (dset d k v) k' = if str_eqb k' k then Some v else dget d k'.
Proof.
  induction d as [|[k0 v0] r IH]; simpl; [reflexivity|].
  destruct (str_eqb k k0) eqn:E; simpl.
  - apply str_eqb_eq in E. subst k0.
    now destruct (str_eqb k' k).
  - rewrite IH. destruct (str_eqb k' k0) eqn:E0; [|reflexivity].
    apply str_eqb_eq in E0. subst k0.
    rewrite str_eqb_sym in E. now rewrite E.
Qed.

Lemma dget_absent (d : Dict) (k : str) : ~ In k (keys d) -> dget d k = None.
Proof.
  induction d as [|[k0 v0] r IH]; simpl; [reflexivity|].
  intros H. destruct (str_eqb k k0) eqn:E.
  - apply str_eqb_eq in E. subst. tauto.
  - apply IH. tauto.
Qed.

Lemma dget_ddel (d : Dict) (k k' : str) :
  NoDup (keys d) ->
  dget (ddel d k) k' = if str_eqb k' k then None else dget d k'.
Proof.
  induction d as [|[k0 v0] r IH]; simpl; intros Hnd.
  - now destruct (str_eqb k' k).
  - inversion Hnd as [|? ? Hni Hnd']; subst.
    destruct (str_eqb k k0) eqn:E; simpl.
    + apply str_eqb_eq in E. subst k0.
      destruct (str_eqb k' k) eqn:E'; [|reflexivity].
      apply str_eqb_eq in E'. subst. now apply dget_absent.
    + rewrite (IH Hnd'). destruct (str_eqb k' k0) eqn:E0; [|reflexivity].
      apply str_eqb_eq in E0. subst k0.
      rewrite str_eqb_sym in E. now rewrite E.
Qed.

Lemma same_entries_refl (d : Dict) : same_entries d d.
Proof. intros k. now destruct (dget d k). Qed.

(** Taking a candidate out of a dict and appending it again leaves every
    key with the same paths, up to their order. *)
Lemma readd_same_entries (f : Path -> str) (d : Dict) (p : Path) :
  keyed f d -> In p (candidates d) ->
  same_entries (setdefault_append (_remove_from_map d (f p) p) (f p) p) d.
Proof.
  intros [Hnd Hk] Hin. apply In_candidates in Hin as (k & l & Hkl & Hp).
  destruct (Hk k l Hkl) as [Hne Hf]. rewrite (Hf p Hp).
  pose proof (In_dget _ _ _ Hnd Hkl) as E.
  unfold _remove_from_map. rewrite E.
  destruct l as [|x l]; [destruct Hp|].
  destruct (list_remove_some _ _ Hp) as [l' Er]. rewrite Er.
  pose proof (list_remove_perm _ _ _ Er) as Hperm.
  intros k'. unfold setdefault_append.
  destruct l' as [|y l'].
  - rewrite (dget_ddel d k k Hnd), str_eqb_refl, dget_dset, (dget_ddel d k k' Hnd).
    destruct (str_eqb k' k) eqn:E'.
    + apply str_eqb_eq in E'. subst k'. rewrite E. now symmetry.
    + now destruct (dget d k').
  - rewrite dget_dset, str_eqb_refl, !dget_dset.
    destruct (str_eqb k' k) eqn:E'.
    + apply str_eqb_eq in E'. subst k'. rewrite E.
      rewrite Hperm. symmetry. apply Permutation_cons_append.
    + now destruct (dget d k').
Qed.

Lemma readd_same_candidates (reg : FileRegistry) (p : Path) :
  wf reg -> In p (candidates (by_name reg)) ->
  same_candidates (add (_unregister reg p) p) reg.
Proof.
  intros (Hn & Hs & Hp) Hin. split; simpl.
  - now apply (readd_same_entries name_key).
  - apply (readd_same_entries stem_key); [exact Hs|].
    now apply (Permutation_in p Hp).
Qed.

(* ===================================================================== *)
(** ** The outcomes of a row *)
(* ===================================================================== *)

Lemma run_rows_cons (sc : str -> str -> Q)
  (os_fails : list Path -> Path -> Path -> bool)
  (st_fails : list Path -> Path -> bool) (th : Z) (st : State)
  (row : Row) (rest : list Row) :
  run_rows sc os_fails st_fails th st (row :: rest) =
  match process_row sc os_fails st_fails th st row with
  | None => None
  | Some (st', o) =>
      match run_rows sc os_fails st_fails th st' rest with
      | None => None
      | Some (st'', os) => Some (st'', o :: os)
      end
  end.
Proof. reflexivity. Qed.

Section Outcomes.

Variable token_set_ratio : str -> str -> Q.
Variable rename_fails : list Path -> Path -> Path -> bool.
Variable exists_fails : list Path -> Path -> bool.
Variable match_threshold : Z.

(** C3: when the target path of the taken candidate, another path than
    the candidate's own, already exists, the outcome is Conflict, the
    directory tree is left as it was (nothing is renamed: the existing file
    and the candidate are both where they were), the counters and the log
    record one conflict, and the candidate is back in both indices of the
    registry for later rows. *)
Theorem conflict_returns_candidate (st : State) (row_idx : nat)
  (new_name title : str) (source : Path) (reg : FileRegistry) :
  names_valid (registry st) ->
  take token_set_ratio (registry st) title match_threshold
  = (Some source, reg) ->
  target_of new_name source <> source ->
  exists_ exists_fails (fs st) (target_of new_name source) = Some true ->
  exists st',
    process_row token_set_ratio rename_fails exists_fails match_threshold st
      (row_idx, new_name, title)
    = Some (st', Conflict source (target_of new_name source)) /\
    fs st' = fs st /\
    registry st' = add reg source /\
    In source (candidates (by_name (registry st'))) /\
    In source (candidates (by_stem (registry st'))) /\
    renamed st' = renamed st /\
    conflicts st' = S (conflicts st) /\
    errors st' =
      errors st ++ [ErrConflict row_idx (name (target_of new_name source))].
Proof.
  intros Hv Ht Hne Hex.
  rewrite (process_row_taken _ _ _ _ st row_idx new_name title source reg
             Hv Ht).
  cbv zeta. apply Path_eqb_neq in Hne. rewrite Hne, Hex.
  eexists. split; [reflexivity|]. simpl.
  destruct (In_add reg source) as [H1 H2]. repeat split; auto.
Qed.


(** C8, as the code has it: when the target path of the taken candidate is
    its own path, the outcome is Unchanged, the tree is as before, nothing
    but the skip counter moves, and the candidate is added back: the
    registry has the same keys with the same paths under each, the returned
    path now being the last of its lists. *)
Theorem unchanged_row_frame (st : State) (row_idx : nat)
  (new_name title : str) (source : Path) (reg : FileRegistry) :
  wf (registry st) -> names_valid (registry st) ->
  take token_set_ratio (registry st) title match_threshold
  = (Some source, reg) ->
  target_of new_name source = source ->
  exists st',
    process_row token_set_ratio rename_fails exists_fails match_threshold st
      (row_idx, new_name, title)
    = Some (st', Unchanged source) /\
    fs st' = fs st /\
    registry st' = add reg source /\
    same_candidates (registry st') (registry st) /\
    wf (registry st') /\
    skipped_same st' = S (skipped_same st) /\
    renamed st' = renamed st /\
    not_found st' = not_found st /\
    conflicts st' = conflicts st /\
    errors st' = errors st.
Proof.
  intros Hwf Hv Ht Heq.
  rewrite (process_row_taken _ _ _ _ st row_idx new_name title source reg
             Hv Ht).
  cbv zeta. rewrite Heq, Path_eqb_refl.
  destruct (take_some _ _ _ _ _ _ Hwf Ht) as [-> Hin].
  eexists. split; [reflexivity|]. simpl.
  split; [reflexivity|]. split; [reflexivity|].
  split; [now apply readd_same_candidates|].
  split; [apply (wf_register _ source), (wf_unregister _ _ Hwf Hin)|].
  repeat split.
Qed.

End Outcomes.


(** The row wants [a.mp4] to become [b.mp4], which exists. *)
Lemma conflict_returns_candidate_witness :
  let st := initial_state [clip_a; clip_b] [clip_a; clip_b] in
  target_of (py "b") clip_a = clip_b /\
  exists_ stat_ok (fs st) clip_b = Some true /\
  exists st',
    process_row exact_ratio os_ok stat_ok 90 st (1, py "b", py "a.mp4")
    = Some (st', Conflict clip_a clip_b) /\
    fs st' = fs st /\
    In clip_a (candidates (by_name (registry st'))).
Proof.
  intros st. split; [reflexivity|]. split; [reflexivity|].
  destruct (conflict_returns_candidate exact_ratio os_ok stat_ok 90 st 1
              (py "b") (py "a.mp4") clip_a (_unregister (registry st) clip_a))
    as (st' & Hp & Hfs & _ & Hin & _).
  - apply wf_names_init. reflexivity.
  - reflexivity.
  - intros H. vm_compute in H. discriminate.
  - reflexivity.
  - exists st'. auto.
Defined.


(** Two files named [a.mp4] in two folders: the row finds the first one
    already well named and returns it, behind the other one. *)
Lemma unchanged_row_reorders_registry :
  let st := initial_state [day1_a; day2_a] [day1_a; day2_a] in
  target_of (py "a") day1_a = day1_a /\
  exists st',
    process_row exact_ratio os_ok stat_ok 90 st (1, py "a", py "a.mp4")
    = Some (st', Unchanged day1_a) /\
    dget (by_name (registry st)) (py "a.mp4") = Some [day1_a; day2_a] /\
    dget (by_name (registry st')) (py "a.mp4") = Some [day2_a; day1_a] /\
    registry st' <> registry st.
Proof.
  intros st. split; [reflexivity|].
  eexists. split; [vm_compute; reflexivity|].
  split; [reflexivity|]. split; [reflexivity|].
  intros H. apply (f_equal (fun r => dget (by_name r) (py "a.mp4"))) in H.
  vm_compute in H. discriminate.
Qed.

(** The same row, with what does hold of the registry after it. *)
Lemma unchanged_row_frame_witness :
  let st := initial_state [day1_a; day2_a] [day1_a; day2_a] in
  target_of (py "a") day1_a = day1_a /\
  exists st',
    process_row exact_ratio os_ok stat_ok 90 st (1, py "a", py "a.mp4")
    = Some (st', Unchanged day1_a) /\
    fs st' = fs st /\
    same_candidates (registry st') (registry st).
Proof.
  intros st. split; [reflexivity|].
  destruct (unchanged_row_frame exact_ratio os_ok stat_ok 90 st 1
              (py "a") (py "a.mp4") day1_a (_unregister (registry st) day1_a))
    as (st' & Hp & Hfs & _ & Hsame & _).
  - apply wf_init.
  - apply wf_names_init. reflexivity.
  - reflexivity.
  - reflexivity.
  - exists st'. auto.
Defined.


(* ===================================================================== *)
(** ** clean_text *)
(* ===================================================================== *)

(** What one character becomes in [clean_text] before the whitespace is
    dealt with: it is no punctuation and it is its own lowercase. *)
Lemma cleaned_char (x : ascii) :
  let z := if ispunct (lower_char x) then " "%char else lower_char x in
  ispunct z = false /\ lower_char z = z.
Proof.
  destruct x as [[] [] [] [] [] [] [] []]; vm_compute; split; reflexivity.
Qed.

Lemma tidy_collapse (s : str) :
  forall b, tidy b (collapse_run isspace " " b s) = true.
Proof.
  induction s as [|c t IH]; intros b; simpl; [reflexivity|].
  destruct (isspace c) eqn:E.
  - destruct b; [apply IH|]. simpl. apply IH.
  - simpl. rewrite E. apply IH.
Qed.

Lemma tidy_lstrip (s : str) :
  forall b, tidy b s = true -> tidy false (lstrip_by isspace s) = true.
Proof.
  induction s as [|c t IH]; intros b; simpl; [reflexivity|].
  destruct (isspace c) eqn:E.
  - intros H. apply andb_true_iff in H as [_ H]. now apply (IH true).
  - intros H. simpl. now rewrite E.
Qed.

Lemma tidy_rstrip (s : str) :
  forall b, tidy b s = true -> tidy b (rstrip_by isspace s) = true.
Proof.
  induction s as [|c t IH]; intros b H; [exact H|].
  rewrite rstrip_by_cons. simpl in H.
  destruct (isspace c) eqn:E.
  - apply andb_true_iff in H as [H1 H2]. apply IH in H2.
    destruct (rstrip_by isspace t) as [|x r]; [reflexivity|].
    cbn [tidy]. rewrite E, H1. exact H2.
  - apply IH in H.
    destruct (rstrip_by isspace t) as [|x r]; cbn [tidy]; now rewrite E.
Qed.

Lemma collapse_tidy_fixed (s : str) :
  forall b, tidy b s = true -> collapse_run isspace " " b s = s.
Proof.
  induction s as [|c t IH]; intros b; simpl; [reflexivity|].
  destruct (isspace c) eqn:E.
  - intros H. apply andb_true_iff in H as [H H2].
    apply andb_true_iff in H as [H0 H1].
    apply Ascii.eqb_eq in H0. subst c.
    destruct b; [discriminate|]. now rewrite (IH true H2).
  - intros H. now rewrite (IH false H).
Qed.

Lemma has_double_space_cons (a c : ascii) (t : str) :
  has_double_space (a :: c :: t) =
  isspace a && isspace c || has_double_space (c :: t).
Proof. reflexivity. Qed.

Lemma tidy_no_double_space (s : str) :
  forall b, tidy b s = true -> has_double_space s = false.
Proof.
  induction s as [|a t IH]; intros b; [reflexivity|].
  destruct t as [|c t']; [reflexivity|].
  intros H. rewrite has_double_space_cons.
  change (tidy b (a :: c :: t')) with
    (if isspace a then Ascii.eqb a " " && negb b && tidy true (c :: t')
     else tidy false (c :: t')) in H.
  destruct (isspace a) eqn:Ea.
  - apply andb_true_iff in H as [_ H]. rewrite (IH true H).
    change (tidy true (c :: t')) with
      (if isspace c then Ascii.eqb c " " && negb true && tidy true t'
       else tidy false t') in H.
    destruct (isspace c); [|reflexivity].
    apply andb_true_iff in H as [H _]. apply andb_true_iff in H as [_ H].
    discriminate.
  - now rewrite (IH false H).
Qed.

Lemma tidy_spaces (s : str) :
  forall b c, tidy b s = true -> In c s -> isspace c = true -> c = " "%char.
Proof.
  induction s as [|a t IH]; intros b c H Hin Hc; [destruct Hin|].
  destruct Hin as [<-|Hin]; simpl in H.
  - rewrite Hc in H. apply andb_true_iff in H as [H _].
    apply andb_true_iff in H as [H _]. now apply Ascii.eqb_eq in H.
  - destruct (isspace a).
    + apply andb_true_iff in H as [_ H]. now apply (IH true).
    + now apply (IH false).
Qed.

Lemma strip_prefix_app (pre s r : str) :
  strip_prefix pre s = Some r -> s = pre ++ r.
Proof.
  revert s. induction pre as [|a pre IH]; intros [|b s]; simpl;
    try discriminate; try (intros H; now injection H as ->).
  destruct (Ascii.eqb a b) eqn:E; [|discriminate].
  apply Ascii.eqb_eq in E. subst. intros H. now rewrite (IH _ H).
Qed.

(** A URL needs a colon. *)
Lemma url_at_colon (s rest : str) : url_at s = Some rest -> In ":"%char s.
Proof.
  unfold url_at. destruct (strip_prefix (py "http") s) as [r|] eqn:E;
    [|discriminate].
  apply strip_prefix_app in E. subst s.
  set (r' := match r with
             | c :: t => if Ascii.eqb c "s" then t else r
             | [] => r
             end).
  assert (Hr : incl r' r).
  { subst r'. destruct r as [|c t]; [apply incl_refl|].
    destruct (Ascii.eqb c "s"); [apply incl_tl|]; apply incl_refl. }
  destruct (strip_prefix (py "://") r') as [[|c t]|] eqn:E2; try discriminate.
  intros _. apply strip_prefix_app in E2.
  apply in_or_app. right. apply Hr. rewrite E2. now left.
Qed.

Lemma no_punct_no_url (s : str) :
  forallb (fun c => negb (ispunct c)) s = true -> has_url s = false.
Proof.
  induction s as [|c t IH]; [reflexivity|].
  intros H. cbn [has_url].
  destruct (url_at (c :: t)) as [rest|] eqn:E.
  - apply url_at_colon in E. rewrite forallb_forall in H.
    apply H in E. discriminate.
  - apply IH. simpl in H. now apply andb_true_iff in H as [_ H].
Qed.

Lemma map_fixed {A : Type} (f : A -> A) (l : list A) :
  (forall x, In x l -> f x = x) -> map f l = l.
Proof.
  induction l as [|x t IH]; intros H; simpl; [reflexivity|].
  rewrite (H x (or_introl eq_refl)), IH; [reflexivity|].
  intros y Hy. apply H. now right.
Qed.

(** The characters of a cleaned text. *)
Lemma clean_text_chars (s : str) (c : ascii) :
  In c (clean_text s) -> ispunct c = false /\ lower_char c = c.
Proof.
  unfold clean_text, strip. intros H. apply strip_by_incl in H.
  apply collapse_run_In in H as [->|H]; [now split|].
  unfold punct_to_space, lower in H. rewrite map_map in H.
  apply in_map_iff in H as (x & <- & _). apply cleaned_char.
Qed.


(** The words of a URL stay in the cleaned text: only its punctuation
    goes.  The normalizer of the specification would drop the URL. *)
Lemma clean_text_keeps_url_words :
  clean_text (py "See https://x.com/a NOW") = py "see https x com a now" /\
  normalize_spec (py "See https://x.com/a NOW") = py "see now" /\
  clean_text (remove_links_from_text (py "See https://x.com/a NOW"))
  = py "see now" /\
  clean_text (py "See https://x.com/a NOW")
  <> normalize_spec (py "See https://x.com/a NOW").
Proof.
  split; [reflexivity|]. split; [reflexivity|]. split; [reflexivity|].
  intros H. vm_compute in H. discriminate.
Qed.


(* ===================================================================== *)
(** ** best_match and the alignment loop *)
(* ===================================================================== *)

Section Alignment.

Variable partial_ratio : str -> str -> Q.
Hypothesis score_nonneg : forall a b, (0 <= partial_ratio a b)%Q.

Variable col_letter : str.
Variable threshold : Z.
Variable segments : list Segment.

(** The loop of [best_match] keeps what it started with or ends on a
    segment of the list, with that segment's score. *)
Lemma best_match_from_inv (q : str) (segs : list Segment) :
  forall i best_i best_s,
    let res := best_match_from partial_ratio q segs i best_i best_s in
    res = (best_i, best_s) \/
    exists j seg,
      res = (Some j, score_of partial_ratio q seg) /\ i <= j /\
      nth_error segs (j - i) = Some seg.
Proof.
  induction segs as [|seg rest IH]; intros i best_i best_s; simpl;
    [now left|].
  assert (Shift : forall j x, S i <= j ->
            nth_error rest (j - S i) = Some x ->
            i <= j /\ nth_error (seg :: rest) (j - i) = Some x).
  { intros j x Hj Hn. split; [lia|].
    replace (j - i) with (S (j - S i)) by lia. exact Hn. }
  destruct (Qlt_bool best_s (partial_ratio q (clean_text (text seg)))).
  - right.
    destruct (IH (S i) (Some i) (partial_ratio q (clean_text (text seg))))
      as [E|(j & x & E & Hj & Hn)].
    + exists i, seg. rewrite E, Nat.sub_diag. auto.
    + exists j, x. destruct (Shift j x Hj Hn). auto.
  - destruct (IH (S i) best_i best_s) as [E|(j & x & E & Hj & Hn)];
      [now left | right].
    exists j, x. destruct (Shift j x Hj Hn). auto.
Qed.

Lemma Qlt_bool_minus_one (x : Q) : (0 <= x)%Q -> Qlt_bool (inject_Z (-1)) x = true.
Proof.
  intros H. unfold Qlt_bool. apply negb_true_iff.
  destruct (Qle_bool x (inject_Z (-1))) eqn:E; [|reflexivity].
  apply Qle_bool_iff in E. pose proof (Qle_trans _ _ _ H E) as T.
  exfalso. revert T. unfold Qle. simpl. lia.
Qed.

(** On a transcript that is not empty the loop always ends on a segment. *)
Lemma best_match_from_start (q : str) :
  segments <> [] ->
  exists j seg,
    best_match_from partial_ratio q segments 0 None (inject_Z (-1))
    = (Some j, score_of partial_ratio q seg) /\
    nth_error segments j = Some seg.
Proof.
  destruct segments as [|seg rest]; [congruence|]. intros _. simpl.
  rewrite (Qlt_bool_minus_one _ (score_nonneg q (clean_text (text seg)))).
  destruct (best_match_from_inv q rest 1 (Some 0)
              (partial_ratio q (clean_text (text seg))))
    as [E|(j & x & E & Hj & Hn)].
  - exists 0, seg. rewrite E. auto.
  - exists j, x. rewrite E. split; [reflexivity|].
    destruct j as [|j]; [lia|]. simpl.
    replace (S j - 1) with j in Hn by lia. exact Hn.
Qed.

Lemma best_match_empty (phrase : str) :
  clean_text phrase = [] ->
  best_match partial_ratio phrase segments = (None, 0%Z).
Proof. intros H. unfold best_match. now rewrite H. Qed.

Lemma best_match_found (phrase : str) :
  segments <> [] -> clean_text phrase <> [] ->
  exists j seg,
    best_match partial_ratio phrase segments
    = (Some j, py_int (score_of partial_ratio (clean_text phrase) seg)) /\
    nth_error segments j = Some seg.
Proof.
  intros Hs Hq. unfold best_match.
  destruct (clean_text phrase) as [|c t] eqn:E; [congruence|].
  destruct (best_match_from_start (c :: t) Hs) as (j & seg & Eb & Hn).
  rewrite Eb. exists j, seg. auto.
Qed.

Lemma align_row_found (aligns : list Align) (warns : list Warn) (r : SheetRow) :
  segments <> [] -> clean_text (phrase_of col_letter r) <> [] ->
  exists j seg,
    let score := py_int (score_of partial_ratio (clean_text (phrase_of col_letter r)) seg) in
    best_match partial_ratio (phrase_of col_letter r) segments
    = (Some j, score) /\
    nth_error segments j = Some seg /\
    align_row partial_ratio col_letter threshold segments (aligns, warns) r
    = Ok (aligns ++ [placement col_letter r seg score], warns ++ low_score col_letter threshold r score).
Proof.
  intros Hs Hq. destruct (best_match_found _ Hs Hq) as (j & seg & Eb & Hn).
  exists j, seg. cbv zeta. split; [exact Eb|]. split; [exact Hn|].
  unfold align_row. rewrite Eb, Hn. unfold low_score, placement.
  destruct (_ <? threshold)%Z; [reflexivity | now rewrite app_nil_r].
Qed.

Lemma align_row_empty (aligns : list Align) (warns : list Warn) (r : SheetRow) :
  clean_text (phrase_of col_letter r) = [] ->
  align_row partial_ratio col_letter threshold segments (aligns, warns) r
  = Ok (aligns,
        warns ++ [NoMatch (row_number r) (firstn 100 (phrase_of col_letter r))]).
Proof.
  intros Hq. unfold align_row. now rewrite (best_match_empty _ Hq).
Qed.

(** The loop goes through all the rows and keeps what was recorded. *)
Lemma align_rows_total (rows : list SheetRow) :
  segments <> [] ->
  forall aligns warns,
  exists aligns' warns',
    align_rows partial_ratio col_letter threshold segments (aligns, warns) rows
    = Ok (aligns', warns') /\
    incl aligns aligns' /\ incl warns warns' /\
    forall r, In r rows ->
      (clean_text (phrase_of col_letter r) = [] ->
       In (NoMatch (row_number r) (firstn 100 (phrase_of col_letter r))) warns') /\
      (clean_text (phrase_of col_letter r) <> [] ->
       exists seg score,
         In seg segments /\ In (placement col_letter r seg score) aligns' /\
         incl (low_score col_letter threshold r score) warns').
Proof.
  intros Hs. induction rows as [|r rest IH]; intros aligns warns.
  - exists aligns, warns. simpl. repeat split; try apply incl_refl.
    + destruct H.
    + destruct H.
  - cbn [align_rows].
    destruct (clean_text (phrase_of col_letter r)) as [|c t] eqn:Eq.
    + rewrite (align_row_empty aligns warns r Eq). cbn [bind].
      destruct (IH aligns (warns ++ [NoMatch (row_number r)
                                       (firstn 100 (phrase_of col_letter r))]))
        as (a' & w' & Er & Ha & Hw & Hrows).
      exists a', w'. split; [exact Er|]. split; [exact Ha|].
      split; [intros x Hx; apply Hw, in_or_app; now left|].
      intros r' [<-|Hin]; [|now apply Hrows].
      split; [|congruence].
      intros _. apply Hw, in_or_app. right. now left.
    + assert (Hq : clean_text (phrase_of col_letter r) <> [])
        by (rewrite Eq; discriminate).
      destruct (align_row_found aligns warns r Hs Hq)
        as (j & seg & _ & Hn & Erow).
      cbv zeta in Erow. rewrite Erow. cbn [bind].
      set (score := py_int (score_of partial_ratio (clean_text (phrase_of col_letter r)) seg))
        in *.
      destruct (IH (aligns ++ [placement col_letter r seg score])
                   (warns ++ low_score col_letter threshold r score))
        as (a' & w' & Er & Ha & Hw & Hrows).
      exists a', w'. split; [exact Er|].
      split; [intros x Hx; apply Ha, in_or_app; now left|].
      split; [intros x Hx; apply Hw, in_or_app; now left|].
      intros r' [<-|Hin]; [|now apply Hrows].
      split; [rewrite Eq; discriminate|].
      intros _. exists seg, score. split; [now apply nth_error_In in Hn|].
      split; [apply Ha, in_or_app; right; now left|].
      intros x Hx. apply Hw, in_or_app. now right.
Qed.

(** C6: with a transcript that is not empty (the loop is not entered
    otherwise) and a scorer that gives no negative score, [best_match]
    returns no index exactly when the normalized phrase is empty.  A row
    with an empty normalized phrase only gets a warning; any other row gets
    a placement with the start and end of the chosen segment, whatever the
    score is, and a warning besides when the score is below the threshold.
    The loop raises nothing: every row of the table is handled that way. *)
Theorem alignment_never_fails :
  segments <> [] ->
  (forall phrase,
     fst (best_match partial_ratio phrase segments) = None
     <-> clean_text phrase = []) /\
  (forall aligns warns r,
     clean_text (phrase_of col_letter r) = [] ->
     align_row partial_ratio col_letter threshold segments (aligns, warns) r
     = Ok (aligns,
           warns ++ [NoMatch (row_number r)
                       (firstn 100 (phrase_of col_letter r))])) /\
  (forall aligns warns r,
     clean_text (phrase_of col_letter r) <> [] ->
     exists j seg score,
       best_match partial_ratio (phrase_of col_letter r) segments
       = (Some j, score) /\
       nth_error segments j = Some seg /\
       align_row partial_ratio col_letter threshold segments (aligns, warns) r
       = Ok (aligns ++ [mkAlign (row_number r) (phrase_of col_letter r)
                          (start seg) (end_ seg) score],
             warns ++ if (score <? threshold)%Z
                      then [LowScore (row_number r) score
                              (firstn 100 (phrase_of col_letter r))]
                      else [])) /\
  (forall rows,
     exists aligns warns,
       align_flow partial_ratio col_letter threshold segments rows
       = Some (Ok (aligns, warns)) /\
       forall r, In r rows ->
         (clean_text (phrase_of col_letter r) = [] ->
          In (NoMatch (row_number r) (firstn 100 (phrase_of col_letter r)))
             warns) /\
         (clean_text (phrase_of col_letter r) <> [] ->
          exists seg score,
            In seg segments /\
            In (mkAlign (row_number r) (phrase_of col_letter r)
                  (start seg) (end_ seg) score) aligns /\
            ((score <? threshold)%Z = true ->
             In (LowScore (row_number r) score
                   (firstn 100 (phrase_of col_letter r))) warns))).
Proof.
  intros Hs. split; [|split; [|split]].
  - intros phrase. split.
    + intros H. destruct (clean_text phrase) as [|c t] eqn:E; [reflexivity|].
      assert (Hq : clean_text phrase <> []) by (rewrite E; discriminate).
      destruct (best_match_found phrase Hs Hq) as (j & seg & Eb & _).
      rewrite Eb in H. discriminate.
    + intros H. now rewrite (best_match_empty _ H).
  - intros aligns warns r. apply align_row_empty.
  - intros aligns warns r Hq.
    destruct (align_row_found aligns warns r Hs Hq) as (j & seg & H).
    exists j, seg, (py_int (score_of partial_ratio (clean_text (phrase_of col_letter r)) seg)).
    exact H.
  - intros rows.
    destruct (align_rows_total rows Hs [] []) as (a & w & E & _ & _ & Hrows).
    exists a, w. split.
    + unfold align_flow. destruct segments; [congruence | now rewrite E].
    + intros r Hr. destruct (Hrows r Hr) as [H1 H2]. split; [exact H1|].
      intros Hq. destruct (H2 Hq) as (seg & score & Hseg & Ha & Hl).
      exists seg, score. split; [exact Hseg|]. split; [exact Ha|].
      intros Hlow. apply Hl. unfold low_score. rewrite Hlow. now left.
Qed.

End Alignment.


(* ===================================================================== *)
(** ** load_transcript_json *)
(* ===================================================================== *)

(** *** The sort *)

Lemma insert_by_start_perm (x : Segment) (l : list Segment) :
  Permutation (insert_by_start x l) (x :: l).
Proof.
  induction l as [|y t IH]; simpl; [reflexivity|].
  destruct (flt (start y) (start x)); [|reflexivity].
  rewrite IH. apply perm_swap.
Qed.

Lemma stable_by_start_perm (l : list Segment) :
  Permutation (stable_by_start l) l.
Proof.
  induction l as [|x t IH]; simpl; [reflexivity|].
  rewrite insert_by_start_perm. now constructor.
Qed.

Lemma Qle_bool_false (a b : Q) : Qle_bool a b = false -> (b <= a)%Q.
Proof.
  intros H. apply Qlt_le_weak, Qnot_le_lt. intros L.
  apply Qle_bool_iff in L. congruence.
Qed.

(** Among floats that are no NaN, [<] and [<=] are those of an order. *)
Lemma flt_false_fle (a b : pyfloat) :
  is_nan a = false -> is_nan b = false -> flt a b = false -> fle b a = true.
Proof.
  destruct a as [x|[]|], b as [y|[]|]; simpl; intros Ha Hb H;
    try discriminate; try reflexivity.
  now destruct (Qle_bool y x).
Qed.

Lemma flt_true_fle (a b : pyfloat) : flt a b = true -> fle a b = true.
Proof.
  destruct a as [x|[]|], b as [y|[]|]; simpl; intros H;
    try discriminate; try reflexivity.
  destruct (Qle_bool y x) eqn:E; [discriminate|].
  apply Qle_bool_iff. now apply Qle_bool_false.
Qed.

Lemma has_nan_start_false (l : list Segment) :
  has_nan_start l = false <->
  forall seg, In seg l -> is_nan (start seg) = false.
Proof.
  unfold has_nan_start. split.
  - intros H seg Hin. destruct (is_nan (start seg)) eqn:E; [|reflexivity].
    assert (T : existsb (fun seg => is_nan (start seg)) l = true)
      by (apply existsb_exists; eauto).
    congruence.
  - intros H. destruct (existsb _ l) eqn:E; [|reflexivity].
    apply existsb_exists in E as (seg & Hin & E).
    rewrite (H seg Hin) in E. discriminate.
Qed.

Lemma insert_by_start_hd (x a : Segment) (l : list Segment) :
  by_start a x -> HdRel by_start a l -> HdRel by_start a (insert_by_start x l).
Proof.
  intros Hax Hl. destruct l as [|y t]; simpl; [now constructor|].
  destruct (flt (start y) (start x)); constructor; [|exact Hax].
  now inversion Hl.
Qed.

Lemma insert_by_start_sorted (x : Segment) (l : list Segment) :
  is_nan (start x) = false ->
  (forall seg, In seg l -> is_nan (start seg) = false) ->
  Sorted by_start l -> Sorted by_start (insert_by_start x l).
Proof.
  intros Hx. induction l as [|y t IH]; intros Hl Hs; simpl.
  - repeat constructor.
  - inversion Hs as [|? ? Hs' Hhd]; subst.
    destruct (flt (start y) (start x)) eqn:E.
    + constructor.
      * apply IH; [|exact Hs']. intros seg Hin. apply Hl. now right.
      * apply insert_by_start_hd; [|exact Hhd].
        now apply flt_true_fle.
    + constructor; [exact Hs|]. constructor.
      apply flt_false_fle; [|exact Hx|exact E].
      apply Hl. now left.
Qed.

Lemma stable_by_start_sorted (l : list Segment) :
  (forall seg, In seg l -> is_nan (start seg) = false) ->
  Sorted by_start (stable_by_start l).
Proof.
  induction l as [|x t IH]; intros Hl; simpl; [constructor|].
  apply insert_by_start_sorted.
  - apply Hl. now left.
  - intros seg Hin. apply Hl. right.
    now apply (Permutation_in seg (stable_by_start_perm t)).
  - apply IH. intros seg Hin. apply Hl. now right.
Qed.

Section Loading.

Variable str_of : json -> str.
Variable float_of_str : str -> option pyfloat.
Variable float_of_int : Z -> option Q.
Variable sort_with_nan : list Segment -> list Segment.

Let item := load_item str_of float_of_str float_of_int.
Let items_from := load_items str_of float_of_str float_of_int.
Let load :=
  load_transcript_json str_of float_of_str float_of_int sort_with_nan.
Let to_float := py_float float_of_str float_of_int.

(** *** The loop *)

Lemma load_items_app (l1 l2 : list json) :
  forall out,
    items_from (l1 ++ l2) out =
    bind (items_from l1 out) (fun out' => items_from l2 out').
Proof.
  subst items_from. induction l1 as [|it t IH]; intros out; simpl;
    [reflexivity|].
  destruct (load_item str_of float_of_str float_of_int it) as [[seg|]|e];
    [apply IH | apply IH | reflexivity].
Qed.

(** Without an exception the loop appends the segments of the elements
    that resolve. *)
Lemma load_items_kept (l : list json) :
  (forall it, In it l -> exists o, item it = Ok o) ->
  forall out, items_from l out = Ok (out ++ kept item l).
Proof.
  subst item items_from. induction l as [|it t IH]; intros Hok out; simpl.
  - now rewrite app_nil_r.
  - destruct (Hok it (or_introl eq_refl)) as [o Eo].
    assert (Ht : forall x, In x t ->
                   exists o,
                     load_item str_of float_of_str float_of_int x = Ok o)
      by (intros x Hx; apply Hok; now right).
    unfold kept. simpl. rewrite Eo. destruct o as [seg|].
    + rewrite (IH Ht). unfold kept. now rewrite <- app_assoc.
    + now rewrite (IH Ht).
Qed.

(** The loop raises when an element does, and only then. *)
Lemma load_items_raise (l : list json) :
  forall out,
    (exists e, items_from l out = Raise e) <->
    exists it, In it l /\ exists e, item it = Raise e.
Proof.
  subst item items_from. induction l as [|it t IH]; intros out; simpl.
  - split; [intros [e H]; discriminate | intros (it & [] & _)].
  - destruct (load_item str_of float_of_str float_of_int it)
      as [[seg|]|e] eqn:E.
    + rewrite IH. split.
      * intros (x & Hx & Hr). eauto.
      * intros (x & [<-|Hx] & e & Hr); [congruence|eauto].
    + rewrite IH. split.
      * intros (x & Hx & Hr). eauto.
      * intros (x & [<-|Hx] & e & Hr); [congruence|eauto].
    + split; [|eauto]. intros _. exists it. split; [now left|eauto].
Qed.

(** *** One element *)

Lemma unresolvable_dropped (it : json) : unresolvable it -> item it = Ok None.
Proof.
  subst item. intros [Hobj|(fields & -> & Hse & Hts)].
  - destruct it; try reflexivity. discriminate.
  - unfold load_item. cbv zeta.
    set (ts := obj_get fields (py "timestamp")) in *.
    set (st := obj_get fields (py "start")) in *.
    set (en := obj_get fields (py "end")) in *.
    clearbody ts st en. rewrite Hse.
    destruct Hts as [Hf|(s & -> & Ep)].
    + rewrite Hf. cbn [andb bind]. now rewrite Hse.
    + unfold parse_timestamp_str. destruct s as [|c t].
      * cbn [truthy andb bind]. now rewrite Hse.
      * cbn [truthy andb negb bind]. now rewrite Ep.
Qed.

(** What the last step of the loop body gives on two values that are
    there. *)
Lemma floats_of (a b : json) (txt : str) :
  is_none a || is_none b = false ->
  (if is_none a || is_none b then Ok None
   else bind (to_float a) (fun s =>
        bind (to_float b) (fun e => Ok (Some (mkSeg txt s e)))))
  = match to_float a, to_float b with
    | Ok s, Ok e => Ok (Some (mkSeg txt s e))
    | Raise x, _ => Raise x
    | Ok _, Raise x => Raise x
    end.
Proof.
  intros H. rewrite H. destruct (to_float a); [|reflexivity].
  now destruct (to_float b).
Qed.

Lemma num_to_float (v : json) :
  num_or_none float_of_int v = true -> is_none v = false ->
  exists q, to_float v = Ok (Fin q).
Proof.
  subst to_float. intros Hn Hi.
  destruct v as [| |z|[q| |]| | |]; try discriminate Hn; try discriminate Hi.
  - simpl in *. destruct (float_of_int z) as [q|]; [eauto|discriminate].
  - simpl. eauto.
Qed.

(** An element of the documented shape raises nothing, and the segment it
    gives, if any, starts at a finite time. *)
Lemma documented_loads (it : json) :
  documented float_of_int it = true ->
  exists o, item it = Ok o /\
            forall seg, o = Some seg -> is_nan (start seg) = false.
Proof.
  subst item. destruct it as [| | | | | |fields];
    try (intros _; eexists; split; [reflexivity|discriminate]).
  unfold documented, load_item. cbv zeta.
  set (txt := text_of str_of (obj_get fields (py "text"))).
  set (ts := obj_get fields (py "timestamp")).
  set (st := obj_get fields (py "start")).
  set (en := obj_get fields (py "end")).
  clearbody txt ts st en.
  intros H. apply andb_true_iff in H as [H He].
  apply andb_true_iff in H as [Ht Hs].
  assert (Hnum : forall a b : json,
            num_or_none float_of_int a = true ->
            num_or_none float_of_int b = true ->
            exists o,
              (if is_none a || is_none b then Ok None
               else bind (py_float float_of_str float_of_int a) (fun s =>
                    bind (py_float float_of_str float_of_int b) (fun e =>
                    Ok (Some (mkSeg txt s e))))) = Ok o /\
              forall seg, o = Some seg -> is_nan (start seg) = false).
  { intros a b Ha Hb. destruct (is_none a || is_none b) eqn:N.
    - eexists. split; [reflexivity|discriminate].
    - apply orb_false_iff in N as [Na Nb].
      destruct (num_to_float a Ha Na) as [qa Ea].
      destruct (num_to_float b Hb Nb) as [qb Eb].
      subst to_float. rewrite Ea, Eb. cbn [bind].
      eexists. split; [reflexivity|].
      intros seg E. injection E as <-. reflexivity. }
  destruct ts as [| | | |s| |]; try discriminate.
  - cbn [truthy andb bind]. now apply Hnum.
  - unfold parse_timestamp_str.
    destruct (truthy (JStr s) && (is_none st || is_none en)).
    + destruct s as [|c t]; cbn [truthy negb bind].
      * cbn [is_none orb]. eexists. split; [reflexivity|discriminate].
      * destruct (parse_timestamp_text (c :: t)) as [[a b]|]; cbn [bind].
        -- now apply (Hnum (JFloat (Fin a)) (JFloat (Fin b))).
        -- cbn [is_none orb]. eexists. split; [reflexivity|discriminate].
    + cbn [bind]. now apply Hnum.
Qed.

(** The elements that raise. *)
Lemma raising_raises (it : json) :
  (exists e, item it = Raise e) <->
  raising float_of_str float_of_int it = true.
Proof.
  subst item. destruct it as [| | | | | |fields];
    try (split; [intros [e H]; discriminate | discriminate]).
  unfold raising, load_item. cbv zeta.
  set (txt := text_of str_of (obj_get fields (py "text"))).
  set (ts := obj_get fields (py "timestamp")).
  set (st := obj_get fields (py "start")).
  set (en := obj_get fields (py "end")).
  clearbody txt ts st en.
  destruct (is_none st || is_none en) eqn:N.
  - rewrite andb_true_r. unfold parse_timestamp_str.
    destruct (truthy ts) eqn:T; cbn [negb andb bind].
    + destruct ts as [| | | |s| |]; cbn [is_str negb bind];
        try (split; [reflexivity | intros _; eexists; reflexivity]).
      destruct (parse_timestamp_text s) as [[a b]|]; cbn [bind is_none orb];
        (split; [intros [e H]; discriminate | discriminate]).
    + rewrite N. split; [intros [e H]; discriminate | discriminate].
  - assert (E : bind (if truthy ts && false
                      then bind (parse_timestamp_str ts) (fun r =>
                             match r with
                             | Some (s, e) =>
                                 Ok (JFloat (Fin s), JFloat (Fin e))
                             | None => Ok (JNull, JNull)
                             end)
                      else Ok (st, en))
                   (fun se =>
                      let '(start, end_) := se in
                      if is_none start || is_none end_ then Ok None
                      else bind (py_float float_of_str float_of_int start)
                             (fun s =>
                           bind (py_float float_of_str float_of_int end_)
                             (fun e => Ok (Some (mkSeg txt s e)))))
                 = match to_float st, to_float en with
                   | Ok s, Ok e => Ok (Some (mkSeg txt s e))
                   | Raise x, _ => Raise x
                   | Ok _, Raise x => Raise x
                   end).
    { rewrite andb_false_r. cbn [bind]. now apply floats_of. }
    rewrite E. subst to_float.
    destruct (py_float float_of_str float_of_int st) as [s|x];
      [destruct (py_float float_of_str float_of_int en) as [e|x]|];
      cbn [is_raise orb];
      (split; [intros [e0 H]; try discriminate H; reflexivity
              | intros H; try discriminate H; eexists; reflexivity]).
Qed.

(** C7, as the code has it: on an array whose elements have the documented
    shape (a timestamp that is a string or absent, [start] and [end] that
    are absent or finite numbers [float] takes) loading raises nothing; the
    result is sorted by start and holds exactly the segments of the
    elements that resolve; an element without a resolvable start or end,
    such as one whose timestamp string matches neither pattern,
    contributes nothing: the result is the same without it.  On any array,
    loading raises exactly when an element is an object that lacks [start]
    or [end] and has a truthy timestamp that is no string, or that has
    both and [float] rejects one of them. *)
Theorem load_transcript_documented (items : list json) :
  forallb (documented float_of_int) items = true ->
  (exists out,
     load (JArr items) = Ok out /\
     Sorted by_start out /\
     Permutation out (kept item items) /\
     (forall l1 it l2,
        items = l1 ++ it :: l2 -> unresolvable it ->
        load (JArr (l1 ++ l2)) = Ok out)) /\
  (forall elements,
     (exists e, load (JArr elements) = Raise e) <->
     exists it, In it elements /\
                raising float_of_str float_of_int it = true).
Proof.
  intros Hdoc. rewrite forallb_forall in Hdoc. split.
  - assert (Hok : forall it, In it items -> exists o, item it = Ok o).
    { intros it Hit. destruct (documented_loads it (Hdoc it Hit)) as (o & E & _).
      eauto. }
    assert (Hfin : forall seg, In seg (kept item items) ->
                     is_nan (start seg) = false).
    { intros seg Hin. unfold kept in Hin.
      apply in_flat_map in Hin as (it & Hit & Hseg).
      destruct (documented_loads it (Hdoc it Hit)) as (o & E & F).
      rewrite E in Hseg. destruct o as [seg'|]; [|destruct Hseg].
      destruct Hseg as [<-|[]]. now apply F. }
    assert (Hsort : sort_by_start sort_with_nan (kept item items)
                    = stable_by_start (kept item items)).
    { unfold sort_by_start.
      now rewrite (proj2 (has_nan_start_false (kept item items)) Hfin). }
    exists (stable_by_start (kept item items)).
    assert (Hload : load (JArr items)
                    = Ok (stable_by_start (kept item items))).
    { subst load. unfold load_transcript_json. simpl.
      fold items_from. rewrite (load_items_kept items Hok []). simpl.
      now rewrite Hsort. }
    split; [exact Hload|].
    split; [now apply stable_by_start_sorted|].
    split; [apply stable_by_start_perm|].
    intros l1 it l2 E Hun. rewrite <- Hload. subst load.
    unfold load_transcript_json. simpl. fold items_from.
    rewrite E, !load_items_app. simpl.
    destruct (items_from l1 []) as [out1|e]; [|reflexivity]. simpl.
    fold item. now rewrite (unresolvable_dropped it Hun).
  - intros elements.
    assert (R : (exists e, load (JArr elements) = Raise e) <->
                (exists e, items_from elements [] = Raise e)).
    { subst load. unfold load_transcript_json. simpl. fold items_from.
      destruct (items_from elements []) as [out|e]; simpl.
      - split; intros [e H]; discriminate.
      - split; intros _; eauto. }
    rewrite R, (load_items_raise elements []). split.
    + intros (it & Hin & Hr). exists it. split; [exact Hin|].
      now apply raising_raises.
    + intros (it & Hin & Hr). exists it. split; [exact Hin|].
      now apply raising_raises.
Qed.

End Loading.


Lemma exact_ratio_nonneg (a b : str) : (0 <= exact_ratio a b)%Q.
Proof. unfold exact_ratio. destruct (str_eqb a b); discriminate. Qed.

(** Three rows against the two segments of the example: a phrase that is
    a segment's text up to case and punctuation, a phrase of punctuation
    only, and a phrase no segment resembles. *)
Lemma alignment_never_fails_witness :
  [seg_hello; seg_bye] <> [] /\
  align_flow exact_ratio (py "A") 70 [seg_hello; seg_bye]
    [row_of 1 (py "Hello, World!"); row_of 2 (py "?!");
     row_of 3 (py "something else")]
  = Some (Ok ([mkAlign 1 (py "Hello, World!") (Fin 0) (Fin 2) 100;
               mkAlign 3 (py "something else") (Fin 0) (Fin 2) 0],
              [NoMatch 2 (py "?!"); LowScore 3 0 (py "something else")])).
Proof.
  assert (Hne : [seg_hello; seg_bye] <> []) by discriminate.
  split; [exact Hne|].
  destruct (alignment_never_fails exact_ratio exact_ratio_nonneg (py "A") 70
              [seg_hello; seg_bye] Hne) as (_ & _ & _ & Hall).
  destruct (Hall [row_of 1 (py "Hello, World!"); row_of 2 (py "?!");
                  row_of 3 (py "something else")]) as (a & w & E & _).
  rewrite E. vm_compute in E. injection E as <- <-. reflexivity.
Defined.

(** An array of the documented shape: a timestamp, a timestamp no pattern
    matches, explicit numbers, and a value that is not an object. *)
Lemma load_transcript_documented_witness :
  let items :=
    [JObj [(py "text", JStr (py "b")); (py "timestamp", JStr (py "00:02-00:04"))];
     JObj [(py "text", JStr (py "x")); (py "timestamp", JStr (py "bad-format"))];
     JObj [(py "text", JStr (py "a")); (py "start", JInt 0);
           (py "end", JFloat (Fin 2))];
     JInt 5] in
  forallb (documented float_near) items = true /\
  exists out,
    load_transcript_json str_blank float_rejects float_near sort_kept
      (JArr items) = Ok out /\
    map text out = [py "a"; py "b"] /\
    Sorted by_start out.
Proof.
  intros items. split; [reflexivity|].
  destruct (load_transcript_documented str_blank float_rejects float_near
              sort_kept items eq_refl) as [(out & Hl & Hs & _) _].
  exists out. split; [exact Hl|]. split; [|exact Hs].
  vm_compute in Hl. injection Hl as <-. reflexivity.
Defined.

(** An element with neither start nor end whose timestamp is a number: it
    has no resolvable start or end, and loading raises [TypeError] instead
    of dropping it.  A start that is not a number raises [ValueError], an
    integer too large for a float [OverflowError]. *)
Lemma numeric_timestamp_raises :
  let it := JObj [(py "text", JStr (py "x")); (py "timestamp", JInt 12)] in
  let it' := JObj [(py "text", JStr (py "y")); (py "start", JStr (py "soon"));
                   (py "end", JInt 2)] in
  let it'' := JObj [(py "text", JStr (py "z")); (py "start", JInt (2 ^ 1024));
                    (py "end", JInt 2)] in
  load_transcript_json str_blank float_rejects float_near sort_kept
    (JArr [it]) = Raise TypeError /\
  load_transcript_json str_blank float_rejects float_near sort_kept
    (JArr [it']) = Raise ValueError /\
  load_transcript_json str_blank float_rejects float_near sort_kept
    (JArr [it'']) = Raise OverflowError /\
  forall out,
    load_transcript_json str_blank float_rejects float_near sort_kept
      (JArr [it]) <> Ok out.
Proof.
  intros it it' it''. split; [reflexivity|]. split; [reflexivity|].
  split; [reflexivity|].
  intros out H. vm_compute in H. discriminate.
Qed.


(* ===================================================================== *)
(** ** The invariants hold all along a pass *)
(* ===================================================================== *)

Lemma process_row_wf (sc : str -> str -> Q)
  (os_fails : list Path -> Path -> Path -> bool)
  (st_fails : list Path -> Path -> bool) (th : Z)
  (st st' : State) (row : Row) (o : Outcome) :
  wf (registry st) ->
  process_row sc os_fails st_fails th st row = Some (st', o) ->
  wf (registry st').
Proof.
  intros Hwf. destruct row as [[row_idx new_name] title].
  unfold process_row.
  destruct (take sc (registry st) title th) as [[source|] reg] eqn:Et.
  - destruct (take_some _ _ _ _ _ _ Hwf Et) as [-> Hin].
    destruct (wf_unregister _ _ Hwf Hin) as [Hwf1 _].
    destruct (with_name source _) as [target|]; [|discriminate].
    destruct (Path_eqb target source);
      [|destruct (exists_ st_fails (fs st) target) as [[|]|];
        [|destruct (rename os_fails (fs st) source target)|]];
      intros H; try discriminate H; injection H as <- _; simpl;
      now apply wf_register.
  - apply take_none in Et. subst reg.
    intros H. injection H as <- _. exact Hwf.
Qed.

Lemma run_rows_wf (sc : str -> str -> Q)
  (os_fails : list Path -> Path -> Path -> bool)
  (st_fails : list Path -> Path -> bool) (th : Z) (rows : list Row) :
  forall st st' os,
    wf (registry st) ->
    run_rows sc os_fails st_fails th st rows = Some (st', os) ->
    wf (registry st').
Proof.
  induction rows as [|row rest IH]; intros st st' os Hwf.
  - intros H. injection H as <- _. exact Hwf.
  - rewrite run_rows_cons.
    destruct (process_row sc os_fails st_fails th st row) as [[st1 o]|] eqn:Ep;
      [|discriminate].
    destruct (run_rows sc os_fails st_fails th st1 rest) as [[st2 os2]|] eqn:Er;
      [|discriminate].
    intros H. injection H as <- _.
    apply (IH st1 st2 os2); [|exact Er].
    now apply (process_row_wf sc os_fails st_fails th st st1 row o).
Qed.

(** Where [exists] raises for no path, a pass from the registry of a
    folder resolves every row, and its final registry is well formed. *)
Lemma pass_total (sc : str -> str -> Q)
  (os_fails : list Path -> Path -> Path -> bool)
  (st_fails : list Path -> Path -> bool) (th : Z)
  (pool tree : list Path) (rows : list Row) :
  (forall t p, st_fails t p = false) ->
  forallb (fun p => valid_name (name p)) pool = true ->
  exists st os,
    run_rows sc os_fails st_fails th (initial_state pool tree) rows
    = Some (st, os) /\
    List.length os = List.length rows /\
    wf (registry st) /\ names_valid (registry st).
Proof.
  intros Htot Hv.
  destruct (run_rows_total sc os_fails st_fails th Htot rows
              (initial_state pool tree) (wf_names_init pool Hv))
    as (st & os & Hr & Hl & Hn).
  exists st, os. split; [exact Hr|]. split; [exact Hl|]. split; [|exact Hn].
  apply (run_rows_wf sc os_fails st_fails th rows (initial_state pool tree) st os);
    [apply wf_init | exact Hr].
Qed.

(* ===================================================================== *)
(** ** The scenarios of the rename flow *)
(* ===================================================================== *)


(** A row that renames a file found by its stem; the next row looks for
    the old name and finds nothing. *)
Example scenario_rename_then_missing :
  let intro := mkPath [py "clips"] (py "Intro Clip.mp4") in
  let broll := mkPath [py "clips"] (py "b-roll_1.mov") in
  let opening := mkPath [py "clips"] (py "Opening.mp4") in
  exists st,
    run_rows exact_ratio os_ok stat_ok 90 (initial_state [intro; broll] [intro; broll])
      [(2, py "Opening", py "Intro Clip"); (3, [], py "intro clip")]
    = Some (st, [Renamed intro opening; NotFound]) /\
    fs st = [opening; broll] /\
    renamed st = 1 /\ not_found st = 1 /\
    errors st = [ErrMissing 3 (py "intro clip")].
Proof.
  intros intro broll opening. eexists. split; [vm_compute; reflexivity|].
  repeat split.
Qed.

(** Two rows with the same key and one file: the first row gets it. *)
Example scenario_first_row_wins :
  let final := mkPath [py "clips"] (py "Final Cut.mov") in
  let one := mkPath [py "clips"] (py "one.mov") in
  exists st,
    run_rows exact_ratio os_ok stat_ok 90 (initial_state [final] [final])
      [(2, py "one", py "Final Cut"); (3, py "two", py "Final Cut")]
    = Some (st, [Renamed final one; NotFound]).
Proof.
  intros final one. eexists. vm_compute. reflexivity.
Qed.

(** [exists] is called outside the [try]: when it raises, here on a target
    name of 300 characters, the pass ends there and the row after it is
    not looked at. *)
Example scenario_exists_raises :
  run_rows exact_ratio os_ok stat_long 90 (initial_state [clip_a] [clip_a])
    [(2, repeat "x"%char 300, py "a.mp4"); (3, py "b", py "a.mp4")]
  = None /\
  exists st,
    run_rows exact_ratio os_ok stat_long 90 (initial_state [clip_a] [clip_a])
      [(3, py "b", py "a.mp4")]
    = Some (st, [Renamed clip_a clip_b]).
Proof.
  split; [vm_compute; reflexivity|]. eexists. vm_compute. reflexivity.
Qed.

(** The header row and a row without a title give no row to the loop. *)
Example scenario_get_rows :
  get_rows [[py "Cell"; py "URL"; py "Title"];
            [py " Opening "; py "https://y"; py " Intro Clip "];
            [py "Second"; py "https://z"];
            [py "Third"; py ""; py "   "]]
  = [(2, py "Opening", py "Intro Clip")].
Proof. reflexivity. Qed.

(** With the threshold at 0 a lookup that resembles nothing gets the first
    key of the index.  An Unchanged row moves its key to the end of the
    index, so the row after it receives another file than it would have
    without it. *)
Example reordering_is_observable :
  let st := initial_state [clip_a; clip_b] [clip_a; clip_b] in
  exists st',
    process_row exact_ratio os_ok stat_ok 0 st (1, py "a", py "a.mp4")
    = Some (st', Unchanged clip_a) /\
    fst (take exact_ratio (registry st) (py "zzz") 0) = Some clip_a /\
    fst (take exact_ratio (registry st') (py "zzz") 0) = Some clip_b.
Proof.
  intros st. eexists. split; [vm_compute; reflexivity|].
  split; reflexivity.
Qed.

(* ===================================================================== *)
(** ** More on names: slugify_filename and ensure_target_filename *)
(* ===================================================================== *)

Import ChangeNameMore.

Lemma strip_by_none (p : ascii -> bool) (s : str) :
  (forall c, In c s -> p c = false) -> strip_by p s = s.
Proof.
  intros H.
  assert (L : forall x, (forall c, In c x -> p c = false) -> lstrip_by p x = x).
  { intros [|c t] Hx; simpl; [reflexivity|].
    now rewrite (Hx c (or_introl eq_refl)). }
  unfold strip_by, rstrip_by. rewrite (L s H), L, rev_involutive; [reflexivity|].
  intros c Hc. apply H. now apply in_rev.
Qed.

Lemma strip_by_last (p : ascii -> bool) (s t : str) (c : ascii) :
  strip_by p s = t ++ [c] -> p c = false.
Proof.
  unfold strip_by, rstrip_by. intros H.
  apply (f_equal (@rev ascii)) in H.
  rewrite rev_involutive, rev_app_distr in H. simpl in H.
  now apply lstrip_by_head in H.
Qed.

Section Collapse.

Variable p : ascii -> bool.
Variable r : ascii.
Hypothesis p_r : forall c, p c = true -> c = r.

Lemma has_repeat_two (a b : ascii) (t : str) :
  has_repeat p (a :: b :: t) = p a && p b || has_repeat p (b :: t).
Proof. reflexivity. Qed.

(** After the collapse no two characters of the class are adjacent; [b]
    tells whether one came just before. *)
Lemma collapse_run_head (s : str) (c : ascii) (t : str) :
  collapse_run p r true s = c :: t -> p c = false.
Proof.
  induction s as [|x s IH]; simpl; [discriminate|].
  destruct (p x) eqn:E; [exact IH|].
  intros H. injection H as <- _. exact E.
Qed.

Lemma collapse_run_no_repeat (s : str) :
  forall b, has_repeat p (collapse_run p r b s) = false.
Proof.
  induction s as [|x s IH]; intros b; simpl; [reflexivity|].
  destruct (p x) eqn:E.
  - destruct b; [apply IH|].
    specialize (IH true).
    destruct (collapse_run p r true s) as [|y t] eqn:Ec; [reflexivity|].
    rewrite has_repeat_two, IH, (collapse_run_head _ _ _ Ec).
    now rewrite andb_false_r.
  - specialize (IH false).
    destruct (collapse_run p r false s) as [|y t] eqn:Ec; [reflexivity|].
    now rewrite has_repeat_two, IH, E.
Qed.

Lemma has_repeat_cons (a : ascii) (s : str) :
  has_repeat p (a :: s) = false -> has_repeat p s = false.
Proof.
  destruct s as [|b t]; [reflexivity|]. rewrite has_repeat_two.
  intros H. now apply orb_false_iff in H as [_ H].
Qed.

Lemma has_repeat_lstrip (q : ascii -> bool) (s : str) :
  has_repeat p s = false -> has_repeat p (lstrip_by q s) = false.
Proof.
  induction s as [|a t IH]; simpl; [reflexivity|].
  intros H. destruct (q a); [|exact H].
  now apply IH, (has_repeat_cons a).
Qed.

Lemma has_repeat_rev (s : str) : has_repeat p (rev s) = has_repeat p s.
Proof.
  assert (Snoc : forall x a,
             has_repeat p (x ++ [a]) =
             has_repeat p x || match rev x with
                               | b :: _ => p b && p a
                               | [] => false
                               end).
  { induction x as [|b x IH]; intros a; [reflexivity|].
    destruct x as [|c x'].
    - simpl. now rewrite !orb_false_r.
    - change ((b :: c :: x') ++ [a]) with (b :: c :: (x' ++ [a])).
      rewrite has_repeat_two.
      change (c :: (x' ++ [a])) with ((c :: x') ++ [a]).
      rewrite IH, has_repeat_two.
      rewrite <- orb_assoc. f_equal. f_equal.
      change (rev (b :: c :: x')) with (rev (c :: x') ++ [b]).
      destruct (rev (c :: x')) as [|z zs] eqn:Ez; [|reflexivity].
      apply (f_equal (@List.length ascii)) in Ez.
      rewrite length_rev in Ez. discriminate. }
  induction s as [|a t IH]; [reflexivity|].
  simpl rev. rewrite Snoc, IH, rev_involutive.
  destruct t as [|b t']; [reflexivity|].
  rewrite has_repeat_two, orb_comm. f_equal. apply andb_comm.
Qed.

Lemma has_repeat_strip (q : ascii -> bool) (s : str) :
  has_repeat p s = false -> has_repeat p (strip_by q s) = false.
Proof.
  intros H. unfold strip_by, rstrip_by.
  rewrite has_repeat_rev. apply has_repeat_lstrip.
  rewrite has_repeat_rev. now apply has_repeat_lstrip.
Qed.

(** The collapse leaves a string without repeats alone. *)
Lemma collapse_run_fixed (s : str) :
  has_repeat p s = false -> collapse_run p r false s = s.
Proof.
  assert (G : forall s b,
             has_repeat p s = false ->
             (b = true -> match s with c :: _ => p c = false | [] => True end) ->
             collapse_run p r b s = s).
  { induction s0 as [|a t IH]; intros b Hr Hb; simpl; [reflexivity|].
    pose proof (has_repeat_cons a t Hr) as Ht.
    destruct (p a) eqn:E.
    - destruct b; [specialize (Hb eq_refl); simpl in Hb; congruence|].
      rewrite (p_r a E). f_equal. apply IH; [exact Ht|].
      intros _. destruct t as [|c t']; [exact I|].
      rewrite has_repeat_two, E in Hr. simpl in Hr.
      now apply orb_false_iff in Hr as [Hr _].
    - f_equal. apply IH; [exact Ht | discriminate]. }
  intros H. apply G; [exact H | discriminate].
Qed.

End Collapse.

Lemma slug_ok_facts (c : ascii) :
  slug_ok c = true -> isspace c = false /\ c <> " "%char /\ c <> "/"%char.
Proof.
  destruct c as [[] [] [] [] [] [] [] []]; vm_compute; intros H;
    try discriminate H; repeat split; discriminate.
Qed.

Lemma is_underscore_eq (c : ascii) : is_underscore c = true -> c = "_"%char.
Proof. apply Ascii.eqb_eq. Qed.

Lemma slugify_no_repeat (s : str) :
  has_repeat is_underscore (slugify_filename s) = false.
Proof.
  unfold slugify_filename. apply has_repeat_strip, collapse_run_no_repeat.
Qed.

(** [slugify_filename]: the slug is made of letters, digits, [_], [.] and
    [-] only, has no [_] or [.] at either end and no two [_] in a row, and
    is left as it is by a second application. *)
Theorem slugify_filename_spec (s : str) :
  let r := slugify_filename s in
  (forall c, In c r -> slug_ok c = true) /\
  (forall c t, r = c :: t -> is_dot_or_underscore c = false) /\
  (forall t c, r = t ++ [c] -> is_dot_or_underscore c = false) /\
  has_repeat is_underscore r = false /\
  slugify_filename r = r.
Proof.
  intros r.
  assert (Hc : forall c, In c r -> slug_ok c = true)
    by (intros c; apply slugify_chars).
  split; [exact Hc|]. split.
  { intros c t E. subst r. unfold slugify_filename in E.
    now apply strip_by_head in E. }
  split.
  { intros t c E. subst r. unfold slugify_filename in E.
    now apply strip_by_last in E. }
  split; [apply slugify_no_repeat|].
  unfold slugify_filename at 1. fold r.
  assert (H1 : strip r = r).
  { apply strip_by_none. intros c Hin. now apply slug_ok_facts, Hc. }
  assert (H2 : replace_char " " "_" r = r).
  { unfold replace_char. apply map_fixed. intros c Hin.
    destruct (Ascii.eqb c " ") eqn:E; [|reflexivity].
    apply Ascii.eqb_eq in E. subst c.
    now apply Hc, slug_ok_facts in Hin as (_ & Hn & _). }
  assert (H3 : map (fun c => if slug_ok c then c else "_"%char) r = r).
  { apply map_fixed. intros c Hin. now rewrite (Hc c Hin). }
  rewrite H1, H2, H3.
  rewrite (collapse_run_fixed is_underscore "_" is_underscore_eq r
             (slugify_no_repeat s)).
  subst r. unfold slugify_filename. apply strip_by_idem.
Qed.

Import ChangeNameMore.

(** *** Suffixes *)

Lemma rfind_split (c : ascii) (s : str) (i : nat) :
  rfind c s = Some i ->
  exists a b, s = a ++ c :: b /\ List.length a = i /\ ~ In c b.
Proof.
  revert i. induction s as [|x t IH]; intros i; simpl; [discriminate|].
  destruct (rfind c t) as [j|] eqn:E.
  - intros H. injection H as <-.
    destruct (IH j eq_refl) as (a & b & -> & Hl & Hn).
    exists (x :: a), b. simpl. auto.
  - destruct (Ascii.eqb x c) eqn:Ex; [|discriminate].
    apply Ascii.eqb_eq in Ex. subst x. intros H. injection H as <-.
    exists [], t. repeat split.
    clear IH. induction t as [|y t IH]; [tauto|]. simpl in E.
    destruct (rfind c t); [discriminate|].
    destruct (Ascii.eqb y c) eqn:Ey; [discriminate|].
    apply Ascii.eqb_neq in Ey. intros [H|H]; [congruence | now apply IH].
Qed.

(** A suffix starts with its dot, and stem and suffix make up the name. *)
Lemma name_suffix_dot (n : str) :
  name_suffix n = [] \/ exists t, name_suffix n = "."%char :: t.
Proof.
  unfold name_suffix, has_suffix.
  destruct (rfind "." n) as [i|] eqn:E; [|now left].
  destruct ((0 <? i) && (i <? List.length n - 1)); [|now left].
  destruct (rfind_split _ _ _ E) as (a & b & -> & <- & _). right.
  exists b. rewrite skipn_app, Nat.sub_diag, skipn_all. reflexivity.
Qed.

Lemma name_stem_suffix (n : str) : name_stem n ++ name_suffix n = n.
Proof.
  unfold name_stem, name_suffix. destruct (has_suffix n) as [i|].
  - apply firstn_skipn.
  - apply app_nil_r.
Qed.

Lemma name_stem_nonempty (n : str) : n <> [] -> name_stem n <> [].
Proof.
  unfold name_stem, has_suffix. intros Hn.
  destruct (rfind "." n) as [i|] eqn:E; [|exact Hn].
  destruct ((0 <? i) && (i <? List.length n - 1)) eqn:Eb; [|exact Hn].
  apply andb_true_iff in Eb as [H0 H1].
  apply Nat.ltb_lt in H0. apply Nat.ltb_lt in H1.
  destruct n as [|x t]; [congruence|]. destruct i; [lia|]. discriminate.
Qed.

Lemma split_on_absent (sep : ascii) (s : str) :
  ~ In sep s -> split_on sep s = [s].
Proof.
  induction s as [|c t IH]; intros H; simpl; [reflexivity|].
  destruct (Ascii.eqb c sep) eqn:E.
  - apply Ascii.eqb_eq in E. subst. elim H. now left.
  - rewrite IH; [reflexivity|]. intros Hin. apply H. now right.
Qed.

Lemma no_slash_not_In (s : str) : no_slash s -> ~ In "/"%char s.
Proof.
  unfold no_slash. intros H Hin.
  assert (T : existsb (Ascii.eqb "/") s = true).
  { apply existsb_exists. exists "/"%char. split; [exact Hin | reflexivity]. }
  congruence.
Qed.

(** [Path(n).name] of a valid name is the name. *)
Lemma path_name_valid (n : str) : valid_name n = true -> path_name n = n.
Proof.
  intros H. pose proof (valid_name_no_slash n H) as Hs.
  unfold valid_name in H. apply andb_true_iff in H as [H Hdot].
  apply andb_true_iff in H as [Hne _].
  unfold path_name, path_parts.
  rewrite (split_on_absent "/" n (no_slash_not_In n Hs)). cbn [filter].
  apply negb_true_iff in Hne. apply negb_true_iff in Hdot.
  now rewrite Hne, Hdot.
Qed.

Lemma or_str_suffix_dot (a b : str) :
  let ext := or_str (name_suffix a) (name_suffix b) in
  match ext with
  | c :: _ => if Ascii.eqb c "." then ext else "."%char :: ext
  | [] => ext
  end = ext.
Proof.
  cbv zeta. destruct (name_suffix_dot a) as [Ea|(t & Ea)]; rewrite Ea; simpl.
  - destruct (name_suffix_dot b) as [Eb|(t & Eb)]; rewrite Eb; reflexivity.
  - reflexivity.
Qed.

(** The result is a slug followed by a suffix. *)
Lemma ensure_target_filename_shape (new_name : str) (source : Path) :
  exists safe,
    good_slug safe /\
    ensure_target_filename new_name source
    = safe ++ or_str (path_suffix (strip new_name)) (suffix source).
Proof.
  unfold ensure_target_filename.
  destruct (strip new_name) as [|c r] eqn:E.
  - exists (or_str (slugify_filename (stem source)) (py "file")).
    split; [apply or_str_good, file_good | reflexivity].
  - eexists. split; [apply or_str_good, or_str_good, file_good|].
    f_equal. unfold path_suffix, suffix. apply or_str_suffix_dot.
Qed.

(** [ensure_target_filename]: for a source with a valid name the result is
    a name [with_name] accepts (not empty, no separator, not [.]); it is a
    slug that is not empty and does not start with a dot, followed by the
    suffix of the new name when it has one and by the suffix of the source
    otherwise. *)
Theorem ensure_target_filename_spec (new_name : str) (source : Path) :
  valid_name (name source) = true ->
  let t := ensure_target_filename new_name source in
  valid_name t = true /\
  exists safe,
    good_slug safe /\
    t = safe ++ or_str (path_suffix (strip new_name)) (suffix source).
Proof.
  intros Hv t. split; [now apply ensure_target_filename_valid|].
  apply ensure_target_filename_shape.
Qed.

Lemma slug_fixed_facts (s : str) :
  slugify_filename s = s -> s <> [] ->
  strip s = s /\ valid_name s = true.
Proof.
  intros Hs Hne.
  assert (Hc : forall c, In c s -> slug_ok c = true)
    by (intros c Hc; apply (slugify_chars s); now rewrite Hs).
  split.
  - apply strip_by_none. intros c Hin. now apply slug_ok_facts, Hc.
  - destruct (slugify_good s) as [E|G]; [congruence|]. rewrite Hs in G.
    rewrite <- (app_nil_r s). now apply good_slug_valid.
Qed.

(** A row with an empty new name takes the stem of its file as the new
    name.  When the stem is its own slug and has no dotted suffix, the
    target is the file itself; when the stem has a dotted suffix
    ([a.b.mp4]), the target ends with that suffix of the stem ([a.b]): the
    suffix of the file is not used. *)
Theorem blank_new_name_target (source : Path) :
  valid_name (name source) = true ->
  (slugify_filename (stem source) = stem source ->
   name_suffix (stem source) = [] ->
   target_of [] source = source) /\
  (path_suffix (strip (stem source)) <> [] ->
   exists safe,
     good_slug safe /\
     name (target_of [] source)
     = safe ++ path_suffix (strip (stem source))).
Proof.
  intros Hv.
  assert (Hne : stem source <> []).
  { apply name_stem_nonempty. intros E. rewrite E in Hv. discriminate. }
  split.
  - intros Hs Hsuf. destruct (slug_fixed_facts _ Hs Hne) as [Hstrip Hvs].
    assert (Hext : match suffix source with
                   | c0 :: _ => if Ascii.eqb c0 "." then suffix source
                                else "."%char :: suffix source
                   | [] => suffix source
                   end = suffix source).
    { unfold suffix. destruct (name_suffix_dot (name source)) as [E|(t & E)];
        now rewrite E. }
    assert (E : ensure_target_filename (stem source) source = name source).
    { transitivity (stem source ++ suffix source);
        [|apply name_stem_suffix].
      unfold ensure_target_filename. rewrite Hstrip.
      remember (stem source) as st eqn:Est.
      destruct st as [|c r]; [congruence|].
      cbv beta iota zeta. unfold path_suffix, path_stem.
      rewrite (path_name_valid _ Hvs), Hsuf, Hs. cbn [or_str].
      now rewrite Hext. }
    unfold target_of. cbn [or_str]. rewrite E. now destruct source.
  - intros Hsuf.
    destruct (ensure_target_filename_shape (stem source) source)
      as (safe & Hg & Ht).
    exists safe. split; [exact Hg|]. unfold target_of. cbn [name or_str].
    rewrite Ht.
    destruct (path_suffix (strip (stem source))); [congruence | reflexivity].
Qed.

Import ChangeNameMore.

(* ===================================================================== *)
(** ** More on the registry and the pass *)
(* ===================================================================== *)

Lemma take_exact_tier (sc : str -> str -> Q) (reg : FileRegistry)
  (lookup_name : str) (min_score : Z) (l : list Path) :
  strip (path_name lookup_name) <> [] ->
  nonempty_at (by_name reg) (lower (strip (path_name lookup_name))) = Some l ->
  take sc reg lookup_name min_score = take_first reg l.
Proof.
  intros Hne Hl. unfold take.
  destruct (strip (path_name lookup_name)) as [|c t]; [congruence|].
  now rewrite Hl.
Qed.

Lemma first_sorted_single (p : Path) : first_sorted [p] = Some p.
Proof. reflexivity. Qed.

(** Adding a path and asking for its name: [take] answers from the exact
    tier with a candidate of the same name, and with the path itself when
    no other candidate has that name. *)
Theorem add_then_take (sc : str -> str -> Q) (reg : FileRegistry) (p : Path)
  (min_score : Z) :
  wf reg ->
  valid_name (name p) = true ->
  strip (name p) = name p ->
  exists q,
    take sc (add reg p) (name p) min_score
    = (Some q, _unregister (add reg p) q) /\
    name_key q = name_key p /\
    In q (candidates (by_name (add reg p))) /\
    (dget (by_name reg) (name_key p) = None -> q = p).
Proof.
  intros Hwf Hv Hs.
  set (l := match dget (by_name reg) (name_key p) with
            | Some items => items ++ [p]
            | None => [p]
            end).
  assert (Hget : dget (by_name (add reg p)) (name_key p) = Some l).
  { unfold add, _register, setdefault_append. simpl. subst l.
    destruct (dget (by_name reg) (name_key p));
      now rewrite dget_dset, str_eqb_refl. }
  assert (Hl : l <> []).
  { subst l. destruct (dget (by_name reg) (name_key p)) as [items|];
      [destruct items|]; discriminate. }
  assert (Hkey : lower (strip (path_name (name p))) = name_key p).
  { now rewrite (path_name_valid _ Hv), Hs. }
  assert (Hne : strip (path_name (name p)) <> []).
  { rewrite (path_name_valid _ Hv), Hs. intros E. rewrite E in Hv.
    discriminate. }
  destruct (take_first_some (add reg p) l Hl) as (q & Hq & Htf).
  exists q.
  rewrite (take_exact_tier sc (add reg p) (name p) min_score l Hne);
    [|rewrite Hkey; now apply nonempty_at_some].
  split; [exact Htf|].
  destruct (first_sorted_min _ _ Hq) as [Hin _].
  pose proof (dget_In _ _ _ Hget) as Hd.
  destruct (wf_register reg p Hwf) as ([_ Hk] & _ & _).
  split; [now apply (Hk _ _ Hd)|].
  split; [apply In_candidates; eauto|].
  intros Hnone. subst l. rewrite Hnone in Hq.
  rewrite first_sorted_single in Hq. now injection Hq.
Qed.

(** A successful [take] consumes its candidate: in a registry without
    duplicates the returned path was a candidate, is in neither index
    afterwards, and every other candidate stays. *)
Theorem take_consumes (sc : str -> str -> Q) (reg reg' : FileRegistry)
  (lookup_name : str) (min_score : Z) (p : Path) :
  wf reg ->
  NoDup (candidates (by_name reg)) ->
  take sc reg lookup_name min_score = (Some p, reg') ->
  In p (candidates (by_name reg)) /\
  ~ In p (candidates (by_name reg')) /\
  ~ In p (candidates (by_stem reg')) /\
  (forall q, q <> p ->
     (In q (candidates (by_name reg)) <-> In q (candidates (by_name reg')))) /\
  NoDup (candidates (by_name reg')) /\
  wf reg'.
Proof.
  intros Hwf Hnd Ht. destruct (take_some _ _ _ _ _ _ Hwf Ht) as [-> Hin].
  destruct (wf_unregister _ _ Hwf Hin) as [Hwf' Hp].
  pose proof (Permutation_NoDup Hp Hnd) as Hnd'.
  inversion Hnd' as [|? ? Hnotin Hnd'']; subst.
  split; [exact Hin|]. split; [exact Hnotin|]. split.
  { intros H. apply Hnotin. destruct Hwf' as (_ & _ & Hs).
    now apply (Permutation_in p (Permutation_sym Hs)). }
  split; [|split; [exact Hnd'' | exact Hwf']].
  intros q Hq. split; intros H.
  - apply (Permutation_in q Hp) in H. destruct H as [H|H]; [congruence|exact H].
  - apply (Permutation_in q (Permutation_sym Hp)). now right.
Qed.

(** *** What a row does to the tree *)

Lemma exists_filter (f : Path -> bool) (tree : list Path) (q : Path) :
  in_tree (filter f tree) q = f q && in_tree tree q.
Proof.
  unfold in_tree. induction tree as [|x t IH]; simpl.
  - now rewrite andb_false_r.
  - destruct (f x) eqn:Ef; simpl; rewrite IH.
    + destruct (Path_eqb q x) eqn:E; simpl.
      * apply Path_eqb_eq in E. subst. now rewrite Ef.
      * reflexivity.
    + destruct (Path_eqb q x) eqn:E; simpl; [|reflexivity].
      apply Path_eqb_eq in E. subst. now rewrite Ef.
Qed.

Lemma Path_eqb_sym (p q : Path) : Path_eqb p q = Path_eqb q p.
Proof.
  destruct (Path_eqb p q) eqn:E.
  - apply Path_eqb_eq in E. subst. now rewrite Path_eqb_refl.
  - symmetry. apply Path_eqb_neq. apply Path_eqb_neq in E. congruence.
Qed.

Lemma rename_effect (os_fails : list Path -> Path -> Path -> bool)
  (tree tree' : list Path) (s t : Path) :
  rename os_fails tree s t = Some tree' ->
  in_tree tree s = true /\
  in_tree tree' t = true /\
  (t <> s -> in_tree tree' s = false) /\
  forall q, q <> s -> q <> t -> in_tree tree' q = in_tree tree q.
Proof.
  unfold rename. destruct (os_fails tree s t); [discriminate|]. simpl.
  destruct (in_tree tree s) eqn:Es; [|discriminate]. simpl.
  intros H. injection H as <-. split; [reflexivity|].
  split; [unfold in_tree; simpl; now rewrite Path_eqb_refl|].
  split.
  - intros Hne. change (in_tree (t :: ?l) s) with (Path_eqb s t || in_tree l s).
    rewrite exists_filter, Path_eqb_refl. simpl. rewrite orb_false_r.
    apply Path_eqb_neq. congruence.
  - intros q Hs Ht.
    change (in_tree (t :: ?l) q) with (Path_eqb q t || in_tree l q).
    rewrite exists_filter.
    apply Path_eqb_neq in Hs. apply Path_eqb_neq in Ht.
    now rewrite Ht, Hs.
Qed.

(** What a row leaves behind, by outcome.  Only a Renamed row touches the
    tree: its source existed, its target did not, afterwards the target
    exists in place of the source and every other path is as before.  The
    candidate is taken out of the registry and put back, under the target
    path when the file was renamed; a NotFound row changes nothing. *)
Theorem row_effects (sc : str -> str -> Q)
  (os_fails : list Path -> Path -> Path -> bool)
  (st_fails : list Path -> Path -> bool) (th : Z)
  (st st' : State) (row : Row) (o : Outcome) :
  process_row sc os_fails st_fails th st row = Some (st', o) ->
  match o with
  | NotFound => registry st' = registry st /\ fs st' = fs st
  | Unchanged s | Conflict s _ | Error s _ =>
      fs st' = fs st /\
      registry st' = add (_unregister (registry st) s) s
  | Renamed s t =>
      registry st' = add (_unregister (registry st) s) t /\
      t <> s /\
      in_tree (fs st) s = true /\ in_tree (fs st) t = false /\
      in_tree (fs st') t = true /\ in_tree (fs st') s = false /\
      forall q, q <> s -> q <> t -> in_tree (fs st') q = in_tree (fs st) q
  end.
Proof.
  destruct row as [[row_idx new_name] title]. unfold process_row.
  destruct (take_tier sc (registry st) title th) as [E|(p & k & l & E & _)];
    rewrite E.
  - intros H. injection H as <- <-. simpl. auto.
  - destruct (with_name p _) as [target|]; [|discriminate].
    destruct (Path_eqb target p) eqn:Eq.
    { intros H. injection H as <- <-. simpl. auto. }
    unfold exists_. destruct (st_fails (fs st) target); [discriminate|].
    destruct (in_tree (fs st) target) eqn:Ex.
    { intros H. injection H as <- <-. simpl. auto. }
    destruct (rename os_fails (fs st) p target) as [tree'|] eqn:Er.
    + intros H. injection H as <- <-. simpl.
      apply Path_eqb_neq in Eq.
      destruct (rename_effect _ _ _ _ _ Er) as (H1 & H2 & H3 & H4).
      repeat split; auto.
    + intros H. injection H as <- <-. simpl. auto.
Qed.

(** *** The summary of a pass *)

Lemma process_row_counts (sc : str -> str -> Q)
  (os_fails : list Path -> Path -> Path -> bool)
  (st_fails : list Path -> Path -> bool) (th : Z)
  (st st' : State) (row : Row) (o : Outcome) :
  process_row sc os_fails st_fails th st row = Some (st', o) ->
  renamed st' = renamed st + count is_renamed [o] /\
  skipped_same st' = skipped_same st + count is_unchanged [o] /\
  not_found st' = not_found st + count is_not_found [o] /\
  conflicts st' = conflicts st + count is_conflict [o] /\
  List.length (errors st') =
    List.length (errors st) + count is_not_found [o]
    + count is_conflict [o] + count is_error [o].
Proof.
  destruct row as [[row_idx new_name] title]. unfold process_row.
  destruct (take sc (registry st) title th) as [[p|] reg].
  - destruct (with_name p _) as [target|]; [|discriminate].
    destruct (Path_eqb target p);
      [|destruct (exists_ st_fails (fs st) target) as [[|]|];
        [|destruct (rename os_fails (fs st) p target)|]];
      intros H; try discriminate H; injection H as <- <-; unfold count;
      simpl; rewrite ?length_app; simpl; repeat split; lia.
  - intros H. injection H as <- <-. unfold count. simpl.
    rewrite length_app. simpl. repeat split; lia.
Qed.

Lemma count_cons (f : Outcome -> bool) (o : Outcome) (os : list Outcome) :
  count f (o :: os) = count f [o] + count f os.
Proof. unfold count. simpl. now destruct (f o). Qed.

(** The summary [main] prints: each counter went up by the number of rows
    with that outcome, and the log got one line per row that was not
    found, ran into a conflict or failed to rename.  A failed rename is in
    the log only: no counter counts it, so the four counters add up to the
    number of rows less the failed renames. *)
Theorem pass_summary (sc : str -> str -> Q)
  (os_fails : list Path -> Path -> Path -> bool)
  (st_fails : list Path -> Path -> bool) (th : Z) (rows : list Row) :
  forall st st' os,
    run_rows sc os_fails st_fails th st rows = Some (st', os) ->
    List.length os = List.length rows /\
    renamed st' = renamed st + count is_renamed os /\
    skipped_same st' = skipped_same st + count is_unchanged os /\
    not_found st' = not_found st + count is_not_found os /\
    conflicts st' = conflicts st + count is_conflict os /\
    List.length (errors st') =
      List.length (errors st) + count is_not_found os
      + count is_conflict os + count is_error os /\
    count is_renamed os + count is_unchanged os + count is_not_found os
    + count is_conflict os + count is_error os = List.length rows.
Proof.
  induction rows as [|row rest IH]; intros st st' os.
  - intros H. injection H as <- <-. unfold count. simpl. repeat split; lia.
  - rewrite run_rows_cons.
    destruct (process_row sc os_fails st_fails th st row) as [[st1 o]|] eqn:Ep;
      [|discriminate].
    destruct (run_rows sc os_fails st_fails th st1 rest) as [[st2 os2]|] eqn:Er;
      [|discriminate].
    intros H. injection H as <- <-.
    destruct (process_row_counts _ _ _ _ _ _ _ _ Ep)
      as (A1 & A2 & A3 & A4 & A5).
    destruct (IH _ _ _ Er) as (B0 & B1 & B2 & B3 & B4 & B5 & B6).
    rewrite !(count_cons _ o os2).
    assert (One : count is_renamed [o] + count is_unchanged [o]
                  + count is_not_found [o] + count is_conflict [o]
                  + count is_error [o] = 1)
      by (destruct o; reflexivity).
    simpl List.length. repeat split; lia.
Qed.

(** *** The rows get_rows returns, in order *)

Lemma get_rows_from_lower (values : list (list str)) :
  forall first r, In r (get_rows_from first values) -> first <= row_index r.
Proof.
  induction values as [|row rest IH]; intros first r; simpl; [tauto|].
  assert (T : In r (get_rows_from (S first) rest) -> first <= row_index r).
  { intros H. apply IH in H. lia. }
  destruct ((first =? 1) && is_header row); [exact T|].
  destruct (cell_or_empty row 2); [exact T|].
  intros [<-|H]; [unfold row_index; simpl; lia | now apply T].
Qed.

Lemma get_rows_from_sorted (values : list (list str)) :
  forall first,
    StronglySorted (fun a b => row_index a < row_index b)
                   (get_rows_from first values) /\
    List.length (get_rows_from first values) <= List.length values.
Proof.
  induction values as [|row rest IH]; intros first; simpl.
  - split; [constructor | lia].
  - destruct (IH (S first)) as [Hs Hl].
    destruct ((first =? 1) && is_header row); [split; [exact Hs | lia]|].
    destruct (cell_or_empty row 2); [split; [exact Hs | lia]|].
    split; [|simpl; lia].
    constructor; [exact Hs|]. apply Forall_forall. intros r Hr.
    apply get_rows_from_lower in Hr. unfold row_index at 1. simpl. lia.
Qed.

(** [get_rows] keeps the order of the table: the row numbers it returns
    increase strictly, start at 1 at the least and do not exceed the number
    of rows of the table, so no row number comes twice. *)
Theorem get_rows_ordered (values : list (list str)) :
  StronglySorted (fun a b => row_index a < row_index b) (get_rows values) /\
  List.length (get_rows values) <= List.length values /\
  (forall r, In r (get_rows values) ->
     1 <= row_index r <= List.length values) /\
  NoDup (map row_index (get_rows values)).
Proof.
  destruct (get_rows_from_sorted values 1) as [Hs Hl].
  split; [exact Hs|]. split; [exact Hl|]. split.
  - intros [[idx new_name] key] Hr. unfold row_index. simpl.
    unfold get_rows in Hr.
    apply get_rows_from_spec in Hr as (row & H1 & Hn & _).
    split; [exact H1|].
    assert (idx - 1 < List.length values)
      by (apply nth_error_Some; congruence).
    lia.
  - unfold get_rows. clear Hl.
    induction Hs as [|r l Hs IH Hall]; simpl; constructor; [|exact IH].
    intros Hin. apply in_map_iff in Hin as (r' & Er & Hr').
    rewrite Forall_forall in Hall. specialize (Hall r' Hr'). lia.
Qed.

Import ChangeNameMore.

(** *** On sample data *)

Example slugify_filename_sample :
  slugify_filename (py "  My Video: final (1).. ") = py "My_Video_final_1".
Proof. reflexivity. Qed.

Lemma ensure_target_filename_spec_witness :
  valid_name (name clip_a) = true /\
  ensure_target_filename (py "Opening Shot.mov") clip_a = py "Opening_Shot.mov" /\
  ensure_target_filename (py "Opening Shot") clip_a = py "Opening_Shot.mp4" /\
  valid_name (ensure_target_filename (py "Opening Shot") clip_a) = true.
Proof.
  split; [reflexivity|]. split; [reflexivity|]. split; [reflexivity|].
  apply (ensure_target_filename_spec (py "Opening Shot") clip_a). reflexivity.
Defined.

(** [a.mp4] with an empty new name stays; [a.b.mp4] becomes [a.b]. *)
Lemma blank_new_name_target_witness :
  target_of [] clip_a = clip_a /\
  path_suffix (strip (stem dotted)) = py ".b" /\
  name (target_of [] dotted) = py "a.b" /\
  exists safe,
    good_slug safe /\ name (target_of [] dotted) = safe ++ py ".b".
Proof.
  split; [apply (blank_new_name_target clip_a); reflexivity|].
  split; [reflexivity|]. split; [reflexivity|].
  destruct (blank_new_name_target dotted eq_refl) as [_ H].
  destruct H as (safe & Hg & E); [discriminate|].
  exists safe. split; [exact Hg | exact E].
Defined.

(** A registry of two files gets a third one back by its name. *)
Lemma add_then_take_witness :
  valid_name (name dotted) = true /\
  strip (name dotted) = name dotted /\
  fst (take exact_ratio (add (init two_clips) dotted) (name dotted) 90)
  = Some dotted.
Proof.
  split; [reflexivity|]. split; [reflexivity|].
  destruct (add_then_take exact_ratio (init two_clips) dotted 90
              (wf_init two_clips) eq_refl eq_refl) as (q & Ht & _ & _ & Hq).
  rewrite Ht. simpl. f_equal. apply Hq. reflexivity.
Defined.

Lemma NoDup_init (pool : list Path) :
  NoDup pool -> NoDup (candidates (by_name (init pool))).
Proof.
  intros H. apply (Permutation_NoDup (Permutation_sym (init_perm pool)) H).
Qed.

(** A take of [a.mp4] from a folder of two files. *)
Lemma take_consumes_witness :
  take exact_ratio (init two_clips) (py "a.mp4") 90
  = (Some clip_a, _unregister (init two_clips) clip_a) /\
  ~ In clip_a (candidates (by_name (_unregister (init two_clips) clip_a))) /\
  In clip_b (candidates (by_name (_unregister (init two_clips) clip_a))).
Proof.
  assert (Ht : take exact_ratio (init two_clips) (py "a.mp4") 90
               = (Some clip_a, _unregister (init two_clips) clip_a))
    by reflexivity.
  split; [exact Ht|].
  destruct (take_consumes exact_ratio (init two_clips) _ (py "a.mp4") 90 clip_a
              (wf_init two_clips)
              (NoDup_init two_clips (NoDup_two clip_a clip_b eq_refl)) Ht)
    as (_ & Hout & _ & Hkeep & _).
  split; [exact Hout|].
  apply (Hkeep clip_b); [discriminate|].
  apply (Permutation_in clip_b (Permutation_sym (init_perm two_clips))).
  right. now left.
Defined.

(** The second row of the table renames [b.mp4] to [c.mp4]. *)
Lemma row_effects_witness :
  exists st',
    process_row exact_ratio os_ok stat_ok 90 (initial_state two_clips two_clips)
      (3, py "c", py "b.mp4")
    = Some (st', Renamed clip_b (mkPath [py "clips"] (py "c.mp4"))) /\
    in_tree (fs st') clip_b = false /\
    in_tree (fs st') clip_a = true.
Proof.
  destruct (process_row exact_ratio os_ok stat_ok 90
              (initial_state two_clips two_clips) (3, py "c", py "b.mp4"))
    as [[st' o]|] eqn:E; [|vm_compute in E; discriminate].
  pose proof (row_effects _ _ _ _ _ _ _ _ E) as H.
  assert (Ho : o = Renamed clip_b (mkPath [py "clips"] (py "c.mp4")))
    by (vm_compute in E; now injection E).
  subst o. destruct H as (_ & _ & _ & _ & _ & Hs & Hq).
  exists st'. split; [reflexivity|]. split; [exact Hs|].
  rewrite (Hq clip_a); [reflexivity | discriminate | discriminate].
Defined.

(** The four rows of the table: a conflict, a rename, a miss and a file
    that already has its name. *)
Lemma pass_summary_witness :
  exists st' os,
    run_rows exact_ratio os_ok stat_ok 90 (initial_state two_clips two_clips)
      table_rows = Some (st', os) /\
    (renamed st', skipped_same st', not_found st', conflicts st') = (1, 1, 1, 1) /\
    List.length (errors st') = 2.
Proof.
  destruct (run_rows exact_ratio os_ok stat_ok 90 (initial_state two_clips two_clips)
              table_rows) as [[st' os]|] eqn:E; [|vm_compute in E; discriminate].
  exists st', os. split; [reflexivity|].
  destruct (pass_summary exact_ratio os_ok stat_ok 90 table_rows _ _ _ E)
    as (_ & H1 & H2 & H3 & H4 & H5 & _).
  rewrite H1, H2, H3, H4, H5.
  vm_compute in E. injection E as <- <-. split; reflexivity.
Defined.

Import ChangeNameMore.

(* ===================================================================== *)
(** ** parse_spreadsheet_id and the threshold *)
(* ===================================================================== *)

Lemma take_while_all (p : ascii -> bool) (s : str) :
  forallb p (take_while p s) = true.
Proof.
  induction s as [|c t IH]; simpl; [reflexivity|].
  destruct (p c) eqn:E; simpl; [now rewrite E|reflexivity].
Qed.

Lemma take_while_app (p : ascii -> bool) (a rest : str) :
  forallb p a = true ->
  match rest with c :: _ => p c = false | [] => True end ->
  take_while p (a ++ rest) = a.
Proof.
  intros Ha Hr. induction a as [|c t IH]; simpl.
  - destruct rest as [|c r]; [reflexivity|]. simpl. now rewrite Hr.
  - simpl in Ha. apply andb_true_iff in Ha as [Hc Ht]. rewrite Hc.
    now rewrite IH.
Qed.

Lemma strip_prefix_self (pre r : str) : strip_prefix pre (pre ++ r) = Some r.
Proof.
  induction pre as [|a pre IH]; simpl; [now destruct r|].
  now rewrite Ascii.eqb_refl.
Qed.

Lemma id_char_facts (c : ascii) :
  id_char c = true -> isspace c = false /\ c <> "/"%char.
Proof.
  destruct c as [[] [] [] [] [] [] [] []]; vm_compute; intros H;
    try discriminate H; (split; [reflexivity | discriminate]).
Qed.

(** The search finds nothing in a string without a slash. *)
Lemma search_id_no_slash (s : str) : ~ In "/"%char s -> search_id s = None.
Proof.
  induction s as [|c t IH]; intros H; [reflexivity|].
  cbn [search_id].
  assert (E : strip_prefix id_marker (c :: t) = None).
  { unfold id_marker. cbn [py list_ascii_of_string strip_prefix].
    destruct (Ascii.eqb "/" c) eqn:Ec; [|reflexivity].
    apply Ascii.eqb_eq in Ec. subst c. elim H. now left. }
  rewrite E. apply IH. intros Hin. apply H. now right.
Qed.

Lemma search_id_some (s g : str) :
  search_id s = Some g -> g <> [] /\ forallb id_char g = true.
Proof.
  induction s as [|c t IH]; [discriminate|]. cbn [search_id].
  destruct (strip_prefix id_marker (c :: t)) as [r|]; [|exact IH].
  destruct (take_while id_char r) as [|x w] eqn:E; [exact IH|].
  intros H. injection H as <-. split; [discriminate|].
  rewrite <- E. apply take_while_all.
Qed.

(** Before the marker, a string without ["/s"] gives the search no other
    place to match. *)
Lemma search_id_after (pre id rest : str) :
  has_pair "/" "s" pre = false ->
  forallb id_char id = true -> id <> [] ->
  match rest with c :: _ => id_char c = false | [] => True end ->
  search_id (pre ++ id_marker ++ id ++ rest) = Some id.
Proof.
  intros Hp Hid Hne Hrest.
  assert (Base : search_id (id_marker ++ id ++ rest) = Some id).
  { change (search_id (id_marker ++ id ++ rest))
      with (match strip_prefix id_marker (id_marker ++ id ++ rest) with
            | Some r => match take_while id_char r with
                        | [] => search_id (py "spreadsheets/d/" ++ id ++ rest)
                        | c :: g => Some (c :: g)
                        end
            | None => search_id (py "spreadsheets/d/" ++ id ++ rest)
            end).
    rewrite strip_prefix_self, (take_while_app _ _ _ Hid Hrest).
    destruct id; [congruence | reflexivity]. }
  induction pre as [|c t IH]; [exact Base|].
  change ((c :: t) ++ id_marker ++ id ++ rest)
    with (c :: (t ++ id_marker ++ id ++ rest)).
  cbn [search_id].
  assert (Ht : has_pair "/" "s" t = false).
  { destruct t as [|d t']; [reflexivity|].
    change (has_pair "/" "s" (c :: d :: t'))
      with (Ascii.eqb c "/" && Ascii.eqb d "s" || has_pair "/" "s" (d :: t'))
      in Hp.
    now apply orb_false_iff in Hp as [_ Hp]. }
  assert (E : strip_prefix id_marker (c :: (t ++ id_marker ++ id ++ rest))
              = None).
  { unfold id_marker at 1. cbn [py list_ascii_of_string strip_prefix].
    destruct (Ascii.eqb "/" c) eqn:Ec; [|reflexivity].
    apply Ascii.eqb_eq in Ec. subst c.
    destruct t as [|d t']; [reflexivity|].
    change (has_pair "/" "s" ("/"%char :: d :: t'))
      with (Ascii.eqb "/" "/" && Ascii.eqb d "s" || has_pair "/" "s" (d :: t'))
      in Hp.
    apply orb_false_iff in Hp as [Hp _]. simpl in Hp.
    cbn [app]. rewrite Ascii.eqb_sym, Hp. reflexivity. }
  rewrite E. now apply IH.
Qed.

(** [parse_spreadsheet_id]: a result is never empty and is made of
    letters, digits, [-] and [_] only.  A string of such characters is its
    own id when it has 20 characters or more and is refused otherwise.  In
    a link the id is what follows [/spreadsheets/d/], up to the first other
    character. *)
Theorem parse_spreadsheet_id_spec :
  (forall value g,
     parse_spreadsheet_id value = Some g ->
     g <> [] /\ forallb id_char g = true) /\
  (forall value,
     forallb id_char value = true ->
     parse_spreadsheet_id value =
     if 20 <=? List.length value then Some value else None) /\
  (forall pre id rest,
     has_pair "/" "s" pre = false ->
     forallb id_char id = true -> id <> [] ->
     match rest with c :: _ => id_char c = false | [] => True end ->
     strip (pre ++ id_marker ++ id ++ rest) = pre ++ id_marker ++ id ++ rest ->
     parse_spreadsheet_id (pre ++ id_marker ++ id ++ rest) = Some id).
Proof.
  split; [|split].
  - intros value g. unfold parse_spreadsheet_id.
    destruct (search_id (strip value)) as [g'|] eqn:E.
    + intros H. injection H as <-. now apply (search_id_some (strip value)).
    + destruct (is_bare_id (strip value)) eqn:Eb; [|discriminate].
      intros H. injection H as <-. unfold is_bare_id in Eb.
      apply andb_true_iff in Eb as [Hall Hlen]. split; [|exact Hall].
      apply Nat.leb_le in Hlen. destruct (strip value); [simpl in Hlen; lia|].
      discriminate.
  - intros value Hall. rewrite forallb_forall in Hall.
    unfold parse_spreadsheet_id.
    assert (Hs : strip value = value).
    { apply strip_by_none. intros c Hc. now apply id_char_facts, Hall. }
    rewrite Hs, search_id_no_slash.
    + unfold is_bare_id.
      assert (Hf : forallb id_char value = true) by now apply forallb_forall.
      now rewrite Hf.
    + intros Hin. apply Hall in Hin. now apply id_char_facts in Hin.
  - intros pre id rest Hp Hid Hne Hrest Hs. unfold parse_spreadsheet_id.
    now rewrite Hs, (search_id_after pre id rest Hp Hid Hne Hrest).
Qed.

Lemma parse_spreadsheet_id_spec_witness :
  parse_spreadsheet_id
    (py "https://docs.google.com/spreadsheets/d/1AbC-_x/edit#gid=0")
  = Some (py "1AbC-_x") /\
  parse_spreadsheet_id (py "abcdefghij0123456789")
  = Some (py "abcdefghij0123456789") /\
  parse_spreadsheet_id (py "abcdefghij012345678") = None.
Proof.
  destruct parse_spreadsheet_id_spec as (_ & Hbare & Hlink).
  split; [|split].
  - apply (Hlink (py "https://docs.google.com") (py "1AbC-_x")
             (py "/edit#gid=0")); try reflexivity. discriminate.
  - apply (Hbare (py "abcdefghij0123456789")). reflexivity.
  - apply (Hbare (py "abcdefghij012345678")). reflexivity.
Defined.

(** *** The threshold *)

Lemma Zclamp (n : Z) : (0 <= Z.max 0 (Z.min 100 n) <= 100)%Z.
Proof. lia. Qed.

(** The threshold [main] reads: whatever the line is, a threshold that
    comes out is between 0 and 100; a line that is not made of digits gives
    the default 90; a line of up to 640 decimal digits gives its number, at
    most 100; and the only way out by an exception is a [ValueError] of
    [int]: on a line of digits among which is a superscript digit, which
    [isdigit] accepts and [int] refuses, or on more digits than the
    interpreter converts. *)
Theorem read_threshold_spec (max_str_digits : nat) (line : str) :
  (forall t, read_threshold max_str_digits line = Ok t -> (0 <= t <= 100)%Z) /\
  (str_isdigit (strip line) = false ->
   read_threshold max_str_digits line = Ok DEFAULT_MATCH_THRESHOLD) /\
  (strip line <> [] -> forallb isdigit (strip line) = true ->
   List.length (strip line) <= 640 ->
   read_threshold max_str_digits line
   = Ok (Z.min 100 (Z.of_nat (int_of_digits (strip line))))) /\
  (forall e, read_threshold max_str_digits line = Raise e ->
     e = ValueError /\
     (existsb is_superscript (strip line) = true \/
      (forallb isdigit (strip line) = true /\
       0 < max_str_digits < List.length (strip line) /\
       640 < List.length (strip line)))).
Proof.
  unfold read_threshold, int_of_str.
  set (big := (0 <? max_str_digits) && (640 <? List.length (strip line))
              && (max_str_digits <? List.length (strip line))).
  split; [|split; [|split]].
  - intros t. destruct (str_isdigit (strip line)).
    + destruct (forallb isdigit (strip line)); [|discriminate].
      destruct big; [discriminate|]. simpl.
      intros H. injection H as <-. apply Zclamp.
    + intros H. injection H as <-. unfold DEFAULT_MATCH_THRESHOLD. lia.
  - intros H. now rewrite H.
  - intros Hne Hd Hlen.
    assert (Hs : str_isdigit (strip line) = true).
    { unfold str_isdigit. destruct (strip line) as [|c t]; [congruence|].
      apply forallb_forall. intros x Hx. rewrite forallb_forall in Hd.
      now rewrite (Hd x Hx). }
    assert (Hb : big = false).
    { subst big. apply Nat.leb_le in Hlen.
      unfold Nat.ltb. destruct (640 <? List.length (strip line)) eqn:E.
      - apply Nat.ltb_lt in E. apply Nat.leb_le in Hlen. lia.
      - change (S 640 <=? List.length (strip line))
          with (640 <? List.length (strip line)).
        rewrite E. now rewrite andb_false_r. }
    rewrite Hs, Hd, Hb. simpl. f_equal. lia.
  - intros e. destruct (str_isdigit (strip line)) eqn:Hs; [|discriminate].
    destruct (forallb isdigit (strip line)) eqn:Hd.
    + destruct big eqn:Hb; [|discriminate]. simpl.
      intros H. injection H as <-. split; [reflexivity|]. right.
      subst big. apply andb_true_iff in Hb as [Hb H3].
      apply andb_true_iff in Hb as [H1 H2].
      apply Nat.ltb_lt in H1, H2, H3. repeat split; assumption.
    + simpl. intros H. injection H as <-. split; [reflexivity|]. left.
      unfold str_isdigit in Hs.
      destruct (strip line) as [|c t]; [discriminate|].
      rewrite forallb_forall in Hs.
      destruct (existsb is_superscript (c :: t)) eqn:Ex; [reflexivity|].
      exfalso. assert (T : forallb isdigit (c :: t) = true).
      { apply forallb_forall. intros x Hx. specialize (Hs x Hx).
        apply orb_true_iff in Hs as [Hs|Hs]; [exact Hs|].
        assert (existsb is_superscript (c :: t) = true)
          by (apply existsb_exists; eauto).
        congruence. }
      congruence.
Qed.

Lemma read_threshold_spec_witness :
  read_threshold 4300 (py " 250 ") = Ok 100%Z /\
  read_threshold 4300 (py "85") = Ok 85%Z /\
  read_threshold 4300 (py "high") = Ok 90%Z.
Proof.
  split; [|split].
  - apply (read_threshold_spec 4300 (py " 250 "));
      [discriminate | reflexivity | simpl; lia].
  - apply (read_threshold_spec 4300 (py "85"));
      [discriminate | reflexivity | simpl; lia].
  - apply (read_threshold_spec 4300 (py "high")). reflexivity.
Defined.

Import XmlPlaceholdersMore.

(* ===================================================================== *)
(** ** best_match picks the first best segment *)
(* ===================================================================== *)

Lemma Qlt_bool_true (a b : Q) : Qlt_bool a b = true -> (a < b)%Q.
Proof.
  unfold Qlt_bool. intros H. apply negb_true_iff in H.
  apply Qnot_le_lt. intros L. apply Qle_bool_iff in L. congruence.
Qed.

Lemma Qlt_bool_false (a b : Q) : Qlt_bool a b = false -> (b <= a)%Q.
Proof.
  unfold Qlt_bool. intros H. apply negb_false_iff in H.
  now apply Qle_bool_iff.
Qed.

Section ArgMax.

Variable partial_ratio : str -> str -> Q.
Variable q : str.

Let sc (seg : Segment) : Q := score_of partial_ratio q seg.

(** The loop of [best_match]: the final score bounds the score it started
    with and every score of the list; either nothing beat the start, or
    the loop ends on the first segment that has the final score, which
    beats the start and every segment before it. *)
Lemma best_match_from_max (segs : list Segment) :
  forall i best_i best_s,
    let res := best_match_from partial_ratio q segs i best_i best_s in
    (best_s <= snd res)%Q /\
    (forall k s, nth_error segs k = Some s -> (sc s <= snd res)%Q) /\
    (res = (best_i, best_s) \/
     exists j s,
       res = (Some (i + j), sc s) /\ nth_error segs j = Some s /\
       (best_s < sc s)%Q /\
       forall k s', k < j -> nth_error segs k = Some s' -> (sc s' < sc s)%Q).
Proof.
  induction segs as [|seg rest IH]; intros i best_i best_s; simpl.
  - split; [apply Qle_refl|]. split; [|now left].
    intros k s H. destruct k; discriminate.
  - fold (score_of partial_ratio q seg). fold (sc seg).
    destruct (Qlt_bool best_s (sc seg)) eqn:E.
    + apply Qlt_bool_true in E.
      destruct (IH (S i) (Some i) (sc seg)) as (H1 & H2 & H3).
      split; [apply Qlt_le_weak, (Qlt_le_trans _ _ _ E H1)|].
      split.
      { intros [|k] s Hk; simpl in Hk; [|now apply (H2 k)].
        injection Hk as <-. exact H1. }
      right. destruct H3 as [H3|(j & s & H3 & Hn & Hlt & Hbefore)].
      * exists 0, seg. rewrite H3, Nat.add_0_r.
        repeat split; auto. intros k s' Hk. lia.
      * exists (S j), s. rewrite H3.
        replace (S i + j) with (i + S j) by lia.
        repeat split; auto.
        -- apply (Qlt_trans _ _ _ E Hlt).
        -- intros [|k] s' Hk Hs'; simpl in Hs'.
           ++ injection Hs' as <-. exact Hlt.
           ++ apply (Hbefore k); [lia | exact Hs'].
    + apply Qlt_bool_false in E.
      destruct (IH (S i) best_i best_s) as (H1 & H2 & H3).
      split; [exact H1|]. split.
      { intros [|k] s Hk; simpl in Hk; [|now apply (H2 k)].
        injection Hk as <-. apply (Qle_trans _ _ _ E H1). }
      destruct H3 as [H3|(j & s & H3 & Hn & Hlt & Hbefore)]; [now left|].
      right. exists (S j), s. rewrite H3.
      replace (S i + j) with (i + S j) by lia.
      repeat split; auto.
      intros [|k] s' Hk Hs'; simpl in Hs'.
      * injection Hs' as <-. apply (Qle_lt_trans _ _ _ E Hlt).
      * apply (Hbefore k); [lia | exact Hs'].
Qed.

End ArgMax.

(** [best_match] returns the index of a segment whose score for the
    normalized phrase no segment exceeds, and the first such index: every
    segment before it scores strictly less.  This is for a normalized
    phrase that is not empty, a transcript that is not empty and a scorer
    without negative scores. *)
Theorem best_match_first_max (partial_ratio : str -> str -> Q)
  (phrase : str) (segments : list Segment) :
  (forall a b, 0 <= partial_ratio a b)%Q ->
  segments <> [] ->
  clean_text phrase <> [] ->
  exists j seg,
    best_match partial_ratio phrase segments
    = (Some j, py_int (score_of partial_ratio (clean_text phrase) seg)) /\
    nth_error segments j = Some seg /\
    (forall k s, nth_error segments k = Some s ->
       (score_of partial_ratio (clean_text phrase) s
        <= score_of partial_ratio (clean_text phrase) seg)%Q) /\
    (forall k s, k < j -> nth_error segments k = Some s ->
       (score_of partial_ratio (clean_text phrase) s
        < score_of partial_ratio (clean_text phrase) seg)%Q).
Proof.
  intros Hnn Hs Hq. unfold best_match.
  destruct (clean_text phrase) as [|c t] eqn:Eq; [congruence|].
  destruct (best_match_from_max partial_ratio (c :: t) segments 0 None
              (inject_Z (-1))) as (_ & Hall & Hres).
  destruct Hres as [Hres|(j & seg & Hres & Hn & _ & Hbefore)].
  - exfalso. destruct segments as [|s0 rest]; [congruence|].
    specialize (Hall 0 s0 eq_refl). rewrite Hres in Hall. simpl in Hall.
    pose proof (Qle_trans _ _ _ (Hnn (c :: t) (clean_text (text s0))) Hall)
      as T.
    revert T. unfold Qle. simpl. lia.
  - exists j, seg. rewrite Hres in *. simpl in Hall. simpl.
    repeat split; auto.
Qed.

(** The phrase is the second and the third segment: the second is chosen. *)
Lemma best_match_first_max_witness :
  (forall a b, 0 <= exact_ratio a b)%Q /\
  best_match exact_ratio (py "Goodbye, now!") [seg_hello; seg_bye; seg_bye]
  = (Some 1, 100%Z) /\
  exists j seg,
    best_match exact_ratio (py "Goodbye, now!") [seg_hello; seg_bye; seg_bye]
    = (Some j,
       py_int (score_of exact_ratio (clean_text (py "Goodbye, now!")) seg)) /\
    nth_error [seg_hello; seg_bye; seg_bye] j = Some seg.
Proof.
  assert (Hnn : forall a b, (0 <= exact_ratio a b)%Q).
  { intros a b. unfold exact_ratio. destruct (str_eqb a b); discriminate. }
  split; [exact Hnn|]. split; [reflexivity|].
  destruct (best_match_first_max exact_ratio (py "Goodbye, now!")
              [seg_hello; seg_bye; seg_bye] Hnn) as (j & seg & E & Hn & _);
    [discriminate | discriminate |].
  exists j, seg. split; [exact E | exact Hn].
Defined.

Import XmlPlaceholdersMore.

(* ===================================================================== *)
(** ** read_sheet_rows and calculate_font_size *)
(* ===================================================================== *)

Lemma read_sheet_rows_from_spec (values : list (list str)) :
  forall first r,
    In r (read_sheet_rows_from first values) <->
    exists row,
      first <= row_number r /\
      nth_error values (row_number r - first) = Some row /\
      has_content row = true /\
      r = row_shape row (row_number r).
Proof.
  induction values as [|row rest IH]; intros first r; simpl.
  - split; [tauto|]. intros (row & _ & H & _).
    destruct (row_number r - first); discriminate.
  - fold (has_content row). fold (row_shape row first).
    assert (Tail : In r (read_sheet_rows_from (S first) rest) ->
                   exists row0, first <= row_number r /\
                     nth_error (row :: rest) (row_number r - first) = Some row0 /\
                     has_content row0 = true /\
                     r = row_shape row0 (row_number r)).
    { intros H. apply IH in H as (row0 & Hle & Hn & Hrest).
      exists row0. split; [lia|]. split; [|exact Hrest].
      replace (row_number r - first) with (S (row_number r - S first)) by lia.
      exact Hn. }
    assert (Back : forall row0, first < row_number r ->
                   nth_error (row :: rest) (row_number r - first) = Some row0 ->
                   has_content row0 = true /\ r = row_shape row0 (row_number r) ->
                   In r (read_sheet_rows_from (S first) rest)).
    { intros row0 Hlt Hn Hrest. apply IH. exists row0.
      split; [lia|]. split; [|exact Hrest].
      replace (row_number r - first) with (S (row_number r - S first)) in Hn
        by lia.
      exact Hn. }
    destruct (has_content row) eqn:Hc.
    + split.
      * intros [<-|H]; [|now apply Tail].
        exists row. simpl. rewrite Nat.sub_diag. auto.
      * intros (row0 & Hle & Hn & Hrest).
        destruct (Nat.eq_dec (row_number r) first) as [E|Hne].
        -- rewrite E, Nat.sub_diag in Hn. simpl in Hn. injection Hn as <-.
           destruct Hrest as [_ ->]. left. now rewrite E.
        -- right. apply (Back row0); [lia | exact Hn | exact Hrest].
    + split; [exact Tail|].
      intros (row0 & Hle & Hn & Hrest).
      destruct (Nat.eq_dec (row_number r) first) as [E|Hne].
      * rewrite E, Nat.sub_diag in Hn. simpl in Hn. injection Hn as <-.
        destruct Hrest as [Hc' _]. congruence.
      * apply (Back row0); [lia | exact Hn | exact Hrest].
Qed.

Lemma read_sheet_rows_from_sorted (values : list (list str)) :
  forall first,
    StronglySorted (fun a b => row_number a < row_number b)
                   (read_sheet_rows_from first values).
Proof.
  induction values as [|row rest IH]; intros first; simpl; [constructor|].
  destruct (nonblank (cell row 0) || nonblank (cell row 1)
            || nonblank (cell row 2) || nonblank (cell row 3));
    [|apply IH].
  constructor; [apply IH|]. apply Forall_forall. intros r Hr.
  apply read_sheet_rows_from_spec in Hr as (_ & Hle & _). simpl. lia.
Qed.

Lemma nonblank_strip (s : str) : nonblank s = true <-> strip s <> [].
Proof.
  unfold nonblank. destruct (strip s); split; try discriminate; congruence.
Qed.

(** [read_sheet_rows] returns, in table order and with their 1-based row
    numbers, exactly the table rows of which one of the first four cells
    is not blank; the cells come stripped and a missing cell is empty.
    So every returned row has a column that is not empty. *)
Theorem read_sheet_rows_spec (values : list (list str)) :
  (forall r,
     In r (read_sheet_rows values) <->
     exists row,
       1 <= row_number r /\
       nth_error values (row_number r - 1) = Some row /\
       has_content row = true /\
       r = row_shape row (row_number r)) /\
  StronglySorted (fun a b => row_number a < row_number b)
                 (read_sheet_rows values) /\
  (forall r, In r (read_sheet_rows values) ->
     (col_a r <> [] \/ col_b r <> [] \/ col_c r <> [] \/ col_d r <> []) /\
     strip (col_a r) = col_a r /\ strip (col_b r) = col_b r /\
     strip (col_c r) = col_c r /\ strip (col_d r) = col_d r).
Proof.
  split; [intros r; apply read_sheet_rows_from_spec|].
  split; [apply read_sheet_rows_from_sorted|].
  - intros r Hr. apply read_sheet_rows_from_spec in Hr as (row & _ & _ & Hc & E).
    rewrite E. unfold row_shape. simpl. split.
    + unfold has_content in Hc.
      repeat (apply orb_true_iff in Hc as [Hc|Hc]);
        apply nonblank_strip in Hc; tauto.
    + unfold strip. now rewrite !strip_by_idem.
Qed.

(** The font size is one of the seven steps between 20 and 60, and a
    longer text never gets a larger font: the size is antitone in the
    number of characters of the four texts joined by spaces and stripped. *)
Theorem calculate_font_size_antitone (t1 t2 t3 t4 u1 u2 u3 u4 : str) :
  20 <= calculate_font_size t1 t2 t3 t4 <= 60 /\
  (List.length (strip (t1 ++ py " " ++ t2 ++ py " " ++ t3 ++ py " " ++ t4))
   <= List.length (strip (u1 ++ py " " ++ u2 ++ py " " ++ u3 ++ py " " ++ u4))
   -> calculate_font_size u1 u2 u3 u4 <= calculate_font_size t1 t2 t3 t4).
Proof.
  unfold calculate_font_size. cbv zeta.
  set (n := List.length (strip (t1 ++ _))).
  set (m := List.length (strip (u1 ++ _))).
  clearbody n m. unfold font_size_for.
  split.
  - repeat match goal with
           | |- context [?a <=? ?b] => destruct (Nat.leb_spec a b)
           end; lia.
  - intros H.
    repeat match goal with
           | |- context [?a <=? ?b] => destruct (Nat.leb_spec a b)
           end; lia.
Qed.

Import PyNum ChangeNameMore XmlPlaceholdersMore.

(* ===================================================================== *)
(** ** Timestamps that are accepted *)
(* ===================================================================== *)

Lemma digit_char_facts (d : nat) :
  d < 10 -> isdigit (digit_char d) = true /\ digit_val (digit_char d) = d.
Proof.
  intros H.
  do 10 (destruct d as [|d]; [split; reflexivity|]). lia.
Qed.

Lemma isspace_not_digit (c : ascii) :
  isspace c = true ->
  isdigit c = false /\ Ascii.eqb c "." = false /\ Ascii.eqb c "-" = false
  /\ Ascii.eqb c ":" = false.
Proof.
  destruct c as [[] [] [] [] [] [] [] []]; vm_compute;
    intros H; try discriminate H; repeat split.
Qed.

Lemma isdigit_not_space (c : ascii) : isdigit c = true -> isspace c = false.
Proof.
  intros H. destruct (isspace c) eqn:E; [|reflexivity].
  apply isspace_not_digit in E as [E _]. congruence.
Qed.

Lemma two_digits_facts (n : nat) :
  n < 100 ->
  exists a b, two_digits n = [a; b] /\ isdigit a = true /\ isdigit b = true
              /\ int_of_digits [a; b] = n.
Proof.
  intros H. exists (digit_char (n / 10)), (digit_char (n mod 10)).
  assert (H1 : n / 10 < 10) by (apply Nat.Div0.div_lt_upper_bound; lia).
  assert (H2 : n mod 10 < 10) by (apply Nat.mod_upper_bound; lia).
  destruct (digit_char_facts _ H1) as [D1 V1].
  destruct (digit_char_facts _ H2) as [D2 V2].
  repeat split; try assumption.
  unfold int_of_digits. cbn [fold_left]. rewrite V1, V2.
  pose proof (Nat.div_mod_eq n 10). lia.
Qed.

Lemma expect_hit (c : ascii) (t : str) : expect c (c :: t) = Some t.
Proof. unfold expect. now rewrite Ascii.eqb_refl. Qed.

Lemma digits_between_two (lo n : nat) (r : str) :
  n < 100 -> lo <= 2 ->
  digits_between lo 2 (two_digits n ++ r)
  = Some (two_digits n, r) /\ int_of_digits (two_digits n) = n.
Proof.
  intros H Hlo. destruct (two_digits_facts n H) as (a & b & -> & Ha & Hb & V).
  split; [|exact V].
  unfold digits_between. simpl. rewrite Ha, Hb. simpl.
  destruct lo as [|[|[|lo]]]; try reflexivity. lia.
Qed.

Lemma group_mmss_written (m s : nat) (r : str) :
  m < 100 -> s < 100 -> group_mmss (write_mmss m s ++ r) = Some (m, s, r).
Proof.
  intros Hm Hs. unfold group_mmss, write_mmss.
  rewrite <- app_assoc, <- app_comm_cons.
  destruct (digits_between_two 1 m (":"%char :: two_digits s ++ r) Hm)
    as [-> Vm]; [lia|].
  rewrite expect_hit.
  destruct (digits_between_two 2 s r Hs) as [-> Vs]; [lia|].
  now rewrite Vm, Vs.
Qed.

Lemma group_hhmmss_written (h m s : nat) (r : str) :
  h < 100 -> m < 100 -> s < 100 ->
  group_hhmmss (write_hhmmss h m s ++ r) = Some (h, m, s, r).
Proof.
  intros Hh Hm Hs. unfold group_hhmmss, write_hhmmss.
  rewrite <- app_assoc, <- app_comm_cons, <- app_assoc, <- app_comm_cons.
  destruct (digits_between_two 1 h
              (":"%char :: two_digits m ++ ":"%char :: two_digits s ++ r) Hh)
    as [-> Vh]; [lia|].
  rewrite expect_hit.
  destruct (digits_between_two 2 m (":"%char :: two_digits s ++ r) Hm)
    as [-> Vm]; [lia|].
  rewrite expect_hit.
  destruct (digits_between_two 2 s r Hs) as [-> Vs]; [lia|].
  now rewrite Vh, Vm, Vs.
Qed.

Lemma after_group_head (c : ascii) (t : str) :
  after_group (c :: t) -> isdigit c = false /\ Ascii.eqb c "." = false.
Proof.
  intros [H| ->]; [|split; reflexivity].
  apply isspace_not_digit in H. tauto.
Qed.

Lemma take_digits_all (d r : str) (k : nat) :
  forallb isdigit d = true -> List.length d <= k ->
  match r with c :: _ => isdigit c = false | [] => True end ->
  take_digits k (d ++ r) = (d, r).
Proof.
  revert k. induction d as [|c t IH]; intros k Hd Hk Hr.
  - simpl. destruct k; [reflexivity|].
    destruct r as [|c r]; [reflexivity|]. simpl. now rewrite Hr.
  - simpl in Hd. apply andb_true_iff in Hd as [Hc Ht].
    destruct k as [|k]; [simpl in Hk; lia|].
    simpl. rewrite Hc. rewrite (IH k Ht); [reflexivity| simpl in Hk; lia|exact Hr].
Qed.

Lemma group_ms_written (ms : option str) (r : str) :
  ms_ok ms = true -> after_group r -> group_ms (write_ms ms ++ r) = (ms, r).
Proof.
  intros Hok Hr. destruct ms as [d|].
  - unfold ms_ok in Hok. apply andb_true_iff in Hok as [Hok Hd].
    apply andb_true_iff in Hok as [H1 H3].
    apply Nat.leb_le in H1, H3.
    change (write_ms (Some d) ++ r) with ("."%char :: d ++ r).
    unfold group_ms. rewrite Ascii.eqb_refl.
    rewrite (take_digits_all d r 3 Hd H3).
    + destruct d; [simpl in H1; lia|reflexivity].
    + destruct r as [|c r]; [exact I|]. now apply after_group_head in Hr.
  - change (write_ms None ++ r) with r.
    destruct r as [|c r]; [reflexivity|].
    apply after_group_head in Hr as [_ Hdot]. unfold group_ms.
    now rewrite Hdot.
Qed.

Lemma skip_ws_written (w r : str) :
  all_space w = true ->
  match r with c :: _ => isspace c = false | [] => True end ->
  skip_ws (w ++ r) = r.
Proof.
  intros Hw Hr. unfold skip_ws. induction w as [|c t IH]; simpl.
  - destruct r as [|c r]; [reflexivity|]. simpl. now rewrite Hr.
  - simpl in Hw. apply andb_true_iff in Hw as [Hc Ht]. rewrite Hc. auto.
Qed.

Lemma after_group_space (w r : str) :
  all_space w = true -> after_group r -> after_group (w ++ r).
Proof.
  intros Hw Hr. destruct w as [|c t]; [exact Hr|].
  simpl in Hw. apply andb_true_iff in Hw as [Hc _]. now left.
Qed.

Lemma after_group_all_space (w : str) : all_space w = true -> after_group w.
Proof.
  intros H. rewrite <- (app_nil_r w). now apply after_group_space.
Qed.

Lemma two_digits_head (n : nat) (r : str) :
  n < 100 ->
  match two_digits n ++ r with c :: _ => isspace c = false | [] => True end.
Proof.
  intros H. destruct (two_digits_facts n H) as (a & b & -> & Ha & _).
  simpl. now apply isdigit_not_space.
Qed.

Section Written.

Variables (w0 w1 w2 w3 : str) (ms ms' : option str).
Hypothesis (S0 : all_space w0 = true) (S1 : all_space w1 = true)
           (S2 : all_space w2 = true) (S3 : all_space w3 = true).
Hypothesis (F : ms_ok ms = true) (F' : ms_ok ms' = true).

Lemma match_mmss_written (m s m' s' : nat) :
  m < 100 -> s < 100 -> m' < 100 -> s' < 100 ->
  match_mmss (write_range w0 (write_mmss m s ++ write_ms ms) w1 w2
                          (write_mmss m' s' ++ write_ms ms') w3)
  = Some (to_sec 0 m s ms, to_sec 0 m' s' ms').
Proof.
  intros Hm Hs Hm' Hs'. unfold match_mmss, write_range.
  rewrite skip_ws_written;
    [|exact S0| unfold write_mmss; rewrite <- !app_assoc;
                 now apply two_digits_head].
  rewrite <- !app_assoc. rewrite group_mmss_written by assumption.
  rewrite group_ms_written;
    [|exact F| apply after_group_space; [exact S1| now right]].
  rewrite skip_ws_written; [|exact S1|reflexivity].
  rewrite expect_hit.
  rewrite skip_ws_written;
    [|exact S2| unfold write_mmss; rewrite <- !app_assoc;
                 now apply two_digits_head].
  rewrite group_mmss_written by assumption.
  rewrite group_ms_written; [|exact F'| now apply after_group_all_space].
  rewrite <- (app_nil_r w3), skip_ws_written; [reflexivity|exact S3|exact I].
Qed.

Lemma match_hhmmss_written (h m s h' m' s' : nat) :
  h < 100 -> m < 100 -> s < 100 -> h' < 100 -> m' < 100 -> s' < 100 ->
  match_hhmmss (write_range w0 (write_hhmmss h m s ++ write_ms ms) w1 w2
                            (write_hhmmss h' m' s' ++ write_ms ms') w3)
  = Some (to_sec h m s ms, to_sec h' m' s' ms').
Proof.
  intros Hh Hm Hs Hh' Hm' Hs'. unfold match_hhmmss, write_range.
  rewrite skip_ws_written;
    [|exact S0| unfold write_hhmmss; rewrite <- !app_assoc;
                 now apply two_digits_head].
  rewrite <- !app_assoc. rewrite group_hhmmss_written by assumption.
  rewrite group_ms_written;
    [|exact F| apply after_group_space; [exact S1| now right]].
  rewrite skip_ws_written; [|exact S1|reflexivity].
  rewrite expect_hit.
  rewrite skip_ws_written;
    [|exact S2| unfold write_hhmmss; rewrite <- !app_assoc;
                 now apply two_digits_head].
  rewrite group_hhmmss_written by assumption.
  rewrite group_ms_written; [|exact F'| now apply after_group_all_space].
  rewrite <- (app_nil_r w3), skip_ws_written; [reflexivity|exact S3|exact I].
Qed.

(** The first pattern does not take a range written with hours. *)
Lemma match_mmss_hours (h m s : nat) (r : str) :
  h < 100 -> m < 100 -> s < 100 ->
  match_mmss (w0 ++ write_hhmmss h m s ++ r) = None.
Proof.
  intros Hh Hm Hs. unfold match_mmss.
  rewrite skip_ws_written;
    [|exact S0| unfold write_hhmmss; rewrite <- !app_assoc;
                 now apply two_digits_head].
  change (write_hhmmss h m s) with
    (write_mmss h m ++ ":"%char :: two_digits s).
  rewrite <- app_assoc. rewrite group_mmss_written by assumption.
  reflexivity.
Qed.

End Written.

Lemma digit_val_le (c : ascii) : isdigit c = true -> digit_val c <= 9.
Proof.
  unfold isdigit, between, digit_val. intros H.
  apply andb_true_iff in H as [_ H]. apply Nat.leb_le in H. lia.
Qed.

Lemma int_of_digits_bound (d : str) :
  forallb isdigit d = true ->
  forall a,
    fold_left (fun a c => 10 * a + digit_val c) d a
    < (a + 1) * 10 ^ List.length d.
Proof.
  induction d as [|c t IH]; intros Hd a.
  - simpl. lia.
  - simpl in Hd. apply andb_true_iff in Hd as [Hc Ht].
    cbn [fold_left List.length]. specialize (IH Ht (10 * a + digit_val c)).
    apply digit_val_le in Hc. rewrite Nat.pow_succ_r'.
    assert (P : 0 < 10 ^ List.length t) by (apply Nat.neq_0_lt_0, Nat.pow_nonzero; lia).
    nia.
Qed.

Lemma frac_of_range (ms : option str) :
  ms_ok ms = true -> (0 <= frac_of ms)%Q /\ (frac_of ms < 1)%Q.
Proof.
  intros H. destruct ms as [d|]; [|split; [apply Qle_refl|reflexivity]].
  unfold ms_ok in H. apply andb_true_iff in H as [_ Hd].
  pose proof (int_of_digits_bound d Hd 0) as B.
  assert (P : 10 ^ List.length d <> 0) by (apply Nat.pow_nonzero; lia).
  unfold frac_of, Qle, Qlt. cbn [Qnum Qden].
  rewrite <- positive_nat_Z, Nat2Pos.id by exact P.
  fold (int_of_digits d) in B. split; lia.
Qed.

(** A range written [MM:SS-MM:SS] or [HH:MM:SS-HH:MM:SS], with two digits
    for each number, an optional fraction of one to three digits after
    either time and optional whitespace at the ends and around the dash,
    is accepted.  Two numbers are read as minutes and seconds, three as
    hours, minutes and seconds; none is checked against 59.  The fraction
    is read as a decimal fraction of a second: each time is its whole
    seconds plus less than one second. *)
Theorem parse_timestamp_accepts (w0 w1 w2 w3 : str) (ms ms' : option str)
  (h m s h' m' s' : nat) :
  all_space w0 = true -> all_space w1 = true ->
  all_space w2 = true -> all_space w3 = true ->
  ms_ok ms = true -> ms_ok ms' = true ->
  h < 100 -> m < 100 -> s < 100 -> h' < 100 -> m' < 100 -> s' < 100 ->
  parse_timestamp_text
    (write_range w0 (write_mmss m s ++ write_ms ms) w1 w2
                 (write_mmss m' s' ++ write_ms ms') w3)
  = Some (to_sec 0 m s ms, to_sec 0 m' s' ms') /\
  parse_timestamp_text
    (write_range w0 (write_hhmmss h m s ++ write_ms ms) w1 w2
                 (write_hhmmss h' m' s' ++ write_ms ms') w3)
  = Some (to_sec h m s ms, to_sec h' m' s' ms') /\
  (inject_Z (Z.of_nat (h * 3600 + m * 60 + s)) <= to_sec h m s ms)%Q /\
  (to_sec h m s ms < inject_Z (Z.of_nat (h * 3600 + m * 60 + s)) + 1)%Q.
Proof.
  intros S0 S1 S2 S3 F F' Hh Hm Hs Hh' Hm' Hs'.
  split; [|split].
  - unfold parse_timestamp_text.
    now rewrite (match_mmss_written w0 w1 w2 w3 ms ms' S0 S1 S2 S3 F F').
  - unfold parse_timestamp_text.
    assert (N : match_mmss
                  (write_range w0 (write_hhmmss h m s ++ write_ms ms) w1 w2
                     (write_hhmmss h' m' s' ++ write_ms ms') w3) = None).
    { unfold write_range. rewrite <- app_assoc.
      now apply match_mmss_hours. }
    rewrite N.
    now apply match_hhmmss_written.
  - destruct (frac_of_range ms F) as [F0 F1]. unfold to_sec.
    set (whole := inject_Z (Z.of_nat (h * 3600 + m * 60 + s))).
    split.
    + rewrite <- (Qplus_0_r whole) at 1. now apply Qplus_le_r.
    + now apply Qplus_lt_r.
Qed.

Lemma parse_timestamp_accepts_witness :
  parse_timestamp_text (py " 01:02.5 - 03:04") 
  = Some (to_sec 0 1 2 (Some (py "5")), to_sec 0 3 4 None).
Proof.
  exact (proj1 (parse_timestamp_accepts
                  (py " ") (py " ") (py " ") [] (Some (py "5")) None
                  0 1 2 0 3 4
                  eq_refl eq_refl eq_refl eq_refl eq_refl eq_refl
                  ltac:(lia) ltac:(lia) ltac:(lia)
                  ltac:(lia) ltac:(lia) ltac:(lia))).
Defined.

Import PyNum ChangeNameMore XmlPlaceholdersMore.

(* ===================================================================== *)
(** ** What remove_links_from_text leaves *)
(* ===================================================================== *)

(** The two ways the URL pattern can start. *)
Lemma url_here_iff (s : str) :
  url_here s = true <->
  exists P c t, (P = py "http://" \/ P = py "https://") /\
                s = P ++ c :: t /\ isspace c = false.
Proof.
  unfold url_here, url_at. split.
  - destruct (strip_prefix (py "http") s) as [r|] eqn:E; [|discriminate].
    apply strip_prefix_app in E. subst s.
    destruct r as [|x r]; [discriminate|].
    destruct (Ascii.eqb x "s") eqn:Ex.
    + apply Ascii.eqb_eq in Ex. subst x.
      destruct (strip_prefix (py "://") r) as [[|c t]|] eqn:E2;
        try discriminate.
      apply strip_prefix_app in E2. subst r.
      destruct (isspace c) eqn:Ec; [discriminate|]. intros _.
      exists (py "https://"), c, t. auto.
    + destruct (strip_prefix (py "://") (x :: r)) as [[|c t]|] eqn:E2;
        try discriminate.
      apply strip_prefix_app in E2. rewrite E2.
      destruct (isspace c) eqn:Ec; [discriminate|]. intros _.
      exists (py "http://"), c, t. auto.
  - intros (P & c & t & [-> | ->] & -> & Hc); simpl; now rewrite Hc.
Qed.

Lemma url_here_app (w u : str) :
  url_here w = true -> url_here (w ++ u) = true.
Proof.
  intros H. apply url_here_iff in H as (P & c & t & HP & -> & Hc).
  apply url_here_iff. exists P, c, (t ++ u). rewrite <- app_assoc. auto.
Qed.

(** A run without whitespace that starts a string stops before its first
    whitespace character. *)
Lemma prefix_before_space (a t w r : str) (sp : ascii) :
  forallb nonspace a = true -> isspace sp = true ->
  a ++ t = w ++ sp :: r -> exists t', w = a ++ t'.
Proof.
  intros Ha Hsp. revert w. induction a as [|x a IH]; intros w E.
  - now exists w.
  - simpl in Ha. apply andb_true_iff in Ha as [Hx Ha].
    destruct w as [|y w]; simpl in E; injection E as -> E.
    + unfold nonspace in Hx. rewrite Hsp in Hx. discriminate.
    + destruct (IH Ha w E) as [t' ->]. now exists t'.
Qed.

Lemma url_here_app_space (w r : str) (sp : ascii) :
  isspace sp = true -> url_here (w ++ sp :: r) = url_here w.
Proof.
  intros Hsp. destruct (url_here w) eqn:E.
  - now apply url_here_app.
  - destruct (url_here (w ++ sp :: r)) eqn:E2; [|reflexivity].
    apply url_here_iff in E2 as (P & c & t & HP & E2 & Hc).
    assert (Hpre : forallb nonspace (P ++ [c]) = true).
    { rewrite forallb_app. simpl. unfold nonspace at 2. rewrite Hc.
      destruct HP as [-> | ->]; reflexivity. }
    assert (E3 : (P ++ [c]) ++ t = w ++ sp :: r).
    { rewrite <- app_assoc. simpl. now symmetry. }
    destruct (prefix_before_space _ _ _ _ _ Hpre Hsp E3) as [t' ->].
    rewrite <- E. symmetry. apply url_here_iff.
    exists P, c, t'. rewrite <- app_assoc. auto.
Qed.

Lemma url_here_space (sp : ascii) (t : str) :
  isspace sp = true -> url_here (sp :: t) = false.
Proof.
  intros Hsp. exact (url_here_app_space [] t sp Hsp).
Qed.

Lemma has_url_cons (c : ascii) (t : str) :
  has_url (c :: t) = url_here (c :: t) || has_url t.
Proof. cbn [has_url]. unfold url_here. now destruct (url_at (c :: t)). Qed.

Lemma has_url_app_space (w r : str) (sp : ascii) :
  isspace sp = true -> has_url (w ++ sp :: r) = has_url w || has_url r.
Proof.
  intros Hsp. induction w as [|x w IH].
  - change ([] ++ sp :: r) with (sp :: r).
    rewrite has_url_cons, url_here_space by exact Hsp. reflexivity.
  - change ((x :: w) ++ sp :: r) with (x :: (w ++ sp :: r)).
    rewrite !has_url_cons, IH.
    change (x :: w ++ sp :: r) with ((x :: w) ++ sp :: r).
    rewrite url_here_app_space by exact Hsp. now rewrite orb_assoc.
Qed.

Lemma lstrip_nonspace_at_space (t : str) : at_space (lstrip_by nonspace t).
Proof.
  destruct (lstrip_by nonspace t) as [|c r] eqn:E; [exact I|].
  apply lstrip_by_head in E. unfold nonspace in E. simpl.
  now destruct (isspace c).
Qed.

Lemma lstrip_by_length (p : ascii -> bool) (t : str) :
  List.length (lstrip_by p t) <= List.length t.
Proof.
  induction t as [|c t IH]; simpl; [lia|]. destruct (p c); simpl; lia.
Qed.

Lemma url_at_written (P : str) (c : ascii) (t : str) :
  P = py "http://" \/ P = py "https://" ->
  url_at (P ++ c :: t)
  = if isspace c then None else Some (lstrip_by nonspace t).
Proof. intros [-> | ->]; reflexivity. Qed.

Lemma url_at_rest (s rest : str) :
  url_at s = Some rest -> at_space rest /\ List.length rest < List.length s.
Proof.
  intros H.
  assert (Hh : url_here s = true) by (unfold url_here; now rewrite H).
  apply url_here_iff in Hh as (P & c & t & HP & -> & Hc).
  assert (E : rest = lstrip_by nonspace t).
  { rewrite (url_at_written P c t HP), Hc in H. now injection H as <-. }
  subst rest. split; [apply lstrip_nonspace_at_space|].
  pose proof (lstrip_by_length nonspace t). rewrite length_app. simpl. lia.
Qed.

Lemma sub_urls_at_space (n : nat) (r : str) :
  at_space r -> List.length r <= n -> at_space (sub_urls n r).
Proof.
  intros Hr Hn. destruct r as [|sp r]; [now destruct n|].
  destruct n as [|n]; [simpl in Hn; lia|].
  cbn [sub_urls]. simpl in Hr.
  pose proof (url_here_space sp r Hr) as U. unfold url_here in U.
  destruct (url_at (sp :: r)); [discriminate|]. exact Hr.
Qed.

(** The text after the removal, up to the first removed URL, is the text
    before it; what comes next starts with whitespace. *)
Lemma sub_urls_shape (n : nat) :
  forall t, List.length t <= n ->
    exists k u r, t = k ++ u /\ sub_urls n t = k ++ r /\ at_space r.
Proof.
  induction n as [|n IH]; intros t Hn.
  - destruct t; [|simpl in Hn; lia]. exists [], [], []. now repeat split.
  - destruct t as [|c t]; [exists [], [], []; now repeat split|].
    cbn [sub_urls]. destruct (url_at (c :: t)) as [rest|] eqn:E.
    + exists [], (c :: t), (sub_urls n rest).
      apply url_at_rest in E as [Hs Hl]. simpl in Hl, Hn.
      repeat split. apply sub_urls_at_space; [exact Hs|lia].
    + simpl in Hn. destruct (IH t ltac:(lia)) as (k & u & r & -> & -> & Hr).
      exists (c :: k), u, r. now repeat split.
Qed.

Lemma sub_urls_no_url (n : nat) :
  forall s, List.length s <= n -> has_url (sub_urls n s) = false.
Proof.
  induction n as [|n IH]; intros s Hn.
  - destruct s; [reflexivity|simpl in Hn; lia].
  - destruct s as [|c t]; [reflexivity|].
    cbn [sub_urls]. destruct (url_at (c :: t)) as [rest|] eqn:E.
    + apply url_at_rest in E as [_ Hl]. simpl in Hl, Hn. apply IH. lia.
    + simpl in Hn. rewrite has_url_cons, (IH t) by lia.
      rewrite orb_false_r.
      destruct (sub_urls_shape n t ltac:(lia)) as (k & u & r & Et & -> & Hr).
      subst t.
      assert (N : url_here ((c :: k) ++ u) = false)
        by (unfold url_here; simpl; now rewrite E).
      destruct (url_here (c :: k)) eqn:Hk;
        [now rewrite (url_here_app _ u Hk) in N|].
      destruct r as [|sp r].
      * now rewrite app_nil_r.
      * change (c :: k ++ sp :: r) with ((c :: k) ++ sp :: r).
        now rewrite url_here_app_space.
Qed.

(** *** Words *)

Lemma words_from_word (w : str) :
  forall cur rest,
    forallb nonspace w = true ->
    words_from cur (w ++ rest) = words_from (rev w ++ cur) rest.
Proof.
  induction w as [|c w IH]; intros cur rest H; [reflexivity|].
  simpl in H. apply andb_true_iff in H as [Hc Hw].
  unfold nonspace in Hc. cbn [app words_from].
  destruct (isspace c); [discriminate|].
  rewrite (IH (c :: cur) rest Hw). cbn [rev]. now rewrite <- app_assoc.
Qed.

Lemma take_while_lstrip (p : ascii -> bool) (t : str) :
  t = take_while p t ++ lstrip_by p t.
Proof.
  induction t as [|c t IH]; [reflexivity|]. simpl.
  destruct (p c); [simpl; now rewrite <- IH | reflexivity].
Qed.

Lemma split_ws_space (c : ascii) (t : str) :
  isspace c = true -> split_ws (c :: t) = split_ws t.
Proof. intros H. unfold split_ws. cbn [words_from]. now rewrite H. Qed.

Lemma split_ws_word (c : ascii) (t : str) :
  isspace c = false ->
  split_ws (c :: t)
  = (c :: take_while nonspace t) :: split_ws (lstrip_by nonspace t).
Proof.
  intros Hc. set (w := c :: take_while nonspace t).
  assert (Hw : forallb nonspace w = true).
  { subst w. simpl. unfold nonspace at 1. rewrite Hc. simpl.
    apply take_while_all. }
  assert (E : c :: t = w ++ lstrip_by nonspace t).
  { subst w. simpl. f_equal. apply (take_while_lstrip nonspace). }
  rewrite E. unfold split_ws.
  rewrite (words_from_word w [] _ Hw), app_nil_r.
  assert (R : exists x r, rev w = x :: r).
  { destruct (rev w) as [|x r] eqn:R; [|eauto].
    apply (f_equal (@rev ascii)) in R. rewrite rev_involutive in R.
    subst w. discriminate. }
  destruct R as (x & r & R).
  assert (Rw : rev (x :: r) = w) by (rewrite <- R; apply rev_involutive).
  rewrite R.
  pose proof (lstrip_nonspace_at_space t) as Hs.
  destruct (lstrip_by nonspace t) as [|sp rest]; cbn [words_from].
  - now rewrite Rw.
  - simpl in Hs. rewrite Hs. now rewrite Rw.
Qed.

Lemma split_ws_words (n : nat) :
  forall s, List.length s <= n ->
    forallb is_word (split_ws s) = true /\
    existsb has_url (split_ws s) = has_url s.
Proof.
  induction n as [|n IH]; intros s Hn.
  - destruct s; [split; reflexivity|simpl in Hn; lia].
  - destruct s as [|c t]; [split; reflexivity|]. simpl in Hn.
    destruct (isspace c) eqn:Hc.
    + rewrite split_ws_space by exact Hc.
      destruct (IH t ltac:(lia)) as [W U]. split; [exact W|].
      rewrite U, has_url_cons, url_here_space by exact Hc. reflexivity.
    + rewrite split_ws_word by exact Hc.
      pose proof (lstrip_by_length nonspace t) as L.
      destruct (IH (lstrip_by nonspace t) ltac:(lia)) as [W U].
      cbn [forallb existsb]. rewrite W, U. split.
      * rewrite andb_true_r. cbn [is_word forallb]. unfold nonspace at 1.
        rewrite Hc. simpl. apply take_while_all.
      * pose proof (take_while_lstrip nonspace t) as D.
        pose proof (lstrip_nonspace_at_space t) as Hs.
        destruct (lstrip_by nonspace t) as [|sp r].
        -- rewrite app_nil_r in D. rewrite <- D. now rewrite orb_false_r.
        -- simpl in Hs. rewrite D at 2.
           change (c :: take_while nonspace t ++ sp :: r)
             with ((c :: take_while nonspace t) ++ sp :: r).
           rewrite (has_url_app_space _ r sp Hs).
           f_equal. rewrite has_url_cons, url_here_space by exact Hs.
           reflexivity.
Qed.

(** *** Words joined by a space *)

Lemma join_cons (w : str) (ws : list str) :
  join (py " ") (w :: ws)
  = match ws with
    | [] => w
    | _ :: _ => w ++ " "%char :: join (py " ") ws
    end.
Proof.
  destruct ws as [|w2 ws]; simpl; [apply app_nil_r|reflexivity].
Qed.

Lemma is_word_cons (w : str) :
  is_word w = true ->
  exists c t, w = c :: t /\ isspace c = false /\ forallb nonspace t = true.
Proof.
  destruct w as [|c t]; [discriminate|]. cbn [is_word forallb].
  intros H. apply andb_true_iff in H as [Hc Ht]. exists c, t.
  unfold nonspace in Hc. destruct (isspace c); [discriminate|]. auto.
Qed.

Lemma tidy_word (t r : str) :
  forallb nonspace t = true -> tidy false (t ++ r) = tidy false r.
Proof.
  induction t as [|c t IH]; intros H; [reflexivity|].
  simpl in H. apply andb_true_iff in H as [Hc Ht]. unfold nonspace in Hc.
  cbn [app tidy]. destruct (isspace c); [discriminate|]. auto.
Qed.

Lemma rstrip_by_word (w : str) :
  is_word w = true -> rstrip_by isspace w = w.
Proof.
  intros H. apply is_word_cons in H as (c & t & -> & Hc & Ht).
  assert (N : forall x, In x (c :: t) -> isspace x = false).
  { intros x [<-|Hx]; [exact Hc|]. rewrite forallb_forall in Ht.
    apply Ht in Hx. unfold nonspace in Hx. now destruct (isspace x). }
  pose proof (strip_by_none isspace (c :: t) N) as S.
  unfold strip_by in S. cbn [lstrip_by] in S. now rewrite Hc in S.
Qed.

Lemma rstrip_by_app (a b : str) :
  b <> [] -> rstrip_by isspace b = b -> rstrip_by isspace (a ++ b) = a ++ b.
Proof.
  intros Hb E. induction a as [|x a IH]; [exact E|].
  cbn [app]. rewrite rstrip_by_cons, IH.
  destruct (a ++ b) eqn:Eab; [|reflexivity].
  apply app_eq_nil in Eab as [_ ->]. now contradiction Hb.
Qed.

Lemma joined_words (ws : list str) :
  forallb is_word ws = true ->
  has_url (join (py " ") ws) = existsb has_url ws /\
  tidy true (join (py " ") ws) = true /\
  rstrip_by isspace (join (py " ") ws) = join (py " ") ws /\
  (ws <> [] -> join (py " ") ws <> []).
Proof.
  induction ws as [|w ws IH]; intros H.
  - repeat split. intros N. now contradiction N.
  - cbn [forallb] in H. apply andb_true_iff in H as [Hw Hws].
    specialize (IH Hws). destruct IH as (U & T & R & N).
    rewrite join_cons. destruct ws as [|w2 ws].
    + cbn [existsb]. rewrite orb_false_r.
      pose proof (rstrip_by_word w Hw) as Rw.
      apply is_word_cons in Hw as (c & t & -> & Hc & Ht).
      repeat split; [| exact Rw | discriminate].
      cbn [tidy]. rewrite Hc. rewrite <- (app_nil_r t).
      now rewrite tidy_word.
    + set (rest := join (py " ") (w2 :: ws)) in *.
      assert (Hr : rest <> []) by (apply N; discriminate).
      split; [|split; [|split]].
      * rewrite has_url_app_space by reflexivity. rewrite U. reflexivity.
      * apply is_word_cons in Hw as (c & t & -> & Hc & Ht).
        cbn [app tidy]. rewrite Hc, tidy_word by exact Ht.
        cbn [tidy]. change (isspace " ") with true. cbv iota.
        rewrite Ascii.eqb_refl. cbn [negb andb].
        (* the word after the space *)
        clear - T. destruct rest as [|x r]; [reflexivity|].
        cbn [tidy] in *. destruct (isspace x); [|exact T].
        rewrite andb_false_r in T. discriminate.
      * change (w ++ " "%char :: rest) with (w ++ [" "%char] ++ rest).
        rewrite app_assoc. now apply rstrip_by_app.
      * intros _ E. apply app_eq_nil in E as [_ E]. discriminate.
Qed.

(** The text [remove_links_from_text] returns holds no match of the link
    pattern, not even one put together by the removal.  Its whitespace is
    single spaces between words: no other whitespace character, no two in
    a row, none at the start or at the end. *)
Theorem remove_links_from_text_clean (text : str) :
  has_url (remove_links_from_text text) = false /\
  tidy true (remove_links_from_text text) = true /\
  strip (remove_links_from_text text) = remove_links_from_text text.
Proof.
  unfold remove_links_from_text. destruct text as [|c t]; [repeat split|].
  set (text := c :: t). cbv zeta.
  set (s := sub_urls (List.length text) text).
  destruct (split_ws_words (List.length s) s (le_n _)) as [W U].
  destruct (joined_words (split_ws s) W) as (Uj & T & R & _).
  split; [|split].
  - rewrite Uj, U. apply sub_urls_no_url. apply le_n.
  - exact T.
  - unfold strip, strip_by.
    assert (L : lstrip_by isspace (join (py " ") (split_ws s))
                = join (py " ") (split_ws s)).
    { destruct (join (py " ") (split_ws s)) as [|x r]; [reflexivity|].
      cbn [tidy] in T. cbn [lstrip_by]. destruct (isspace x); [|reflexivity].
      rewrite andb_false_r in T. discriminate. }
    now rewrite L.
Qed.

Import PyNum ChangeNameMore XmlPlaceholdersMore SheetCache.

(* ===================================================================== *)
(** ** clean_text, word by word *)
(* ===================================================================== *)

Lemma lstrip_by_fixed (p : ascii -> bool) (s : str) :
  match s with c :: _ => p c = false | [] => True end -> lstrip_by p s = s.
Proof. destruct s as [|c t]; [reflexivity|]. simpl. now intros ->. Qed.

(** After a whitespace character the collapse goes on with what the strip
    of its start leaves. *)
Lemma collapse_true_lstrip (t : str) :
  collapse_run isspace " " true t
  = lstrip_by isspace (collapse_run isspace " " false t).
Proof.
  destruct t as [|c t]; [reflexivity|]. cbn [collapse_run].
  destruct (isspace c) eqn:E.
  - cbn [lstrip_by]. change (isspace " ") with true. cbv iota.
    symmetry. apply lstrip_by_fixed.
    destruct (collapse_run isspace " " true t) as [|x r] eqn:C; [exact I|].
    now apply (collapse_run_head isspace " ") in C.
  - cbn [lstrip_by]. now rewrite E.
Qed.

Lemma collapse_word (w r : str) (b : bool) :
  w <> [] -> forallb nonspace w = true ->
  collapse_run isspace " " b (w ++ r) = w ++ collapse_run isspace " " false r.
Proof.
  revert b. induction w as [|c w IH]; intros b Hne Hw; [congruence|].
  simpl in Hw. apply andb_true_iff in Hw as [Hc Hw]. unfold nonspace in Hc.
  cbn [app collapse_run]. destruct (isspace c); [discriminate|].
  f_equal. destruct w as [|d w]; [reflexivity|].
  apply IH; [discriminate|exact Hw].
Qed.

Lemma rstrip_by_app_word (w x : str) :
  is_word w = true ->
  rstrip_by isspace (w ++ x) = w ++ rstrip_by isspace x.
Proof.
  intros Hw. destruct (rstrip_by isspace x) as [|c t] eqn:E.
  - rewrite app_nil_r.
    pose proof (rstrip_by_word w Hw) as Rw.
    clear Hw. revert Rw. induction w as [|a w IH]; intros Rw.
    + exact E.
    + cbn [app]. rewrite rstrip_by_cons in *.
      destruct (rstrip_by isspace w) as [|y r] eqn:Ew.
      * destruct (isspace a); [discriminate|]. injection Rw as Rw.
        subst w. cbn [app]. now rewrite E.
      * injection Rw as Rw. rewrite IH; [|exact Rw].
        rewrite <- Rw. reflexivity.
  - rewrite <- E. clear Hw. induction w as [|a w IH]; [reflexivity|].
    cbn [app]. rewrite rstrip_by_cons, IH.
    destruct (w ++ rstrip_by isspace x) eqn:Ew; [|reflexivity].
    apply app_eq_nil in Ew as [_ Ew]. congruence.
Qed.

(** Collapsing the whitespace and trimming leaves the words, one space
    between two. *)
Lemma collapse_strip_words (n : nat) :
  forall t, List.length t <= n ->
    rstrip_by isspace (collapse_run isspace " " true t)
    = join (py " ") (split_ws t).
Proof.
  induction n as [|n IH]; intros t Hn.
  - destruct t; [reflexivity|simpl in Hn; lia].
  - destruct t as [|c t]; [reflexivity|]. simpl in Hn.
    destruct (isspace c) eqn:Hc.
    + rewrite split_ws_space by exact Hc. cbn [collapse_run]. rewrite Hc.
      apply IH. lia.
    + rewrite split_ws_word by exact Hc.
      set (w := c :: take_while nonspace t).
      assert (Hw : is_word w = true).
      { subst w. cbn [is_word forallb]. unfold nonspace at 1. rewrite Hc.
        simpl. apply take_while_all. }
      assert (Hw' : forallb nonspace w = true) by exact Hw.
      assert (E : c :: t = w ++ lstrip_by nonspace t).
      { subst w. simpl. f_equal. apply (take_while_lstrip nonspace). }
      rewrite E, collapse_word; [|subst w; discriminate|exact Hw'].
      rewrite rstrip_by_app_word by exact Hw. rewrite join_cons.
      pose proof (lstrip_nonspace_at_space t) as Hs.
      pose proof (lstrip_by_length nonspace t) as L.
      destruct (lstrip_by nonspace t) as [|sp r].
      * cbn [collapse_run]. unfold rstrip_by. simpl. now rewrite app_nil_r.
      * simpl in Hs, L. rewrite split_ws_space by exact Hs.
        cbn [collapse_run]. rewrite Hs. rewrite rstrip_by_cons.
        rewrite (IH r) by lia.
        destruct (split_ws_words (List.length r) r (le_n _)) as [W _].
        destruct (joined_words (split_ws r) W) as (_ & _ & _ & N).
        destruct (split_ws r) as [|w2 ws] eqn:Sr.
        -- cbn [join]. change (isspace " ") with true. cbv iota.
           now rewrite app_nil_r.
        -- destruct (join (py " ") (w2 :: ws)) as [|x y] eqn:J.
           ++ exfalso. apply N; [discriminate|reflexivity].
           ++ reflexivity.
Qed.

Lemma lstrip_by_keeps (p : ascii -> bool) (s : str) (x : ascii) :
  In x s -> p x = false -> In x (lstrip_by p s).
Proof.
  intros Hin Hx. induction s as [|c t IH]; [destruct Hin|]. simpl.
  destruct (p c) eqn:E; [|exact Hin].
  destruct Hin as [->|Hin]; [congruence|now apply IH].
Qed.

Lemma strip_by_keeps (p : ascii -> bool) (s : str) (x : ascii) :
  In x s -> p x = false -> In x (strip_by p s).
Proof.
  intros Hin Hx. unfold strip_by, rstrip_by. apply in_rev.
  rewrite rev_involutive. apply lstrip_by_keeps; [|exact Hx].
  apply in_rev. rewrite rev_involutive.
  now apply lstrip_by_keeps.
Qed.

Lemma collapse_run_keeps (s : str) (x : ascii) :
  In x s -> isspace x = false ->
  forall b, In x (collapse_run isspace " " b s).
Proof.
  intros Hin Hx. induction s as [|c t IH]; intros b; [destruct Hin|].
  cbn [collapse_run]. destruct Hin as [->|Hin].
  - rewrite Hx. now left.
  - destruct (isspace c); [destruct b|]; try (right; now apply IH).
    now apply IH.
Qed.

(** C4, as the code has it: [clean_text] lowercases, replaces punctuation
    by spaces, collapses whitespace and trims, and does nothing else: its
    result is the words of the lowercased text in which every punctuation
    character has become a space, one space between two words.  So every
    character of the text that is neither punctuation nor whitespace is in
    the result, in lowercase (the letters and digits of a URL too); the
    result has no punctuation, hence no URL, no whitespace at its ends, no
    two whitespace characters in a row and no whitespace but the space;
    and cleaning it again changes nothing. *)
Theorem clean_text_normal (s : str) :
  let r := clean_text s in
  forallb (fun c => negb (ispunct c)) r = true /\
  lower r = r /\
  has_url r = false /\
  lstrip_by isspace r = r /\
  rstrip_by isspace r = r /\
  has_double_space r = false /\
  (forall c, In c r -> isspace c = true -> c = " "%char) /\
  clean_text r = r /\
  r = join (py " ") (split_ws (punct_to_space (lower s))) /\
  (forall c, In c s ->
     ispunct (lower_char c) = false -> isspace (lower_char c) = false ->
     In (lower_char c) r).
Proof.
  intros r.
  assert (Hp : forallb (fun c => negb (ispunct c)) r = true).
  { apply forallb_forall. intros c Hc.
    apply clean_text_chars in Hc as [-> _]. reflexivity. }
  assert (Hl : lower r = r).
  { apply map_fixed. intros c Hc. now apply clean_text_chars in Hc. }
  assert (Hq : punct_to_space r = r).
  { apply map_fixed. intros c Hc.
    apply clean_text_chars in Hc as [-> _]. reflexivity. }
  assert (Ht : tidy false r = true).
  { subst r. unfold clean_text, strip, strip_by.
    apply tidy_rstrip, (tidy_lstrip _ false), tidy_collapse. }
  assert (Hs : strip r = r).
  { subst r. unfold clean_text, strip. apply strip_by_idem. }
  split; [exact Hp|]. split; [exact Hl|].
  split; [now apply no_punct_no_url|].
  split; [subst r; unfold clean_text, strip; apply strip_by_lstrip|].
  split; [subst r; unfold clean_text, strip; apply strip_by_rstrip|].
  split; [now apply (tidy_no_double_space r false)|].
  split; [intros c; now apply (tidy_spaces r false)|].
  split.
  { unfold clean_text at 1. rewrite Hl, Hq, (collapse_tidy_fixed r false Ht).
    exact Hs. }
  split.
  - subst r. unfold clean_text, strip, strip_by. cbv zeta.
    rewrite <- collapse_true_lstrip.
    apply (collapse_strip_words _ _ (le_n _)).
  - intros c Hin Hpc Hsc. subst r. unfold clean_text, strip. cbv zeta.
    apply strip_by_keeps; [|exact Hsc].
    apply collapse_run_keeps; [|exact Hsc].
    unfold punct_to_space, lower. rewrite map_map.
    apply in_map_iff. exists c. split; [|exact Hin]. now rewrite Hpc.
Qed.

(* ===================================================================== *)
(** ** sheet_cache.py: names of folders and files *)
(* ===================================================================== *)

Lemma sanitize_chars (value : str) (c : ascii) :
  In c (sanitize_fs_name value) -> fs_forbidden c = false.
Proof.
  unfold sanitize_fs_name.
  set (cleaned := strip_by is_dot_or_underscore _).
  assert (H : forall x, In x cleaned -> fs_forbidden x = false).
  { subst cleaned. intros x Hx. apply strip_by_incl in Hx.
    apply collapse_run_In in Hx as [->|Hx]; [reflexivity|].
    apply strip_by_incl in Hx. apply in_map_iff in Hx as (y & <- & _).
    destruct (fs_forbidden y) eqn:E; [reflexivity|exact E]. }
  destruct cleaned as [|x t]; cbn [or_str].
  - intros Hc. revert c Hc. apply Forall_forall.
    repeat constructor.
  - apply H.
Qed.

Lemma sanitize_cases (value : str) :
  sanitize_fs_name value = py "untitled_sheet" \/
  exists cleaned,
    sanitize_fs_name value
    = strip_by is_dot_or_underscore (collapse_run is_underscore "_" false cleaned)
    /\ sanitize_fs_name value <> [].
Proof.
  unfold sanitize_fs_name.
  set (cleaned := strip (map _ value)).
  destruct (strip_by is_dot_or_underscore
              (collapse_run is_underscore "_" false cleaned)) as [|x t] eqn:E;
    cbn [or_str]; [now left|right].
  exists cleaned. rewrite E. split; [reflexivity|discriminate].
Qed.

Lemma sanitize_fs_name_nonempty (value : str) :
  exists c t, sanitize_fs_name value = c :: t.
Proof.
  destruct (sanitize_cases value) as [-> | (cleaned & _ & N)].
  - now exists "u"%char, (py "ntitled_sheet").
  - destruct (sanitize_fs_name value) as [|c t]; [congruence|eauto].
Qed.

(** The name [sanitize_fs_name] returns is never empty and holds none of
    the characters it replaces, so no slash; it neither starts nor ends
    with a dot or an underscore and has no two underscores in a row.  It
    is therefore one path component, different from [.] and [..]: the
    folder or file made from it lies directly in the folder it is joined
    to. *)
Theorem sanitize_fs_name_safe (value : str) :
  let r := sanitize_fs_name value in
  r <> [] /\
  (forall c, In c r -> fs_forbidden c = false) /\
  strip_by is_dot_or_underscore r = r /\
  has_repeat is_underscore r = false /\
  valid_name r = true /\ r <> py "..".
Proof.
  intros r.
  assert (Hc : forall c, In c r -> fs_forbidden c = false)
    by (intros c; apply sanitize_chars).
  assert (Base : r <> [] /\ strip_by is_dot_or_underscore r = r /\
                 has_repeat is_underscore r = false).
  { subst r. destruct (sanitize_cases value) as [-> | (cleaned & E & N)].
    - repeat split. discriminate.
    - split; [exact N|]. rewrite E. split; [apply strip_by_idem|].
      apply has_repeat_strip, collapse_run_no_repeat. }
  destruct Base as (Hne & Hs & Hr).
  assert (Hh : forall c t, r = c :: t -> is_dot_or_underscore c = false).
  { intros c t E. rewrite E in Hs. now apply strip_by_head in Hs. }
  split; [exact Hne|]. split; [exact Hc|]. split; [exact Hs|].
  split; [exact Hr|].
  destruct r as [|c t] eqn:E; [congruence|].
  pose proof (Hh c t eq_refl) as Hd.
  assert (Hdot : c <> "."%char).
  { intros ->. discriminate Hd. }
  split.
  - unfold valid_name.
    assert (S : existsb (Ascii.eqb "/") (c :: t) = false).
    { destruct (existsb (Ascii.eqb "/") (c :: t)) eqn:X; [|reflexivity].
      apply existsb_exists in X as (x & Hx & Ex).
      apply Ascii.eqb_eq in Ex. subst x. apply Hc in Hx. discriminate. }
    rewrite S.
    assert (D : str_eqb (c :: t) (py ".") = false).
    { apply str_eqb_neq. intros X. injection X as -> _. now apply Hdot. }
    rewrite D. reflexivity.
  - intros X. injection X as -> _. now apply Hdot.
Qed.

(** *** _unique_csv_name *)

Lemma str_in_In (s : str) (l : list str) : str_in s l = true <-> In s l.
Proof.
  unfold str_in. rewrite existsb_exists. split.
  - intros (x & Hx & E). apply str_eqb_eq in E. now subst.
  - intros H. exists s. split; [exact H|apply str_eqb_refl].
Qed.

Lemma first_free_some (base : str) (taken : list str) (range : list nat)
  (c : str) :
  first_free base taken range = Some c ->
  str_in c taken = false /\ exists i, In i range /\ c = numbered base i.
Proof.
  induction range as [|i r IH]; simpl; [discriminate|].
  destruct (str_in (numbered base i) taken) eqn:E; simpl.
  - intros H. destruct (IH H) as (F & j & Hj & ->). eauto.
  - intros H. injection H as <-. eauto.
Qed.

Lemma first_free_none (base : str) (taken : list str) (range : list nat) :
  first_free base taken range = None ->
  forall i, In i range -> In (numbered base i) taken.
Proof.
  induction range as [|i r IH]; simpl; [tauto|].
  destruct (str_in (numbered base i) taken) eqn:E; simpl; [|discriminate].
  intros H j [<-|Hj]; [now apply str_in_In|now apply IH].
Qed.

Lemma nodupb_NoDup (l : list str) : nodupb l = true -> NoDup l.
Proof.
  induction l as [|x t IH]; simpl; [constructor|].
  intros H. apply andb_true_iff in H as [Hx Ht].
  constructor; [|now apply IH].
  intros Hin. apply str_in_In in Hin. rewrite Hin in Hx. discriminate.
Qed.

Lemma NoDup_map_injective {A B : Type} (f : A -> B) (l : list A) :
  (forall a b, f a = f b -> a = b) -> NoDup l -> NoDup (map f l).
Proof.
  intros Hf H. induction H as [|x l Hx Hl IH]; simpl; constructor;
    [|exact IH].
  intros Hin. apply in_map_iff in Hin as (y & E & Hy).
  apply Hf in E. now subst.
Qed.

(** The names the function tries, without the base: 199 different ones. *)
Lemma endings_NoDup :
  NoDup (py ".csv"
         :: map (fun i => py "_" ++ str_of_nat i ++ py ".csv") (seq 2 198)).
Proof. apply nodupb_NoDup. vm_compute. reflexivity. Qed.

Lemma candidates_NoDup (base : str) :
  NoDup ((base ++ py ".csv") :: map (numbered base) (seq 2 198)).
Proof.
  assert (E : (base ++ py ".csv") :: map (numbered base) (seq 2 198)
              = map (app base)
                  (py ".csv"
                   :: map (fun i => py "_" ++ str_of_nat i ++ py ".csv")
                        (seq 2 198))).
  { cbn [map]. rewrite map_map. reflexivity. }
  rewrite E. apply NoDup_map_injective; [|apply endings_NoDup].
  intros a b H. now apply app_inv_head in H.
Qed.

(** With fewer than 199 names taken, [_unique_csv_name] returns a name
    that is not taken, so the new CSV overwrites none of the
    others.  The name is the sanitised title, an optional [_n] and [.csv];
    the [or "sheet"] of the source never applies. *)
Theorem unique_csv_name_fresh (existing : list (str * str))
  (sheet_title stamp : str) :
  List.length existing < 199 ->
  str_in (_unique_csv_name existing sheet_title stamp) (values existing)
  = false /\
  exists mid,
    _unique_csv_name existing sheet_title stamp
    = sanitize_fs_name sheet_title ++ mid ++ py ".csv".
Proof.
  intros Hlen. unfold _unique_csv_name.
  assert (B : or_str (sanitize_fs_name sheet_title) (py "sheet")
              = sanitize_fs_name sheet_title).
  { destruct (sanitize_fs_name_nonempty sheet_title) as (c & t & ->).
    reflexivity. }
  rewrite B. cbv zeta. set (base := sanitize_fs_name sheet_title).
  set (taken := values existing).
  destruct (str_in (base ++ py ".csv") taken) eqn:E0; cbn [negb].
  2:{ split; [exact E0|]. now exists []. }
  destruct (first_free base taken (seq 2 198)) as [c|] eqn:F.
  - apply first_free_some in F as (Hc & i & _ & ->).
    split; [exact Hc|]. exists (py "_" ++ str_of_nat i).
    unfold numbered. now rewrite <- !app_assoc.
  - exfalso.
    assert (I : incl ((base ++ py ".csv") :: map (numbered base) (seq 2 198))
                     taken).
    { intros x [<-|Hx]; [now apply str_in_In|].
      apply in_map_iff in Hx as (i & <- & Hi).
      now apply (first_free_none base taken (seq 2 198) F). }
    apply (NoDup_incl_length (candidates_NoDup base)) in I.
    subst taken. unfold values in I.
    rewrite length_map in I. cbn [List.length] in I.
    rewrite length_map, length_seq in I. lia.
Qed.

Lemma unique_csv_name_fresh_witness :
  _unique_csv_name [(py "Data", py "Data.csv")] (py "Data") (py "0")
  = py "Data_2.csv" /\
  str_in (_unique_csv_name [(py "Data", py "Data.csv")] (py "Data") (py "0"))
         (values [(py "Data", py "Data.csv")]) = false.
Proof.
  split; [reflexivity|].
  apply (unique_csv_name_fresh [(py "Data", py "Data.csv")] (py "Data")
           (py "0")).
  simpl. lia.
Defined.

Import PyNum ChangeNameMore XmlPlaceholdersMore SheetCache.

(** *** _column_label *)

Lemma letter_facts (r : Z) :
  (0 <= r < 26)%Z ->
  code (ascii_of_nat (65 + Z.to_nat r)) - 64 = S (Z.to_nat r) /\
  is_upper (ascii_of_nat (65 + Z.to_nat r)) = true.
Proof.
  intros H. unfold is_upper, code, between.
  rewrite nat_ascii_embedding by lia. split; [lia|].
  apply andb_true_iff. split; apply Nat.leb_le; lia.
Qed.

Lemma column_label_loop_spec (fuel : nat) :
  forall current label,
    (0 <= current)%Z -> Z.to_nat current <= fuel ->
    forallb is_upper label = true ->
    let out := column_label_loop fuel current label in
    Z.of_nat (column_of out)
    = (current * Z.of_nat (26 ^ List.length label)
       + Z.of_nat (column_of label))%Z /\
    forallb is_upper out = true /\
    ((0 < current)%Z -> out <> []).
Proof.
  induction fuel as [|fuel IH]; intros current label H0 Hf Hl; cbv zeta.
  - assert (current = 0%Z) by lia. subst. cbn [column_label_loop].
    split; [reflexivity|split; [exact Hl|lia]].
  - cbn [column_label_loop]. destruct (0 <? current)%Z eqn:E.
    2:{ apply Z.ltb_ge in E. assert (current = 0%Z) by lia. subst.
        split; [reflexivity|split; [exact Hl|lia]]. }
    apply Z.ltb_lt in E. cbv zeta.
    set (r := ((current - 1) mod 26)%Z).
    set (q := ((current - 1) / 26)%Z).
    assert (Hr : (0 <= r < 26)%Z) by (apply Z.mod_pos_bound; lia).
    assert (Hq : (0 <= q)%Z) by (apply Z.div_pos; lia).
    assert (D : (current - 1 = 26 * q + r)%Z)
      by (apply Z.div_mod; lia).
    destruct (letter_facts r Hr) as [V U].
    set (c := ascii_of_nat (65 + Z.to_nat r)) in *.
    assert (Hl' : forallb is_upper (c :: label) = true)
      by (cbn [forallb]; now rewrite U, Hl).
    destruct (IH q (c :: label) Hq ltac:(lia) Hl') as (Val & Up & _).
    split; [|split; [exact Up|]].
    + rewrite Val. cbn [column_of List.length]. rewrite V.
      rewrite Nat.pow_succ_r'. 
      set (P := 26 ^ List.length label).
      rewrite Nat2Z.inj_add, !Nat2Z.inj_mul.
      assert (R : Z.of_nat (S (Z.to_nat r)) = (r + 1)%Z) by lia.
      rewrite R. change (Z.of_nat 26) with 26%Z. nia.
    + intros _ N.
      assert (Z0 : Z.of_nat (column_of (column_label_loop fuel q (c :: label)))
                   = 0%Z) by now rewrite N.
      rewrite Val in Z0. cbn [column_of List.length] in Z0. rewrite V in Z0.
      assert (P : 0 < 26 ^ List.length label)
        by (apply Nat.neq_0_lt_0, Nat.pow_nonzero; lia).
      assert (P2 : 0 < 26 ^ S (List.length label))
        by (apply Nat.neq_0_lt_0, Nat.pow_nonzero; lia).
      nia.
Qed.

(** For a column number from 1 on, [_column_label] gives the letters of
    the column in the bijective base 26 of spreadsheets: capital letters
    that name this column again, so that two columns never share a label.
    A number below 1 gives [A], the label of column 1. *)
Theorem column_label_round_trip (index other : Z) :
  (1 <= index)%Z -> (1 <= other)%Z ->
  Z.of_nat (column_of (_column_label index)) = index /\
  forallb is_upper (_column_label index) = true /\
  (_column_label index = _column_label other -> index = other) /\
  (forall low, (low <= 0)%Z -> _column_label low = py "A").
Proof.
  intros Hi Ho.
  assert (RT : forall i, (1 <= i)%Z ->
            Z.of_nat (column_of (_column_label i)) = i /\
            forallb is_upper (_column_label i) = true).
  { intros i H. unfold _column_label.
    destruct (column_label_loop_spec (Z.to_nat i) i [] ltac:(lia)
                (le_n _) eq_refl) as (Val & Up & Ne).
    specialize (Ne ltac:(lia)).
    destruct (column_label_loop (Z.to_nat i) i []) as [|c t];
      [congruence|]. cbn [or_str]. split; [|exact Up].
    rewrite Val. simpl. lia. }
  destruct (RT index Hi) as [V U]. split; [exact V|]. split; [exact U|].
  split.
  - intros E. destruct (RT other Ho) as [V' _]. rewrite <- E in V'. lia.
  - intros low H. unfold _column_label.
    replace (Z.to_nat low) with 0 by lia. reflexivity.
Qed.

Lemma column_label_round_trip_witness :
  _column_label 28 = py "AB" /\
  Z.of_nat (column_of (_column_label 28)) = 28%Z.
Proof.
  split; [reflexivity|].
  apply (column_label_round_trip 28 1); lia.
Defined.

Import PyNum ChangeNameMore XmlPlaceholdersMore SheetCache.

(** *** _is_http_url and _detect_category *)

Lemma strip_prefix_nocase_incl (pre s r : str) :
  strip_prefix_nocase pre s = Some r -> incl r s.
Proof.
  revert s. induction pre as [|a pre IH]; intros [|b s]; simpl;
    try discriminate; try (intros H; injection H as <-; apply incl_refl).
  destruct (eq_nocase b a); [|discriminate].
  intros H. apply incl_tl. now apply IH.
Qed.

Lemma scheme_at_incl (s r : str) : scheme_at s = Some r -> incl r s.
Proof.
  unfold scheme_at.
  destruct (strip_prefix_nocase (py "http") s) as [r0|] eqn:E;
    [|discriminate].
  apply strip_prefix_nocase_incl in E.
  set (r' := match r0 with
             | c :: t => if eq_nocase c "s" then t else r0
             | [] => r0
             end).
  assert (Hr : incl r' r0).
  { subst r'. destruct r0 as [|c t]; [apply incl_refl|].
    destruct (eq_nocase c "s"); [apply incl_tl|]; apply incl_refl. }
  intros H. apply strip_prefix_app in H.
  intros x Hx. apply E, Hr. rewrite H. apply in_or_app. now right.
Qed.

Lemma take_while_incl (p : ascii -> bool) (s : str) :
  incl (take_while p s) s.
Proof.
  induction s as [|c t IH]; simpl; [apply incl_refl|].
  destruct (p c); [|intros x []].
  intros x [<-|H]; [now left|right; now apply IH].
Qed.

Lemma no_backslash (s : str) (x : ascii) :
  existsb (Ascii.eqb backslash) s = false -> In x s -> x <> backslash.
Proof.
  intros H Hx ->.
  assert (T : existsb (Ascii.eqb backslash) s = true).
  { apply existsb_exists. exists backslash. split; [exact Hx|].
    apply Ascii.eqb_refl. }
  congruence.
Qed.

(** [_is_http_url] accepts no URL without a backslash: the pattern of the
    source asks for one after the host, so a URL as the sheets hold them
    is rejected. *)
Theorem is_http_url_needs_backslash (url : str) :
  existsb (Ascii.eqb backslash) url = false -> _is_http_url url = false.
Proof.
  intros H. unfold _is_http_url.
  destruct (scheme_at url) as [r|] eqn:E; [|reflexivity].
  apply scheme_at_incl in E.
  destruct (take_while host_char r); [reflexivity|].
  destruct (lstrip_by host_char r) as [|b [|d [|c t]]] eqn:L;
    try reflexivity.
  destruct (Ascii.eqb b backslash) eqn:B; [|reflexivity].
  apply Ascii.eqb_eq in B. subst b. exfalso.
  apply (no_backslash url backslash H); [|reflexivity].
  apply E. apply (lstrip_by_incl host_char r). rewrite L. now left.
Qed.

Lemma is_http_url_needs_backslash_witness :
  _is_http_url (py "https://www.youtube.com/watch?v=dQw4w9WgXcQ") = false.
Proof.
  apply is_http_url_needs_backslash. reflexivity.
Defined.

Lemma lower_char_backslash (c : ascii) :
  lower_char c = backslash -> c = backslash.
Proof.
  destruct c as [[] [] [] [] [] [] [] []]; vm_compute; intros H;
    try discriminate H; reflexivity.
Qed.

Lemma search_image_backslash (s : str) :
  search_image s = true -> In backslash s.
Proof.
  induction s as [|b t IH]; [discriminate|].
  cbn [search_image]. intros H. apply orb_true_iff in H as [H|H].
  - unfold image_at in H. destruct t as [|d t']; [discriminate|].
    apply andb_true_iff in H as [H _]. apply andb_true_iff in H as [H _].
    apply Ascii.eqb_eq in H. now left.
  - right. now apply IH.
Qed.

Lemma host_match_path_incl (url host path : str) :
  host_match url = Some (host, Some path) -> incl path url.
Proof.
  unfold host_match.
  destruct (scheme_at url) as [r|] eqn:E; [|discriminate].
  apply scheme_at_incl in E.
  destruct (take_while not_slash r); [discriminate|].
  destruct (lstrip_by not_slash r) as [|c t] eqn:L; [discriminate|].
  intros H. injection H as _ <-.
  intros x [<-|Hx]; apply E, (lstrip_by_incl not_slash r); rewrite L.
  - now left.
  - right. now apply (take_while_incl any_char t).
Qed.

(** [_detect_category] never answers [image] for a URL without a
    backslash: its pattern asks for one before the extension.  The link of
    a picture goes to the other links, or to the footage when the host is
    motionarray.com. *)
Theorem detect_category_needs_backslash (url : str) :
  existsb (Ascii.eqb backslash) url = false ->
  _detect_category url <> image.
Proof.
  intros H. unfold _detect_category. cbv zeta.
  destruct (_ || _); [discriminate|].
  destruct (search_image _) eqn:S.
  2:{ destruct (contains _ _); discriminate. }
  exfalso. apply search_image_backslash in S.
  unfold lower in S. apply in_map_iff in S as (x & Ex & Hx).
  apply lower_char_backslash in Ex. subst x.
  destruct (host_match url) as [[h [p|]]|] eqn:M; try destruct Hx.
  apply (host_match_path_incl url h p M) in Hx.
  now apply (no_backslash url backslash H).
Qed.

Lemma detect_category_needs_backslash_witness :
  _detect_category (py "https://example.com/pictures/cat.jpg") = other /\
  _detect_category (py "https://example.com/pictures/cat.jpg") <> image.
Proof.
  split; [reflexivity|].
  apply detect_category_needs_backslash. reflexivity.
Defined.

Import PyNum ChangeNameMore XmlPlaceholdersMore SheetCache.

(** *** What counts as a reference to a sheet *)

Lemma strip_prefix_is_prefix (p s r : str) :
  strip_prefix p s = Some r -> is_prefix p s = true.
Proof.
  revert s. induction p as [|a p IH]; intros [|b s]; simpl;
    try discriminate; try reflexivity.
  destruct (Ascii.eqb a b); [|discriminate]. apply IH.
Qed.

Lemma is_prefix_app (p s r : str) :
  is_prefix p s = true -> is_prefix p (s ++ r) = true.
Proof.
  revert s. induction p as [|a p IH]; intros [|b s]; simpl;
    try discriminate; try reflexivity.
  intros H. apply andb_true_iff in H as [H1 H2]. rewrite H1. now apply IH.
Qed.

Lemma contains_cons (sub : str) (c : ascii) (t : str) :
  contains sub (c :: t) = is_prefix sub (c :: t) || contains sub t.
Proof. reflexivity. Qed.

Lemma contains_app_r (sub s r : str) :
  contains sub s = true -> contains sub (s ++ r) = true.
Proof.
  induction s as [|c t IH].
  - cbn [contains]. rewrite orb_false_r. intros H.
    destruct sub; [|discriminate]. now destruct r.
  - change ((c :: t) ++ r) with (c :: (t ++ r)). rewrite !contains_cons.
    intros H. apply orb_true_iff in H as [H|H].
    + change (c :: t ++ r) with ((c :: t) ++ r).
      now rewrite is_prefix_app.
    + rewrite (IH H). apply orb_true_r.
Qed.

Lemma contains_app_l (sub l s : str) :
  contains sub s = true -> contains sub (l ++ s) = true.
Proof.
  intros H. induction l as [|c l IH]; [exact H|].
  change ((c :: l) ++ s) with (c :: (l ++ s)).
  rewrite contains_cons, IH. apply orb_true_r.
Qed.

Lemma search_id_contains (s g : str) :
  search_id s = Some g -> contains id_marker s = true.
Proof.
  induction s as [|c t IH]; [discriminate|].
  cbn [search_id]. rewrite contains_cons.
  destruct (strip_prefix id_marker (c :: t)) as [r|] eqn:E.
  - apply strip_prefix_is_prefix in E. now rewrite E.
  - intros H. rewrite (IH H). apply orb_true_r.
Qed.

(** A strip cuts a piece out of the string. *)
Lemma strip_by_infix (p : ascii -> bool) (s : str) :
  exists l r, s = l ++ strip_by p s ++ r.
Proof.
  unfold strip_by, rstrip_by.
  exists (take_while p s),
         (rev (take_while p (rev (lstrip_by p s)))).
  rewrite <- rev_app_distr, <- take_while_lstrip, rev_involutive.
  apply take_while_lstrip.
Qed.

(** Whatever [parse_spreadsheet_id] accepts, [_looks_like_sheet_id]
    recognises: [resolve_project] takes no link or ID the parser can read
    for the name of a folder. *)
Theorem parsed_looks_like_sheet_id (raw g : str) :
  SheetCache.parse_spreadsheet_id raw = Ok g ->
  _looks_like_sheet_id raw = true.
Proof.
  unfold SheetCache.parse_spreadsheet_id, _looks_like_sheet_id. cbv zeta.
  intros H.
  assert (Hne : strip raw <> []).
  { intros E. rewrite E in H. discriminate. }
  destruct raw as [|c t]; [now contradiction Hne|].
  set (raw := c :: t) in *.
  destruct (contains id_marker raw) eqn:C; [reflexivity|].
  destruct (search_id (strip raw)) as [g'|] eqn:S.
  - apply search_id_contains in S.
    destruct (strip_by_infix isspace raw) as (l & r & E).
    fold (strip raw) in E. rewrite E in C.
    rewrite (contains_app_l _ l _ (contains_app_r _ _ r S)) in C.
    discriminate.
  - destruct (is_bare_id (strip raw)); [reflexivity|discriminate].
Qed.

Lemma parsed_looks_like_sheet_id_witness :
  SheetCache.parse_spreadsheet_id
    (py " https://docs.google.com/spreadsheets/d/1AbC-dEf_9/edit#gid=0 ")
  = Ok (py "1AbC-dEf_9") /\
  _looks_like_sheet_id
    (py " https://docs.google.com/spreadsheets/d/1AbC-dEf_9/edit#gid=0 ")
  = true.
Proof.
  split; [reflexivity|].
  apply (parsed_looks_like_sheet_id _ (py "1AbC-dEf_9")). reflexivity.
Defined.
